(** * Feature-flag evaluation engine (src/services/flag.service.ts)

    A shallow embedding of the flag service and of the part of the
    JavaScript runtime it leans on, followed by the properties of the
    engine.

    Modelling conventions.
    - A JavaScript string is a [string]; one character stands for one UTF-16
      code unit, so the model covers the strings whose code units are below
      256.
    - A JavaScript number is an IEEE-754 binary64 value, [spec_float] with
      precision 53 and maximal exponent 1024.
    - A JavaScript value is JSON data plus [undefined]. The engine is read
      on such data first, with property lookup as the lookup of own
      properties and [String] and [Number] as functions that return. The
      members an object inherits from [Object.prototype] and
      [Array.prototype], and the TypeError a coercion can throw, are added
      by [Exact], which agrees with the first reading wherever neither comes
      into play.
    - [RegExp] and the [murmurhash3] import are parameters ([Runtime]).
    - [await]ed calls run in sequence; the cache and the database are an
      explicit [World] threaded through the [IO] monad. *)

From Stdlib Require Import ZArith Ascii String List Bool Lia.
From Stdlib Require Import Floats.SpecFloat Sorting.Sorted Sorting.Permutation.
From stdpp Require Import gmap strings.

Local Open Scope Z_scope.
Set Warnings "-register-all".

(** ** The JavaScript runtime the service uses *)

Module Js.

(** *** Strings *)

Definition code (c : ascii) : Z := Z.of_N (N_of_ascii c).

Definition is_digit (c : ascii) : bool := (48 <=? code c) && (code c <=? 57).

Definition digit_val (c : ascii) : Z := code c - 48.

(** Longest prefix of decimal digits, and what follows it. *)
Fixpoint span_digits (s : string) : string * string :=
  match s with
  | String c s' =>
      if is_digit c
      then let (d, r) := span_digits s' in (String c d, r)
      else (EmptyString, s)
  | EmptyString => (EmptyString, EmptyString)
  end.

Fixpoint digits_value (acc : Z) (s : string) : Z :=
  match s with
  | String c s' => digits_value (10 * acc + digit_val c) s'
  | EmptyString => acc
  end.

(** [s.split(sep)] for a one-character separator: never the empty list. *)
Fixpoint split (sep : ascii) (s : string) : list string :=
  match s with
  | EmptyString => [EmptyString]
  | String c s' =>
      if Ascii.eqb c sep then EmptyString :: split sep s'
      else match split sep s' with
           | seg :: segs => String c seg :: segs
           | [] => [String c EmptyString]
           end
  end.

(** [s.includes(sub)] *)
Fixpoint includes (s sub : string) : bool :=
  String.prefix sub s ||
  match s with
  | String _ s' => includes s' sub
  | EmptyString => false
  end.

(** [a < b] and [a > b] on strings: lexicographic on code units. *)
Definition str_lt (a b : string) : bool :=
  match String.compare a b with Lt => true | _ => false end.

Definition str_gt (a b : string) : bool :=
  match String.compare a b with Gt => true | _ => false end.

(** [xs.join(sep)] on strings. *)
Fixpoint join (sep : string) (xs : list string) : string :=
  match xs with
  | [] => EmptyString
  | [x] => x
  | x :: rest => x +:+ sep +:+ join sep rest
  end.

Fixpoint repeat0 (n : nat) : string :=
  match n with O => EmptyString | S n' => String "0" (repeat0 n') end.

(** Decimal digits of a natural number, most significant first. *)
Fixpoint digits_of_fuel (fuel : nat) (z : Z) (acc : string) : string :=
  match fuel with
  | O => acc
  | S fuel' =>
      let acc' := String (ascii_of_N (Z.to_N (48 + z mod 10))) acc in
      if z <? 10 then acc' else digits_of_fuel fuel' (z / 10) acc'
  end.

Definition digits_of (z : Z) : string :=
  digits_of_fuel (S (Z.to_nat (Z.log2 z))) z EmptyString.

(** *** Numbers *)

Definition number := spec_float.

Definition prec : Z := 53.
Definition emax : Z := 1024.

Definition NaN : number := S754_nan.
Definition Infinity (neg : bool) : number := S754_infinity neg.

(** The Number value for an integer: round to nearest, ties to even. *)
Definition of_Z (z : Z) : number := binary_normalize prec emax z 0 false.

(** The Number value for [(-1)^neg * m * 10^e10], [0 <= m]. A negative
    exponent divides with enough quotient bits for the remainder to act as
    a sticky bit. *)
Definition of_decimal (neg : bool) (m e10 : Z) : number :=
  if m =? 0 then S754_zero neg
  else if 0 <=? e10
  then binary_normalize prec emax ((if neg then - m else m) * 10 ^ e10) 0 false
  else
    let d := 10 ^ (- e10) in
    let s := Z.max 0 (56 + Z.log2 d - Z.log2 m) in
    let n := m * 2 ^ s in
    let q := n / d in
    let r := n mod d in
    let loc := if r =? 0 then loc_Exact else loc_Inexact (2 * r ?= d) in
    binary_round_aux prec emax neg q (- s) loc.

Definition num_lt (x y : number) : bool := SFltb x y.
Definition num_le (x y : number) : bool := SFleb x y.
Definition num_gt (x y : number) : bool := SFltb y x.
Definition num_ge (x y : number) : bool := SFleb y x.
(** [x !== y] on numbers: true as soon as one side is NaN. *)
Definition num_neq (x y : number) : bool := negb (SFeqb x y).

(** [x.toString()] for a finite positive [num/den]: the least number of
    digits [k] and digit string [s] with [s * 10^(n-k)] rounding back to
    [x] (Number::toString, radix 10). *)
Definition cmp_pow10 (num den n : Z) : comparison :=
  if 0 <=? n then (num ?= 10 ^ n * den) else (num * 10 ^ (- n) ?= den).

(** Least [n] with [num/den < 10^n], searched from an estimate. *)
Fixpoint adjust_n (fuel : nat) (num den n : Z) : Z :=
  match fuel with
  | O => n
  | S fuel' =>
      match cmp_pow10 num den n with
      | Lt => match cmp_pow10 num den (n - 1) with
              | Lt => adjust_n fuel' num den (n - 1)
              | _ => n
              end
      | _ => adjust_n fuel' num den (n + 1)
      end
  end.

Definition decimal_exponent (num den : Z) : Z :=
  adjust_n 8 num den ((Z.log2 num - Z.log2 den) * 30103 / 100000 + 1).

(** The candidates with [k] digits: the two neighbours of [x / 10^(n-k)]. *)
Definition shortest_at (x : number) (num den n k : Z) : option (Z * Z * Z) :=
  let '(a, b) :=
    if n <=? k then (num * 10 ^ (k - n), den) else (num, den * 10 ^ (n - k)) in
  let lo := a / b in
  let hi := lo + 1 in
  let ok s := SFeqb (of_decimal false s (n - k)) x in
  let lo_ok := (10 ^ (k - 1) <=? lo) && ok lo in
  let hi_ok := ok hi in
  let pick s := if s =? 10 ^ k then Some (1, 1, n + 1) else Some (s, k, n) in
  match lo_ok, hi_ok with
  | true, true =>
      match 2 * a - 2 * lo * b ?= b with
      | Lt => pick lo
      | Gt => pick hi
      | Eq => if Z.even lo then pick lo else pick hi
      end
  | true, false => pick lo
  | false, true => pick hi
  | false, false => None
  end.

Fixpoint shortest_from (fuel : nat) (x : number) (num den n k : Z) : Z * Z * Z :=
  match fuel with
  | O => (num * 10 ^ (k - n) / den, k, n)
  | S fuel' =>
      match shortest_at x num den n k with
      | Some r => r
      | None => shortest_from fuel' x num den n (k + 1)
      end
  end.

Definition format_digits (ds : string) (k n : Z) : string :=
  if (k <=? n) && (n <=? 21) then ds +:+ repeat0 (Z.to_nat (n - k))
  else if (0 <? n) && (n <=? 21)
  then String.substring 0 (Z.to_nat n) ds +:+ "." +:+
       String.substring (Z.to_nat n) (Z.to_nat (k - n)) ds
  else if (-6 <? n) && (n <=? 0) then "0." +:+ repeat0 (Z.to_nat (- n)) +:+ ds
  else
    let e := n - 1 in
    let es := (if 0 <=? e then "+" else "-") +:+ digits_of (Z.abs e) in
    match ds with
    | String c rest =>
        if k =? 1 then String c ("e" +:+ es)
        else String c ("." +:+ rest +:+ "e" +:+ es)
    | EmptyString => EmptyString
    end.

Definition Number_toString (x : number) : string :=
  match x with
  | S754_nan => "NaN"
  | S754_zero _ => "0"
  | S754_infinity neg => if neg then "-Infinity" else "Infinity"
  | S754_finite neg m e =>
      let num := if 0 <=? e then Z.pos m * 2 ^ e else Z.pos m in
      let den := if 0 <=? e then 1 else 2 ^ (- e) in
      let n := decimal_exponent num den in
      let '(s, k, n') := shortest_from 17 (S754_finite false m e) num den n 1 in
      (if neg then "-" else "") +:+ format_digits (digits_of s) k n'
  end.

(** [Number(s)] on a string (StringToNumber). *)
Definition is_space (c : ascii) : bool :=
  let n := code c in
  ((9 <=? n) && (n <=? 13)) || (n =? 32) || (n =? 160).

Fixpoint trim_left (s : string) : string :=
  match s with
  | String c s' => if is_space c then trim_left s' else s
  | EmptyString => EmptyString
  end.

Fixpoint all_space (s : string) : bool :=
  match s with
  | String c s' => is_space c && all_space s'
  | EmptyString => true
  end.

Fixpoint trim_right (s : string) : string :=
  match s with
  | String c s' => if all_space s then EmptyString else String c (trim_right s')
  | EmptyString => EmptyString
  end.

Definition trim (s : string) : string := trim_right (trim_left s).

Definition radix_digit (radix : Z) (c : ascii) : option Z :=
  let n := code c in
  let v := if is_digit c then n - 48
           else if (97 <=? n) && (n <=? 122) then n - 87
           else if (65 <=? n) && (n <=? 90) then n - 55
           else radix in
  if v <? radix then Some v else None.

Fixpoint radix_value (radix acc : Z) (s : string) : option Z :=
  match s with
  | EmptyString => Some acc
  | String c s' =>
      match radix_digit radix c with
      | Some v => radix_value radix (radix * acc + v) s'
      | None => None
      end
  end.

Definition radix_literal (radix : Z) (s : string) : number :=
  match s with
  | EmptyString => NaN
  | _ => match radix_value radix 0 s with Some z => of_Z z | None => NaN end
  end.

Definition is_empty (s : string) : bool :=
  match s with EmptyString => true | _ => false end.

(** ExponentPart, or nothing, up to the end of the string. *)
Definition parse_exponent (s : string) : option Z :=
  match s with
  | EmptyString => Some 0
  | String c s' =>
      if (code c =? 101) || (code c =? 69) then
        let '(neg, s'') :=
          match s' with
          | String "+" t => (false, t)
          | String "-" t => (true, t)
          | _ => (false, s')
          end in
        let (d, r) := span_digits s'' in
        if negb (is_empty d) && is_empty r
        then Some (if neg then - digits_value 0 d else digits_value 0 d)
        else None
      else None
  end.

Definition parse_unsigned_decimal (neg : bool) (s : string) : number :=
  if String.eqb s "Infinity" then Infinity neg else
  let (ip, r1) := span_digits s in
  let '(fp, r2) :=
    match r1 with
    | String "." t => span_digits t
    | _ => (EmptyString, r1)
    end in
  if is_empty ip && is_empty fp then NaN else
  match parse_exponent r2 with
  | Some e => of_decimal neg (digits_value 0 (ip +:+ fp))
                         (e - Z.of_nat (String.length fp))
  | None => NaN
  end.

Definition StringToNumber (s : string) : number :=
  match trim s with
  | EmptyString => S754_zero false
  | String "0" (String "x" t) | String "0" (String "X" t) => radix_literal 16 t
  | String "0" (String "o" t) | String "0" (String "O" t) => radix_literal 8 t
  | String "0" (String "b" t) | String "0" (String "B" t) => radix_literal 2 t
  | String "+" t => parse_unsigned_decimal false t
  | String "-" t => parse_unsigned_decimal true t
  | t => parse_unsigned_decimal false t
  end.

(** [parseInt(ds, 10)] on a non-empty run of decimal digits: the Number
    nearest to the integer the digits spell. *)
Definition parseInt_digits (ds : string) : number := of_Z (digits_value 0 ds).

(** *** Values *)

Inductive value :=
| VUndefined
| VNull
| VBool (b : bool)
| VNumber (x : number)
| VString (s : string)
| VArray (xs : list value)
| VObject (props : list (string * value)).

Definition typeof (v : value) : string :=
  match v with
  | VUndefined => "undefined"
  | VNull => "object"
  | VBool _ => "boolean"
  | VNumber _ => "number"
  | VString _ => "string"
  | VArray _ => "object"
  | VObject _ => "object"
  end.

Definition isArray (v : value) : bool :=
  match v with VArray _ => true | _ => false end.

(** [String(v)] where it returns: an array joins its elements with commas,
    [null] and [undefined] elements as the empty string. [Exact.ToString]
    tells where it throws. *)
Fixpoint ToString (v : value) : string :=
  match v with
  | VUndefined => "undefined"
  | VNull => "null"
  | VBool b => if b then "true" else "false"
  | VNumber x => Number_toString x
  | VString s => s
  | VArray xs =>
      join ","
        (List.map (fun x => match x with
                            | VUndefined | VNull => EmptyString
                            | _ => ToString x
                            end) xs)
  | VObject _ => "[object Object]"
  end.

(** [Number(v)] where it returns: an object or array goes through its
    string form. *)
Definition ToNumber (v : value) : number :=
  match v with
  | VUndefined => NaN
  | VNull => S754_zero false
  | VBool b => if b then of_Z 1 else S754_zero false
  | VNumber x => x
  | VString s => StringToNumber s
  | VArray _ | VObject _ => StringToNumber (ToString v)
  end.

(** Own property of an object literal: the first binding of the key. *)
Fixpoint assoc (key : string) (props : list (string * value)) : option value :=
  match props with
  | [] => None
  | (k, v) :: rest => if String.eqb k key then Some v else assoc key rest
  end.

(** An array index in canonical form: the decimal form of an integer below
    [2^32 - 1]. *)
Definition array_index (key : string) : option Z :=
  let (d, r) := span_digits key in
  let i := digits_value 0 key in
  if negb (is_empty d) && is_empty r && String.eqb (digits_of i) key
     && (i <? 2 ^ 32 - 1)
  then Some i else None.

(** [xs[i]]: undefined past the end. *)
Definition element (xs : list value) (i : Z) : value :=
  if i <? Z.of_nat (List.length xs)
  then List.nth (Z.to_nat i) xs VUndefined
  else VUndefined.

(** [v[key]] for a value whose [typeof] is ['object'] and that is not
    [null], and a key that names no inherited member; [Exact.get] has
    those. *)
Definition get (v : value) (key : string) : value :=
  match v with
  | VObject props =>
      match assoc key props with Some x => x | None => VUndefined end
  | VArray xs =>
      match array_index key with
      | Some i => element xs i
      | None =>
          if String.eqb key "length"
          then VNumber (of_Z (Z.of_nat (List.length xs)))
          else VUndefined
      end
  | _ => VUndefined
  end.

(** [xs.includes(x)] on an array of strings. *)
Definition array_includes (xs : list string) (x : string) : bool :=
  List.existsb (String.eqb x) xs.

(** [[...xs].sort(cmp)]: the sort is stable, so with a consistent
    comparator its result is the one of a stable insertion sort. *)
Fixpoint sort_insert {A} (cmp : A -> A -> Z) (x : A) (l : list A) : list A :=
  match l with
  | [] => [x]
  | y :: l' => if cmp x y <=? 0 then x :: y :: l' else y :: sort_insert cmp x l'
  end.

Fixpoint sort {A} (cmp : A -> A -> Z) (l : list A) : list A :=
  match l with
  | [] => []
  | x :: l' => sort_insert cmp x (sort cmp l')
  end.

End Js.

(** ** What the service imports and the engine does not define *)

(** [RegExp_new] is [new RegExp(pattern)], [None] when the constructor throws
    a SyntaxError; [RegExp_test] is [regex.test(s)] on a fresh regex without
    flags. [murmurhash3] is the import from lib/crypto. *)
Class Runtime := {
  RegExp : Type;
  RegExp_new : string -> option RegExp;
  RegExp_test : RegExp -> string -> bool;
  murmurhash3 : string -> Z
}.

(** ** Types *)

Module FlagCondition.
Record t := mk {
  field : string;
  operator : string;
  value : Js.value
}.
End FlagCondition.

Module StoredRule.
Record t := mk {
  id : string;
  priority : Z;
  conditions : list FlagCondition.t;
  value : Js.value;
  rolloutPercentage : option Z
}.
End StoredRule.

Module StoredFlag.
Record t := mk {
  id : string;
  key : string;
  name : string;
  description : option string;
  type : option string;
  defaultValue : Js.value;
  enabled : option bool;
  rules : list StoredRule.t
}.
End StoredFlag.

(** The evaluation context is an object; its properties are kept in order. *)
Definition FlagEvaluationContext := list (string * Js.value).

Inductive Source := src_rule | src_default | src_disabled.

Module FlagEvaluationResult.
Record t := mk {
  key : string;
  value : Js.value;
  source : Source;
  ruleId : option string
}.
End FlagEvaluationResult.

Module BulkFlagEvaluationResponse.
Record t := mk {
  flags : gmap string Js.value;
  details : list FlagEvaluationResult.t;
  evaluatedAt : string
}.
End BulkFlagEvaluationResponse.

(** ** Constants *)

Definition ALL_FLAGS_CACHE_KEY : string := "flags:all".
Definition ALL_FLAGS_CACHE_TTL : Z := 300.
Definition USER_FLAGS_CACHE_TTL : Z := 60.

(** ** Semver helpers *)

Module SemverParts.
Record t := mk {
  major : Js.number;
  minor : Js.number;
  patch : Js.number
}.
End SemverParts.

(** [version.match(/^(\d+)\.(\d+)\.(\d+)/)]: the three captured digit runs.
    Each [\d+] is greedy and is followed by a dot or by nothing, so no
    backtracking can change the captures. *)
Definition semver_match (version : string) : option (string * string * string) :=
  let (d1, r1) := Js.span_digits version in
  if Js.is_empty d1 then None else
  match r1 with
  | String "." t1 =>
      let (d2, r2) := Js.span_digits t1 in
      if Js.is_empty d2 then None else
      match r2 with
      | String "." t2 =>
          let (d3, _) := Js.span_digits t2 in
          if Js.is_empty d3 then None else Some (d1, d2, d3)
      | _ => None
      end
  | _ => None
  end.

Definition parseSemver (version : string) : option SemverParts.t :=
  match semver_match version with
  | None => None
  | Some (m1, m2, m3) =>
      Some {| SemverParts.major := Js.parseInt_digits m1;
              SemverParts.minor := Js.parseInt_digits m2;
              SemverParts.patch := Js.parseInt_digits m3 |}
  end.

Definition compareSemver (a b : string) : Z :=
  match parseSemver a, parseSemver b with
  | Some aParts, Some bParts =>
      if Js.num_neq (SemverParts.major aParts) (SemverParts.major bParts)
      then (if Js.num_lt (SemverParts.major aParts) (SemverParts.major bParts)
            then -1 else 1)
      else if Js.num_neq (SemverParts.minor aParts) (SemverParts.minor bParts)
      then (if Js.num_lt (SemverParts.minor aParts) (SemverParts.minor bParts)
            then -1 else 1)
      else if Js.num_neq (SemverParts.patch aParts) (SemverParts.patch bParts)
      then (if Js.num_lt (SemverParts.patch aParts) (SemverParts.patch bParts)
            then -1 else 1)
      else 0
  | _, _ =>
      (* Fall back to string comparison *)
      if Js.str_lt a b then -1 else if Js.str_gt a b then 1 else 0
  end.

(** ** Condition matching *)

Section Engine.
Context `{Runtime}.

(** The [for (const part of parts)] loop of [getContextValue]. *)
Fixpoint getContextValue_loop (parts : list string) (current : Js.value)
  : Js.value :=
  match parts with
  | [] => current
  | part :: parts' =>
      match current with
      | Js.VNull | Js.VUndefined => Js.VUndefined
      | _ =>
          if String.eqb (Js.typeof current) "object"
          then getContextValue_loop parts' (Js.get current part)
          else Js.VUndefined
      end
  end.

Definition getContextValue (context : FlagEvaluationContext) (field : string)
  : Js.value :=
  let parts := Js.split "." field in
  getContextValue_loop parts (Js.VObject context).

Definition is_some {A} (o : option A) : bool :=
  match o with Some _ => true | None => false end.

Definition matchesSingleCondition (contextValue : Js.value)
    (condition : FlagCondition.t) : bool :=
  let operator := FlagCondition.operator condition in
  let conditionValue := FlagCondition.value condition in
  match contextValue with
  | Js.VUndefined | Js.VNull =>
      (* Handle null/undefined context values *)
      if String.eqb operator "neq" || String.eqb operator "not_in"
      then true else false
  | _ =>
      if String.eqb operator "eq" then
        String.eqb (Js.ToString contextValue) (Js.ToString conditionValue)
      else if String.eqb operator "neq" then
        negb (String.eqb (Js.ToString contextValue) (Js.ToString conditionValue))
      else if String.eqb operator "gt" then
        if String.eqb (Js.typeof contextValue) "string"
           && String.eqb (Js.typeof conditionValue) "string"
        then
          let semResult :=
            compareSemver (Js.ToString contextValue) (Js.ToString conditionValue) in
          if is_some (parseSemver (Js.ToString contextValue))
             && is_some (parseSemver (Js.ToString conditionValue))
          then semResult >? 0
          else Js.num_gt (Js.ToNumber contextValue) (Js.ToNumber conditionValue)
        else Js.num_gt (Js.ToNumber contextValue) (Js.ToNumber conditionValue)
      else if String.eqb operator "gte" then
        if String.eqb (Js.typeof contextValue) "string"
           && String.eqb (Js.typeof conditionValue) "string"
        then
          let semResult :=
            compareSemver (Js.ToString contextValue) (Js.ToString conditionValue) in
          if is_some (parseSemver (Js.ToString contextValue))
             && is_some (parseSemver (Js.ToString conditionValue))
          then semResult >=? 0
          else Js.num_ge (Js.ToNumber contextValue) (Js.ToNumber conditionValue)
        else Js.num_ge (Js.ToNumber contextValue) (Js.ToNumber conditionValue)
      else if String.eqb operator "lt" then
        if String.eqb (Js.typeof contextValue) "string"
           && String.eqb (Js.typeof conditionValue) "string"
        then
          let semResult :=
            compareSemver (Js.ToString contextValue) (Js.ToString conditionValue) in
          if is_some (parseSemver (Js.ToString contextValue))
             && is_some (parseSemver (Js.ToString conditionValue))
          then semResult <? 0
          else Js.num_lt (Js.ToNumber contextValue) (Js.ToNumber conditionValue)
        else Js.num_lt (Js.ToNumber contextValue) (Js.ToNumber conditionValue)
      else if String.eqb operator "lte" then
        if String.eqb (Js.typeof contextValue) "string"
           && String.eqb (Js.typeof conditionValue) "string"
        then
          let semResult :=
            compareSemver (Js.ToString contextValue) (Js.ToString conditionValue) in
          if is_some (parseSemver (Js.ToString contextValue))
             && is_some (parseSemver (Js.ToString conditionValue))
          then semResult <=? 0
          else Js.num_le (Js.ToNumber contextValue) (Js.ToNumber conditionValue)
        else Js.num_le (Js.ToNumber contextValue) (Js.ToNumber conditionValue)
      else if String.eqb operator "in" then
        match conditionValue with
        | Js.VArray xs =>
            Js.array_includes (List.map Js.ToString xs) (Js.ToString contextValue)
        | _ => false
        end
      else if String.eqb operator "not_in" then
        match conditionValue with
        | Js.VArray xs =>
            negb (Js.array_includes (List.map Js.ToString xs)
                                    (Js.ToString contextValue))
        | _ => true
        end
      else if String.eqb operator "contains" then
        Js.includes (Js.ToString contextValue) (Js.ToString conditionValue)
      else if String.eqb operator "regex" then
        match RegExp_new (Js.ToString conditionValue) with
        | Some regex => RegExp_test regex (Js.ToString contextValue)
        | None => false
        end
      else false
  end.

(** All conditions must match (AND logic). [conditions] is an array here,
    so the [!conditions] test of the source has no case of its own. *)
Definition matchesConditions (context : FlagEvaluationContext)
    (conditions : list FlagCondition.t) : bool :=
  match conditions with
  | [] => true
  | _ =>
      List.forallb
        (fun condition =>
           let contextValue :=
             getContextValue context (FlagCondition.field condition) in
           matchesSingleCondition contextValue condition)
        conditions
  end.

(** ** Rollout calculation *)

(** [hash % 100] is the remainder of the truncated division, [Z.rem]. *)
Definition calculateRollout (flagKey userId : string) (percentage : Z) : bool :=
  if percentage >=? 100 then true
  else if percentage <=? 0 then false
  else
    let hashInput := flagKey +:+ ":" +:+ userId in
    let hash := murmurhash3 hashInput in
    let bucket := Z.rem hash 100 in
    bucket <? percentage.

(** ** Single flag evaluation *)

(** [!flag.enabled] negates the truthiness of [boolean | null]. *)
Definition truthy (b : option bool) : bool :=
  match b with Some true => true | _ => false end.

(** [context.userId ?? 'anonymous']; the template literal of
    [calculateRollout] then takes the string form of what it is given. *)
Definition context_userId (context : FlagEvaluationContext) : string :=
  match Js.get (Js.VObject context) "userId" with
  | Js.VUndefined | Js.VNull => "anonymous"
  | v => Js.ToString v
  end.

(** The [for (const rule of sortedRules)] loop and the fall-through after
    it. *)
Fixpoint evaluateSingleFlag_loop (flag : StoredFlag.t)
    (context : FlagEvaluationContext) (sortedRules : list StoredRule.t)
  : FlagEvaluationResult.t :=
  match sortedRules with
  | [] =>
      (* No rules matched, return default *)
      {| FlagEvaluationResult.key := StoredFlag.key flag;
         FlagEvaluationResult.value := StoredFlag.defaultValue flag;
         FlagEvaluationResult.source := src_default;
         FlagEvaluationResult.ruleId := None |}
  | rule :: rest =>
      if negb (matchesConditions context (StoredRule.conditions rule))
      then evaluateSingleFlag_loop flag context rest
      else
        match StoredRule.rolloutPercentage rule with
        | Some percentage =>
            let userId := context_userId context in
            if negb (calculateRollout (StoredFlag.key flag) userId percentage)
            then evaluateSingleFlag_loop flag context rest
            else
              {| FlagEvaluationResult.key := StoredFlag.key flag;
                 FlagEvaluationResult.value := StoredRule.value rule;
                 FlagEvaluationResult.source := src_rule;
                 FlagEvaluationResult.ruleId := Some (StoredRule.id rule) |}
        | None =>
            {| FlagEvaluationResult.key := StoredFlag.key flag;
               FlagEvaluationResult.value := StoredRule.value rule;
               FlagEvaluationResult.source := src_rule;
               FlagEvaluationResult.ruleId := Some (StoredRule.id rule) |}
        end
  end.

Definition evaluateSingleFlag (flag : StoredFlag.t)
    (context : FlagEvaluationContext) : FlagEvaluationResult.t :=
  if negb (truthy (StoredFlag.enabled flag)) then
    {| FlagEvaluationResult.key := StoredFlag.key flag;
       FlagEvaluationResult.value := StoredFlag.defaultValue flag;
       FlagEvaluationResult.source := src_disabled;
       FlagEvaluationResult.ruleId := None |}
  else
    let sortedRules :=
      Js.sort (fun a b => StoredRule.priority a - StoredRule.priority b)
              (StoredFlag.rules flag) in
    evaluateSingleFlag_loop flag context sortedRules.

End Engine.

(** * The engine beyond JSON data *)

(** [getContextValue] and [matchesSingleCondition] above read the source on
    JSON data: [current[part]] as the lookup of an own property, [String]
    and [Number] as functions that return. Two things of the source are left
    out there. A path segment can name a member that every object or array
    inherits (['constructor'], ['__proto__'], ['includes'], ...), and then
    the lookup answers a built-in function or a prototype object. And
    [String] and [Number] throw a TypeError on an object that has a member
    of its own called ['toString']: no JSON value is callable, and the
    [valueOf] that is tried next answers the object itself. [Exact] embeds
    the two functions with both; where no segment names an inherited member
    and no coercion throws, it agrees with the definitions above. *)

(** The function-valued members of [Object.prototype] and of
    [Array.prototype] that have a string for a name, each with what [String]
    makes of the function. ['__proto__'] and the ['length'] of
    [Array.prototype] are no functions and are not listed. *)
Class Prototypes := {
  Object_prototype : list (string * string);
  Array_prototype : list (string * string)
}.

Module Exact.

(** What a path can reach: data of the context, an inherited built-in
    function (all the engine can see of it is its [typeof] and its source
    text), or one of the two prototype objects. *)
Inductive value :=
| Data (v : Js.value)
| Function (source : string)
| ObjectPrototype
| ArrayPrototype.

Definition typeof (v : value) : string :=
  match v with
  | Data d => Js.typeof d
  | Function _ => "function"
  | ObjectPrototype | ArrayPrototype => "object"
  end.

Fixpoint source_of (key : string) (table : list (string * string))
  : option string :=
  match table with
  | [] => None
  | (k, source) :: rest =>
      if String.eqb k key then Some source else source_of key rest
  end.

(** Own property of an array: an element or the length. *)
Definition array_own (xs : list Js.value) (key : string) : option Js.value :=
  match Js.array_index key with
  | Some i =>
      if i <? Z.of_nat (List.length xs)
      then Some (List.nth (Z.to_nat i) xs Js.VUndefined)
      else None
  | None =>
      if String.eqb key "length"
      then Some (Js.VNumber (Js.of_Z (Z.of_nat (List.length xs))))
      else None
  end.

Section Lookup.
Context `{Prototypes}.

(** [Object.prototype[key]] and [Array.prototype[key]] for a key that is
    neither ['__proto__'] nor ['length']. *)
Definition object_member (key : string) : value :=
  match source_of key Object_prototype with
  | Some source => Function source
  | None => Data Js.VUndefined
  end.

Definition array_member (key : string) : value :=
  match source_of key Array_prototype with
  | Some source => Function source
  | None => object_member key
  end.

(** [current[key]] for a [current] whose [typeof] is ['object'] and that is
    not [null]: the own property, else the member found along the prototype
    chain. ['__proto__'] is the accessor of [Object.prototype]; it answers
    the prototype of the object it is read on. *)
Definition get (current : value) (key : string) : value :=
  match current with
  | Data (Js.VObject props) =>
      match Js.assoc key props with
      | Some x => Data x
      | None =>
          if String.eqb key "__proto__" then ObjectPrototype
          else object_member key
      end
  | Data (Js.VArray xs) =>
      match array_own xs key with
      | Some x => Data x
      | None =>
          if String.eqb key "__proto__" then ArrayPrototype
          else array_member key
      end
  | ObjectPrototype =>
      if String.eqb key "__proto__" then Data Js.VNull
      else object_member key
  | ArrayPrototype =>
      if String.eqb key "length" then Data (Js.VNumber (Js.of_Z 0))
      else if String.eqb key "__proto__" then ObjectPrototype
      else array_member key
  | _ => Data Js.VUndefined
  end.

(** The [for (const part of parts)] loop of [getContextValue]. *)
Fixpoint getContextValue_loop (parts : list string) (current : value)
  : value :=
  match parts with
  | [] => current
  | part :: parts' =>
      match current with
      | Data Js.VNull | Data Js.VUndefined => Data Js.VUndefined
      | _ =>
          if String.eqb (typeof current) "object"
          then getContextValue_loop parts' (get current part)
          else Data Js.VUndefined
      end
  end.

Definition getContextValue (context : FlagEvaluationContext) (field : string)
  : value :=
  let parts := Js.split "." field in
  getContextValue_loop parts (Data (Js.VObject context)).

(** Vocabulary: the key names a member that objects and arrays inherit. *)
Definition inherited (key : string) : bool :=
  String.eqb key "__proto__"
  || is_some (source_of key Array_prototype)
  || is_some (source_of key Object_prototype).

End Lookup.

(** [String(v)] on data, [None] for the TypeError. An array joins the
    string forms of its elements, [null] and [undefined] elements as the
    empty string; an object answers through the [toString] it inherits
    unless it has a member of its own under that name. *)
Fixpoint ToString_data (v : Js.value) : option string :=
  match v with
  | Js.VUndefined => Some "undefined"
  | Js.VNull => Some "null"
  | Js.VBool b => Some (if b then "true" else "false")
  | Js.VNumber x => Some (Js.Number_toString x)
  | Js.VString s => Some s
  | Js.VArray xs =>
      option_map (Js.join ",")
        (List.fold_right
           (fun x rest =>
              match
                match x with
                | Js.VUndefined | Js.VNull => Some EmptyString
                | _ => ToString_data x
                end, rest
              with
              | Some s, Some l => Some (s :: l)
              | _, _ => None
              end)
           (Some []) xs)
  | Js.VObject props =>
      match Js.assoc "toString" props with
      | Some _ => None
      | None => Some "[object Object]"
      end
  end.

Definition ToString (v : value) : option string :=
  match v with
  | Data d => ToString_data d
  | Function source => Some source
  | ObjectPrototype => Some "[object Object]"
  | ArrayPrototype => Some EmptyString
  end.

(** [Number(v)], [None] for the TypeError: an object goes through the
    string form it is given by [toString]. *)
Definition ToNumber (v : value) : option Js.number :=
  match v with
  | Data Js.VUndefined => Some Js.NaN
  | Data Js.VNull => Some (S754_zero false)
  | Data (Js.VBool b) => Some (if b then Js.of_Z 1 else S754_zero false)
  | Data (Js.VNumber x) => Some x
  | Data (Js.VString s) => Some (Js.StringToNumber s)
  | _ => option_map Js.StringToNumber (ToString v)
  end.

(** [xs.map(String)] *)
Fixpoint map_String (xs : list Js.value) : option (list string) :=
  match xs with
  | [] => Some []
  | x :: rest =>
      match ToString_data x, map_String rest with
      | Some s, Some l => Some (s :: l)
      | _, _ => None
      end
  end.

Section Matching.
Context `{Runtime}.

(** What gt, gte, lt and lte do, but for the comparison they end in. *)
Definition compareValues (contextValue conditionValue : value)
    (sem : Z -> bool) (num : Js.number -> Js.number -> bool) : option bool :=
  let numeric :=
    match ToNumber contextValue, ToNumber conditionValue with
    | Some x, Some y => Some (num x y)
    | _, _ => None
    end in
  (* Try semver comparison first, then numeric *)
  if String.eqb (typeof contextValue) "string"
     && String.eqb (typeof conditionValue) "string"
  then
    match ToString contextValue, ToString conditionValue with
    | Some a, Some b =>
        let semResult := compareSemver a b in
        if is_some (parseSemver a) && is_some (parseSemver b)
        then Some (sem semResult)
        else numeric
    | _, _ => None
    end
  else numeric.

(** [None] stands for a TypeError that leaves the function. *)
Definition matchesSingleCondition (contextValue : value)
    (condition : FlagCondition.t) : option bool :=
  let operator := FlagCondition.operator condition in
  let conditionValue := FlagCondition.value condition in
  match contextValue with
  | Data Js.VUndefined | Data Js.VNull =>
      (* Handle null/undefined context values *)
      Some (if String.eqb operator "neq" || String.eqb operator "not_in"
            then true else false)
  | _ =>
      if String.eqb operator "eq" then
        match ToString contextValue, ToString_data conditionValue with
        | Some a, Some b => Some (String.eqb a b)
        | _, _ => None
        end
      else if String.eqb operator "neq" then
        match ToString contextValue, ToString_data conditionValue with
        | Some a, Some b => Some (negb (String.eqb a b))
        | _, _ => None
        end
      else if String.eqb operator "gt" then
        compareValues contextValue (Data conditionValue)
          (fun semResult => semResult >? 0) Js.num_gt
      else if String.eqb operator "gte" then
        compareValues contextValue (Data conditionValue)
          (fun semResult => semResult >=? 0) Js.num_ge
      else if String.eqb operator "lt" then
        compareValues contextValue (Data conditionValue)
          (fun semResult => semResult <? 0) Js.num_lt
      else if String.eqb operator "lte" then
        compareValues contextValue (Data conditionValue)
          (fun semResult => semResult <=? 0) Js.num_le
      else if String.eqb operator "in" then
        match conditionValue with
        | Js.VArray xs =>
            match map_String xs, ToString contextValue with
            | Some strings, Some s => Some (Js.array_includes strings s)
            | _, _ => None
            end
        | _ => Some false
        end
      else if String.eqb operator "not_in" then
        match conditionValue with
        | Js.VArray xs =>
            match map_String xs, ToString contextValue with
            | Some strings, Some s => Some (negb (Js.array_includes strings s))
            | _, _ => None
            end
        | _ => Some true
        end
      else if String.eqb operator "contains" then
        match ToString contextValue, ToString_data conditionValue with
        | Some a, Some b => Some (Js.includes a b)
        | _, _ => None
        end
      else if String.eqb operator "regex" then
        (* try ... catch: whatever is thrown gives false *)
        match ToString_data conditionValue with
        | None => Some false
        | Some pattern =>
            match RegExp_new pattern with
            | None => Some false
            | Some regex =>
                match ToString contextValue with
                | None => Some false
                | Some s => Some (RegExp_test regex s)
                end
            end
        end
      else Some false
  end.

End Matching.

(** Vocabulary: absent values, and values [String] and [Number] return
    on. *)
Definition is_absent (v : value) : bool :=
  match v with
  | Data Js.VUndefined | Data Js.VNull => true
  | _ => false
  end.

Definition coerces (v : value) : bool := is_some (ToString v).

End Exact.

(** ** The cache and the backing store *)

Inductive Error := RedisError | DatabaseError | TypeError.

(** What the service keeps in the cache. [JSON.stringify] followed by
    [JSON.parse] is the identity on both payloads. *)
Inductive CachePayload :=
| CachedFlags (flags : list StoredFlag.t)
| CachedBulk (response : BulkFlagEvaluationResponse.t).

(** A row of [feature_flags], with the columns the loader reads. *)
Module FlagRow.
Record t := mk {
  id : string;
  key : string;
  name : string;
  description : option string;
  type : option string;
  defaultValue : Js.value;
  enabled : option bool
}.
End FlagRow.

(** A row of [feature_flag_rules]; [conditions] is [None] for a null. *)
Module RuleRow.
Record t := mk {
  id : string;
  flagId : string;
  priority : Z;
  conditions : option (list FlagCondition.t);
  value : Js.value;
  rolloutPercentage : option Z
}.
End RuleRow.

(** The cache holds each payload with the expiry it was set with; expiry
    itself is the cache server's business. [flagRows] and [ruleRows] are the
    answers of the two queries (the second one ordered by the database).
    [faults] tells, for the external calls to come, which ones reject. *)
Record World := mkWorld {
  cache : gmap string (CachePayload * option Z);
  flagRows : list FlagRow.t;
  ruleRows : list RuleRow.t;
  faults : list bool;
  now : string
}.

Definition set_cache (c : gmap string (CachePayload * option Z)) (w : World)
  : World :=
  {| cache := c; flagRows := flagRows w; ruleRows := ruleRows w;
     faults := faults w; now := now w |}.

Definition set_faults (fs : list bool) (w : World) : World :=
  {| cache := cache w; flagRows := flagRows w; ruleRows := ruleRows w;
     faults := fs; now := now w |}.

(** Promises awaited one after the other: a state and error monad. *)
Definition IO (A : Type) : Type := World -> (Error + A) * World.

Definition ret {A} (a : A) : IO A := fun w => (inr a, w).

Definition throw {A} (e : Error) : IO A := fun w => (inl e, w).

Definition bind {A B} (m : IO A) (k : A -> IO B) : IO B :=
  fun w =>
    match m w with
    | (inr a, w') => k a w'
    | (inl e, w') => (inl e, w')
    end.

Notation "x <- m ;; k" := (bind m (fun x => k))
  (at level 100, m at next level, right associativity).

(** One external call: it rejects when the next fault says so. *)
Definition call {A} (e : Error) (op : World -> A * World) : IO A :=
  fun w =>
    match faults w with
    | true :: rest => (inl e, set_faults rest w)
    | false :: rest => let (a, w') := op (set_faults rest w) in (inr a, w')
    | [] => let (a, w') := op w in (inr a, w')
    end.

(** [new Date().toISOString()] *)
Definition clock : IO string := fun w => (inr (now w), w).

(** *** lib/redis.ts *)

Definition redis_get (key : string) : IO (option (CachePayload * option Z)) :=
  call RedisError (fun w => (cache w !! key, w)).

Definition redis_set (key : string) (payload : CachePayload) (ttl : option Z)
  : IO unit :=
  call RedisError (fun w => (tt, set_cache (<[key := (payload, ttl)]> (cache w)) w)).

Definition redis_del (keys : list string) : IO unit :=
  call RedisError
    (fun w => (tt, set_cache (List.fold_right delete (cache w) keys) w)).

(** Glob patterns of the cache server: [*], [?], a backslash escape and
    literal characters (character classes are not modelled). *)
Fixpoint glob (pattern : string) (s : string) : bool :=
  match pattern with
  | EmptyString => Js.is_empty s
  | String "*" p' =>
      (fix star (s : string) : bool :=
         glob p' s ||
         match s with
         | String _ s' => star s'
         | EmptyString => false
         end) s
  | String "?" p' =>
      match s with
      | String _ s' => glob p' s'
      | EmptyString => false
      end
  | String "\" (String c p') =>
      match s with
      | String d s' => Ascii.eqb c d && glob p' s'
      | EmptyString => false
      end
  | String c p' =>
      match s with
      | String d s' => Ascii.eqb c d && glob p' s'
      | EmptyString => false
      end
  end.

Fixpoint chunks_fuel {A} (fuel n : nat) (l : list A) : list (list A) :=
  match fuel, l with
  | _, [] => []
  | O, _ => [l]
  | S fuel', _ => take n l :: chunks_fuel fuel' n (drop n l)
  end.

Definition chunks {A} (n : nat) (l : list A) : list (list A) :=
  chunks_fuel (List.length l) n l.

(** One [SCAN cursor MATCH pattern COUNT n] step: the keys of the batch that
    match the pattern. *)
Definition redis_scan (pattern : string) (batch : list string)
  : IO (list string) :=
  call RedisError (fun w => (List.filter (glob pattern) batch, w)).

(** [getCache<T>(key)]: the payload is read back at the type it was written
    with. The cast of the source is unchecked; the model raises a TypeError
    where the source would go on with a payload of another shape. *)
Definition getCache {T} (as_T : CachePayload -> option T) (key : string)
  : IO (option T) :=
  raw <- redis_get key ;;
  match raw with
  | None => ret None
  | Some (payload, _) =>
      match as_T payload with
      | Some x => ret (Some x)
      | None => throw TypeError
      end
  end.

Definition setCache (key : string) (value : CachePayload) (ttlSeconds : Z)
  : IO unit :=
  if 0 <? ttlSeconds
  then redis_set key value (Some ttlSeconds)
  else redis_set key value None.

Definition deleteCache (key : string) : IO unit := redis_del [key].

(** The [do ... while (cursor !== '0')] loop: the iteration visits the keys
    of the cache in batches of [COUNT] keys, and runs once on an empty
    cache. *)
Fixpoint deleteCachePattern_loop (pattern : string)
    (batches : list (list string)) (deletedCount : Z) : IO Z :=
  match batches with
  | [] => ret deletedCount
  | batch :: rest =>
      keys <- redis_scan pattern batch ;;
      deletedCount' <-
        (if 0 <? Z.of_nat (List.length keys)
         then _ <- redis_del keys ;;
              ret (deletedCount + Z.of_nat (List.length keys))
         else ret deletedCount) ;;
      deleteCachePattern_loop pattern rest deletedCount'
  end.

Definition deleteCachePattern (pattern : string) : IO Z :=
  fun w =>
    let keys := List.map fst (map_to_list (cache w)) in
    let batches := match chunks 100 keys with [] => [[]] | bs => bs end in
    deleteCachePattern_loop pattern batches 0 w.

(** *** The two queries *)

Definition select_featureFlags : IO (list FlagRow.t) :=
  call DatabaseError (fun w => (flagRows w, w)).

Definition select_featureFlagRules : IO (list RuleRow.t) :=
  call DatabaseError (fun w => (ruleRows w, w)).

(** ** Flag loading *)

Definition as_flags (p : CachePayload) : option (list StoredFlag.t) :=
  match p with CachedFlags flags => Some flags | _ => None end.

Definition as_bulk (p : CachePayload)
  : option BulkFlagEvaluationResponse.t :=
  match p with CachedBulk response => Some response | _ => None end.

(** Group rules by flag ID: the [Map] filled by the loop over [ruleRows]. *)
Definition rulesByFlagId_step (rulesByFlagId : gmap string (list StoredRule.t))
    (rule : RuleRow.t) : gmap string (list StoredRule.t) :=
  let flagId := RuleRow.flagId rule in
  let m :=
    match rulesByFlagId !! flagId with
    | None => <[flagId := []]> rulesByFlagId
    | Some _ => rulesByFlagId
    end in
  alter
    (fun rules =>
       rules ++
       [ {| StoredRule.id := RuleRow.id rule;
            StoredRule.priority := RuleRow.priority rule;
            StoredRule.conditions :=
              match RuleRow.conditions rule with Some cs => cs | None => [] end;
            StoredRule.value := RuleRow.value rule;
            StoredRule.rolloutPercentage := RuleRow.rolloutPercentage rule |} ])
    flagId m.

Definition build_rulesByFlagId (ruleRows : list RuleRow.t)
  : gmap string (list StoredRule.t) :=
  List.fold_left rulesByFlagId_step ruleRows ∅.

Definition build_flags (flagRows : list FlagRow.t)
    (rulesByFlagId : gmap string (list StoredRule.t)) : list StoredFlag.t :=
  List.map
    (fun flag =>
       {| StoredFlag.id := FlagRow.id flag;
          StoredFlag.key := FlagRow.key flag;
          StoredFlag.name := FlagRow.name flag;
          StoredFlag.description := FlagRow.description flag;
          StoredFlag.type := FlagRow.type flag;
          StoredFlag.defaultValue := FlagRow.defaultValue flag;
          StoredFlag.enabled := FlagRow.enabled flag;
          StoredFlag.rules :=
            match rulesByFlagId !! FlagRow.id flag with
            | Some rules => rules
            | None => []
            end |})
    flagRows.

Definition loadAllFlags : IO (list StoredFlag.t) :=
  (* Check cache first *)
  cached <- getCache as_flags ALL_FLAGS_CACHE_KEY ;;
  match cached with
  | Some flags => ret flags
  | None =>
      (* Load from database *)
      flagRows <- select_featureFlags ;;
      ruleRows <- select_featureFlagRules ;;
      let rulesByFlagId := build_rulesByFlagId ruleRows in
      let flags := build_flags flagRows rulesByFlagId in
      (* Cache the result *)
      _ <- setCache ALL_FLAGS_CACHE_KEY (CachedFlags flags) ALL_FLAGS_CACHE_TTL ;;
      ret flags
  end.

(** ** Public functions *)

(** ** The object a bulk evaluation fills *)

(** A plain object while properties are assigned to it: its prototype and
    its own properties. Assigning to ['__proto__'] does not make a property
    as long as the write ends at the accessor of [Object.prototype]: the
    accessor puts an object or [null] in place as the prototype and ignores
    every other value. The write does not get there when the object has a
    property of its own under that name, when its prototype is [null], or
    when its prototype is data with such a property of its own. Every other
    key is written as an own property. *)
Module Obj.

Inductive prototype :=
| Standard
| Null
| Given (v : Js.value).

Record t := mk {
  proto : prototype;
  own : gmap string Js.value
}.

(** [{}] *)
Definition empty : t := {| proto := Standard; own := ∅ |}.

Definition reaches_accessor (p : prototype) : bool :=
  match p with
  | Standard => true
  | Null => false
  | Given (Js.VObject props) =>
      match Js.assoc "__proto__" props with Some _ => false | None => true end
  | Given _ => true
  end.

(** [o[key] = value] *)
Definition set (o : t) (key : string) (value : Js.value) : t :=
  if String.eqb key "__proto__"
     && match own o !! key with Some _ => false | None => true end
     && reaches_accessor (proto o)
  then
    match value with
    | Js.VObject _ | Js.VArray _ => {| proto := Given value; own := own o |}
    | Js.VNull => {| proto := Null; own := own o |}
    | _ => o
    end
  else {| proto := proto o; own := <[key := value]> (own o) |}.

End Obj.

Section Service.
Context `{Runtime}.

Definition evaluateFlag (flagKey : string) (context : FlagEvaluationContext)
  : IO FlagEvaluationResult.t :=
  allFlags <- loadAllFlags ;;
  match List.find (fun f => String.eqb (StoredFlag.key f) flagKey) allFlags with
  | None =>
      ret {| FlagEvaluationResult.key := flagKey;
             FlagEvaluationResult.value := Js.VNull;
             FlagEvaluationResult.source := src_default;
             FlagEvaluationResult.ruleId := None |}
  | Some flag => ret (evaluateSingleFlag flag context)
  end.

(** The loop of [evaluateAllFlags]: [details.push(result)] and
    [flags[result.key] = result.value]. *)
Fixpoint evaluateAllFlags_loop (context : FlagEvaluationContext)
    (allFlags : list StoredFlag.t)
    (details : list FlagEvaluationResult.t) (flags : Obj.t)
  : list FlagEvaluationResult.t * Obj.t :=
  match allFlags with
  | [] => (details, flags)
  | flag :: rest =>
      let result := evaluateSingleFlag flag context in
      evaluateAllFlags_loop context rest (details ++ [result])
        (Obj.set flags (FlagEvaluationResult.key result)
           (FlagEvaluationResult.value result))
  end.

Definition user_cache_key (userId : string) : string := "flags:user:" +:+ userId.

Definition evaluateAllFlags (context : FlagEvaluationContext)
  : IO BulkFlagEvaluationResponse.t :=
  let userId := context_userId context in
  let userCacheKey := user_cache_key userId in
  (* Check per-user cache *)
  cached <- getCache as_bulk userCacheKey ;;
  match cached with
  | Some response => ret response
  | None =>
      allFlags <- loadAllFlags ;;
      let '(details, flags) :=
        evaluateAllFlags_loop context allFlags [] Obj.empty in
      evaluatedAt <- clock ;;
      (* the response is a JSON document: of [flags] it has the own
         properties *)
      let response :=
        {| BulkFlagEvaluationResponse.flags := Obj.own flags;
           BulkFlagEvaluationResponse.details := details;
           BulkFlagEvaluationResponse.evaluatedAt := evaluatedAt |} in
      (* Cache per-user result *)
      _ <- setCache userCacheKey (CachedBulk response) USER_FLAGS_CACHE_TTL ;;
      ret response
  end.

Definition previewFlagEvaluation (flagKey : string)
    (context : FlagEvaluationContext)
  : IO (FlagEvaluationResult.t * option StoredFlag.t) :=
  allFlags <- loadAllFlags ;;
  match List.find (fun f => String.eqb (StoredFlag.key f) flagKey) allFlags with
  | None =>
      ret ({| FlagEvaluationResult.key := flagKey;
              FlagEvaluationResult.value := Js.VNull;
              FlagEvaluationResult.source := src_default;
              FlagEvaluationResult.ruleId := None |}, None)
  | Some flag => ret (evaluateSingleFlag flag context, Some flag)
  end.

End Service.

(** Invalidate all flag caches. *)
Definition invalidateFlagCaches : IO unit :=
  _ <- deleteCache ALL_FLAGS_CACHE_KEY ;;
  _ <- deleteCachePattern "flags:user:*" ;;
  ret tt.

(** Invalidate flag cache for a specific user. *)
Definition invalidateUserFlagCache (userId : string) : IO unit :=
  deleteCache (user_cache_key userId).

(** ** Vocabulary of the statements *)

Section Vocabulary.
Context `{Runtime}.

Definition disabled_result (flag : StoredFlag.t) : FlagEvaluationResult.t :=
  {| FlagEvaluationResult.key := StoredFlag.key flag;
     FlagEvaluationResult.value := StoredFlag.defaultValue flag;
     FlagEvaluationResult.source := src_disabled;
     FlagEvaluationResult.ruleId := None |}.

Definition default_result (flag : StoredFlag.t) : FlagEvaluationResult.t :=
  {| FlagEvaluationResult.key := StoredFlag.key flag;
     FlagEvaluationResult.value := StoredFlag.defaultValue flag;
     FlagEvaluationResult.source := src_default;
     FlagEvaluationResult.ruleId := None |}.

Definition rule_result (flag : StoredFlag.t) (rule : StoredRule.t)
  : FlagEvaluationResult.t :=
  {| FlagEvaluationResult.key := StoredFlag.key flag;
     FlagEvaluationResult.value := StoredRule.value rule;
     FlagEvaluationResult.source := src_rule;
     FlagEvaluationResult.ruleId := Some (StoredRule.id rule) |}.

(** The rollout gate of a rule: open when the rule has no percentage. *)
Definition rollout_gate (flag : StoredFlag.t) (userId : string)
    (rule : StoredRule.t) : bool :=
  match StoredRule.rolloutPercentage rule with
  | None => true
  | Some percentage => calculateRollout (StoredFlag.key flag) userId percentage
  end.

(** A rule survives when all its conditions match and its gate passes. *)
Definition survives (flag : StoredFlag.t) (context : FlagEvaluationContext)
    (rule : StoredRule.t) : bool :=
  matchesConditions context (StoredRule.conditions rule)
  && rollout_gate flag (context_userId context) rule.

End Vocabulary.

Definition with_enabled (e : option bool) (flag : StoredFlag.t) : StoredFlag.t :=
  {| StoredFlag.id := StoredFlag.id flag;
     StoredFlag.key := StoredFlag.key flag;
     StoredFlag.name := StoredFlag.name flag;
     StoredFlag.description := StoredFlag.description flag;
     StoredFlag.type := StoredFlag.type flag;
     StoredFlag.defaultValue := StoredFlag.defaultValue flag;
     StoredFlag.enabled := e;
     StoredFlag.rules := StoredFlag.rules flag |}.

Definition with_rules (rs : list StoredRule.t) (flag : StoredFlag.t)
  : StoredFlag.t :=
  {| StoredFlag.id := StoredFlag.id flag;
     StoredFlag.key := StoredFlag.key flag;
     StoredFlag.name := StoredFlag.name flag;
     StoredFlag.description := StoredFlag.description flag;
     StoredFlag.type := StoredFlag.type flag;
     StoredFlag.defaultValue := StoredFlag.defaultValue flag;
     StoredFlag.enabled := StoredFlag.enabled flag;
     StoredFlag.rules := rs |}.

(** The resolved value counts as absent when it is undefined or null. *)
Definition is_absent (v : Js.value) : bool :=
  match v with Js.VUndefined | Js.VNull => true | _ => false end.

Definition known_operators : list string :=
  ["eq"; "neq"; "gt"; "gte"; "lt"; "lte"; "in"; "not_in"; "contains"; "regex"].

Definition ordering_operators : list string := ["gt"; "gte"; "lt"; "lte"].

(** Component-wise numeric order of two parsed versions: major, then
    minor, then patch; [None] would be an unordered pair of numbers. *)
Definition semver_order (a b : SemverParts.t) : option comparison :=
  match SFcompare (SemverParts.major a) (SemverParts.major b) with
  | Some Eq =>
      match SFcompare (SemverParts.minor a) (SemverParts.minor b) with
      | Some Eq => SFcompare (SemverParts.patch a) (SemverParts.patch b)
      | c => c
      end
  | c => c
  end.


(** The same question asked of two numbers, false across a NaN. *)
Definition numeric_holds (op : string) (x y : Js.number) : bool :=
  if String.eqb op "gt" then Js.num_gt x y
  else if String.eqb op "gte" then Js.num_ge x y
  else if String.eqb op "lt" then Js.num_lt x y
  else if String.eqb op "lte" then Js.num_le x y
  else false.

(** The test an ordering operator puts on the result of [compareSemver]. *)
Definition semResult_test (op : string) (semResult : Z) : bool :=
  if String.eqb op "gt" then semResult >? 0
  else if String.eqb op "gte" then semResult >=? 0
  else if String.eqb op "lt" then semResult <? 0
  else if String.eqb op "lte" then semResult <=? 0
  else false.

(** Both sides are strings and both parse as a version. *)
Definition both_semver (contextValue conditionValue : Js.value) : bool :=
  match contextValue, conditionValue with
  | Js.VString a, Js.VString b =>
      is_some (parseSemver a) && is_some (parseSemver b)
  | _, _ => false
  end.




Fixpoint all_digits (s : string) : bool :=
  match s with
  | String c s' => Js.is_digit c && all_digits s'
  | EmptyString => true
  end.


Definition sign_of (c : comparison) : Z :=
  match c with Lt => -1 | Eq => 0 | Gt => 1 end.

(** The result for a key that no loaded flag has. *)
Definition unknown_result (flagKey : string) : FlagEvaluationResult.t :=
  {| FlagEvaluationResult.key := flagKey;
     FlagEvaluationResult.value := Js.VNull;
     FlagEvaluationResult.source := src_default;
     FlagEvaluationResult.ruleId := None |}.

(** The keys of the per-user entries: what ['flags:user:*'] matches. *)
Definition is_user_key (k : string) : bool := String.prefix "flags:user:" k.

Definition by_priority (a b : StoredRule.t) : Z :=
  StoredRule.priority a - StoredRule.priority b.



(** ** A runtime to run the model on *)

Module Sample.

Definition mask32 (z : Z) : Z := Z.land z 0xffffffff.

Definition rotl32 (x r : Z) : Z :=
  mask32 (Z.lor (Z.shiftl x r) (Z.shiftr x (32 - r))).

Definition mul32 (a b : Z) : Z := mask32 (a * b).

Definition mix_k (k : Z) : Z :=
  mul32 (rotl32 (mul32 k 0xcc9e2d51) 15) 0x1b873593.

Fixpoint body (h : Z) (bytes : list Z) : Z :=
  match bytes with
  | b0 :: b1 :: b2 :: b3 :: rest =>
      let k := b0 + Z.shiftl b1 8 + Z.shiftl b2 16 + Z.shiftl b3 24 in
      let h1 := rotl32 (Z.lxor h (mix_k k)) 13 in
      body (mask32 (h1 * 5 + 0xe6546b64)) rest
  | [b0; b1; b2] => Z.lxor h (mix_k (b0 + Z.shiftl b1 8 + Z.shiftl b2 16))
  | [b0; b1] => Z.lxor h (mix_k (b0 + Z.shiftl b1 8))
  | [b0] => Z.lxor h (mix_k b0)
  | [] => h
  end.

Definition fmix32 (h : Z) : Z :=
  let h1 := mul32 (Z.lxor h (Z.shiftr h 16)) 0x85ebca6b in
  let h2 := mul32 (Z.lxor h1 (Z.shiftr h1 13)) 0xc2b2ae35 in
  Z.lxor h2 (Z.shiftr h2 16).

(** A 32-bit hash of the Murmur3 family to stand for the import from
    lib/crypto: MurmurHash3 x86_32 with seed 0 over the code units of the
    string, as an unsigned 32-bit value. *)
Definition murmur3_x86_32 (s : string) : Z :=
  let bytes := List.map Js.code (String.list_ascii_of_string s) in
  fmix32 (Z.lxor (body 0 bytes) (Z.of_nat (List.length bytes))).

Definition alphanumeric (c : ascii) : bool :=
  let n := Js.code c in
  Js.is_digit c || ((97 <=? n) && (n <=? 122)) || ((65 <=? n) && (n <=? 90)).

Fixpoint all_alphanumeric (s : string) : bool :=
  match s with
  | String c s' => alphanumeric c && all_alphanumeric s'
  | EmptyString => true
  end.

(** A stand-in for [RegExp]: a pattern of letters and digits matches where
    it occurs; every other pattern is refused as a syntax error. *)
Definition literal_new (pattern : string) : option string :=
  if all_alphanumeric pattern then Some pattern else None.

Definition literal_test (regex s : string) : bool := Js.includes s regex.

Definition runtime : Runtime :=
  {| RegExp := string;
     RegExp_new := literal_new;
     RegExp_test := literal_test;
     murmurhash3 := murmur3_x86_32 |}.

(** Data to run the model on. *)

Definition tier_rule : StoredRule.t :=
  {| StoredRule.id := "rule-1";
     StoredRule.priority := 1;
     StoredRule.conditions :=
       [ {| FlagCondition.field := "tier";
            FlagCondition.operator := "in";
            FlagCondition.value :=
              Js.VArray [Js.VString "pro"; Js.VString "enterprise"] |} ];
     StoredRule.value := Js.VBool true;
     StoredRule.rolloutPercentage := Some 100 |}.

Definition flag_with (e : option bool) : StoredFlag.t :=
  {| StoredFlag.id := "flag-1";
     StoredFlag.key := "video_4k_export";
     StoredFlag.name := "4K export";
     StoredFlag.description := None;
     StoredFlag.type := Some "boolean";
     StoredFlag.defaultValue := Js.VBool false;
     StoredFlag.enabled := e;
     StoredFlag.rules := [tier_rule] |}.

Definition pro_context : FlagEvaluationContext := [("tier", Js.VString "pro")].

Definition tags_context : FlagEvaluationContext :=
  [("tags", Js.VArray [Js.VString "beta"])].

Definition condition (operator : string) (value : Js.value) : FlagCondition.t :=
  {| FlagCondition.field := "appVersion";
     FlagCondition.operator := operator;
     FlagCondition.value := value |}.

Definition flag_row : FlagRow.t :=
  {| FlagRow.id := "flag-1";
     FlagRow.key := "video_4k_export";
     FlagRow.name := "4K export";
     FlagRow.description := None;
     FlagRow.type := Some "boolean";
     FlagRow.defaultValue := Js.VBool false;
     FlagRow.enabled := Some true |}.

Definition rule_row : RuleRow.t :=
  {| RuleRow.id := "rule-1";
     RuleRow.flagId := "flag-1";
     RuleRow.priority := 1;
     RuleRow.conditions := Some (StoredRule.conditions tier_rule);
     RuleRow.value := Js.VBool true;
     RuleRow.rolloutPercentage := Some 100 |}.

(** An empty cache in front of a store with one flag and one rule. *)
Definition world : World :=
  {| cache := ∅;
     flagRows := [flag_row];
     ruleRows := [rule_row];
     faults := [];
     now := "2024-01-01T00:00:00.000Z" |}.

Definition loaded_flags : list StoredFlag.t := [flag_with (Some true)].

Definition world_loaded : World :=
  set_cache
    (<[ALL_FLAGS_CACHE_KEY := (CachedFlags loaded_flags, Some ALL_FLAGS_CACHE_TTL)]>
       (cache world))
    world.

End Sample.

(** ** Vocabulary of the further properties *)

Fixpoint has_dot (s : string) : bool :=
  match s with
  | String c s' => Ascii.eqb c "." || has_dot s'
  | EmptyString => false
  end.

Definition starts_with_digit (s : string) : bool :=
  match s with
  | String c _ => Js.is_digit c
  | EmptyString => false
  end.

(** [d1.d2.d3] followed by [rest]. *)
Definition version_text (d1 d2 d3 rest : string) : string :=
  d1 +:+ "." +:+ d2 +:+ "." +:+ d3 +:+ rest.

(** The stored rule a rule row becomes, and the stored flag a flag row
    becomes next to the rule rows that name it. *)
Definition stored_rule_of_row (rule : RuleRow.t) : StoredRule.t :=
  {| StoredRule.id := RuleRow.id rule;
     StoredRule.priority := RuleRow.priority rule;
     StoredRule.conditions :=
       match RuleRow.conditions rule with Some cs => cs | None => [] end;
     StoredRule.value := RuleRow.value rule;
     StoredRule.rolloutPercentage := RuleRow.rolloutPercentage rule |}.

Definition stored_flag_of_row (ruleRows : list RuleRow.t) (flag : FlagRow.t)
  : StoredFlag.t :=
  {| StoredFlag.id := FlagRow.id flag;
     StoredFlag.key := FlagRow.key flag;
     StoredFlag.name := FlagRow.name flag;
     StoredFlag.description := FlagRow.description flag;
     StoredFlag.type := FlagRow.type flag;
     StoredFlag.defaultValue := FlagRow.defaultValue flag;
     StoredFlag.enabled := FlagRow.enabled flag;
     StoredFlag.rules :=
       List.map stored_rule_of_row
         (List.filter
            (fun rule => String.eqb (RuleRow.flagId rule) (FlagRow.id flag))
            ruleRows) |}.

Definition assemble (flagRows : list FlagRow.t) (ruleRows : list RuleRow.t)
  : list StoredFlag.t :=
  List.map (stored_flag_of_row ruleRows) flagRows.

(** The rules a [Map] of the loader holds for a flag id, none when the id
    has no entry. *)
Definition rules_at (m : gmap string (list StoredRule.t)) (flagId : string)
  : list StoredRule.t :=
  match m !! flagId with Some rules => rules | None => [] end.

(** The entry a load leaves in the cache. *)
Definition snapshot_entry (flags : list StoredFlag.t) : CachePayload * option Z :=
  (CachedFlags flags, Some ALL_FLAGS_CACHE_TTL).

(** The entry a bulk evaluation leaves in the cache. *)
Definition bulk_entry (response : BulkFlagEvaluationResponse.t)
  : CachePayload * option Z :=
  (CachedBulk response, Some USER_FLAGS_CACHE_TTL).

(** The flattened key to value map of a list of results: the own properties
    of an object the results are assigned to in turn. *)
Definition flags_of_details (details : list FlagEvaluationResult.t)
  : gmap string Js.value :=
  Obj.own
    (List.fold_left
       (fun flags result =>
          Obj.set flags (FlagEvaluationResult.key result)
            (FlagEvaluationResult.value result))
       details Obj.empty).


(** * The rate limiter (src/middleware/rate-limit.ts) *)

(** [new AppError(code)] of middleware/error-handler.ts takes its status and
    message from [ERROR_CODE_MAP] of config/constants.ts. *)
Module AppError.
Record t := mk {
  code : string;
  statusCode : Z;
  message : string
}.
End AppError.

(** [new AppError('RATE_LIMITED')] *)
Definition RATE_LIMITED : AppError.t :=
  {| AppError.code := "RATE_LIMITED";
     AppError.statusCode := 429;
     AppError.message := "Too many requests. Please try again later." |}.

Module RateLimitOptions.
Record t := mk {
  max : Z;
  window : Z;
  keyPrefix : option string
}.
End RateLimitOptions.

(** What the middleware reads of the request: the two headers and
    [c.get('auth')?.userId]. *)
Module Request.
Record t := mk {
  x_forwarded_for : option string;
  x_real_ip : option string;
  auth_userId : option string
}.
End Request.

Module RateLimit.

(** The counters of the cache server: for each key its count and, when an
    expiry is set, the whole seconds it has left. Counts, limits and windows
    are integers within the safe range, where the numbers of the source are
    exact. [faults] tells, for the external calls to come, which ones
    reject. *)
Record Store := mkStore {
  counters : gmap string (Z * option N);
  faults : list bool
}.

Definition set_counters (c : gmap string (Z * option N)) (s : Store) : Store :=
  {| counters := c; faults := faults s |}.

Definition set_faults (fs : list bool) (s : Store) : Store :=
  {| counters := counters s; faults := fs |}.

(** One external call: it rejects when the next fault says so. *)
Definition call {A} (op : Store -> A * Store) : Store -> (Error + A) * Store :=
  fun s =>
    match faults s with
    | true :: rest => (inl RedisError, set_faults rest s)
    | false :: rest => let (a, s') := op (set_faults rest s) in (inr a, s')
    | [] => let (a, s') := op s in (inr a, s')
    end.

(** [pipeline.incr(key); pipeline.ttl(key); pipeline.exec()], one round trip:
    INCR makes a missing key 1 and leaves an expiry as it is, TTL then
    answers the seconds left, or -1 without an expiry. A round trip that
    fails rejects as a whole; when [exec] resolves both commands have
    succeeded and the result is not null, so the [!results] branch is not
    taken. *)
Definition pipeline_incr_ttl (key : string)
  : Store -> (Error + (Z * Z)) * Store :=
  call (fun s =>
    let '(count, ttl) :=
      match counters s !! key with
      | Some (n, ttl) => (n + 1, ttl)
      | None => (1, None)
      end in
    ((count, match ttl with Some t => Z.of_N t | None => -1 end),
     set_counters (<[key := (count, ttl)]> (counters s)) s)).

(** [r.expire(key, seconds)]: EXPIRE sets the time to live of an existing
    key, and deletes the key when the seconds are not positive. *)
Definition redis_expire (key : string) (seconds : Z)
  : Store -> (Error + unit) * Store :=
  call (fun s =>
    (tt,
     match counters s !! key with
     | Some (n, _) =>
         if 0 <? seconds
         then set_counters (<[key := (n, Some (Z.to_N seconds))]> (counters s)) s
         else set_counters (delete key (counters s)) s
     | None => s
     end)).

(** lib/redis.ts *)
Definition incrementWithExpiry (key : string) (ttlSeconds : Z)
  : Store -> (Error + Z) * Store :=
  fun s =>
    match pipeline_incr_ttl key s with
    | (inl e, s1) => (inl e, s1)
    | (inr (count, currentTtl), s1) =>
        (* If the key was just created (count === 1) or has no TTL set (-1),
           set the expiry *)
        if (count =? 1) || (currentTtl =? -1)
        then
          match redis_expire key ttlSeconds s1 with
          | (inl e, s2) => (inl e, s2)
          | (inr _, s2) => (inr count, s2)
          end
        else (inr count, s1)
    end.

Definition ip (request : Request.t) : string :=
  match Request.x_forwarded_for request with
  | Some v => v
  | None =>
      match Request.x_real_ip request with
      | Some v => v
      | None => "unknown"
      end
  end.

Definition identifier (request : Request.t) : string :=
  match Request.auth_userId request with
  | Some userId => userId
  | None => ip request
  end.

Definition key (options : RateLimitOptions.t) (request : Request.t) : string :=
  "ratelimit:" +:+
  match RateLimitOptions.keyPrefix options with
  | Some p => p
  | None => "default"
  end +:+ ":" +:+ identifier request.

(** The middleware either hands over to [next()] or throws. *)
Inductive Outcome := Next | Throw (e : AppError.t).

(** [String(n)] of an integer. *)
Definition String_of (n : Z) : string := Js.Number_toString (Js.of_Z n).

(** The middleware of [rateLimit(options)]; [headers] are the response
    headers, which [c.header] sets. An error that is no [AppError] is logged
    and the request goes on. *)
Definition rateLimit (options : RateLimitOptions.t) (request : Request.t)
    (headers : gmap string string)
  : Store -> Outcome * gmap string string * Store :=
  fun s =>
    match incrementWithExpiry (key options request)
            (RateLimitOptions.window options) s with
    | (inr count, s') =>
        let headers :=
          <["X-RateLimit-Limit" := String_of (RateLimitOptions.max options)]>
            headers in
        let headers :=
          <["X-RateLimit-Remaining" :=
              String_of (Z.max 0 (RateLimitOptions.max options - count))]>
            headers in
        if count >? RateLimitOptions.max options
        then
          (Throw RATE_LIMITED,
           <["Retry-After" := String_of (RateLimitOptions.window options)]>
             headers,
           s')
        else (Next, headers, s')
    | (inl _, s') => (Next, headers, s')
    end.

(** Vocabulary: the count a key stands at, and a client sending the same
    request [n] times in a row. *)
Definition count_of (k : string) (s : Store) : Z :=
  match counters s !! k with
  | Some (n, _) => n
  | None => 0
  end.

(** The seconds a key has left after a call that resolved: an expiry in
    place stays, unless the count has just become 1. *)
Definition expiry_after (k : string) (ttlSeconds : Z) (s : Store) : N :=
  match counters s !! k with
  | Some (n, Some t) => if n + 1 =? 1 then Z.to_N ttlSeconds else t
  | _ => Z.to_N ttlSeconds
  end.

Fixpoint requests (n : nat) (options : RateLimitOptions.t)
    (request : Request.t) (s : Store) : Store :=
  match n with
  | O => s
  | S n' =>
      requests n' options request
        (snd (rateLimit options request ∅ s))
  end.

End RateLimit.

(** * The static flag table (src/services/flags.service.ts) *)

Module FlagsService.

Module EvaluateInput.
Record t := mk {
  userId : string;
  subscriptionTier : option string;
  platform : option string;
  appVersion : option string;
  locale : option string;
  deviceModel : option string;
  country : option string;
  customAttributes : option (list (string * Js.value))
}.
End EvaluateInput.

Module FlagValue.
Record t := mk {
  key : string;
  enabled : bool
}.
End FlagValue.

Module EvaluateResult.
Record t := mk {
  flags : list FlagValue.t;
  evaluatedAt : string
}.
End EvaluateResult.

Module FlagDefinition.
Record t := mk {
  key : string;
  defaultEnabled : bool;
  rolloutPercentage : Z;
  allowedTiers : option (list string);
  allowedPlatforms : option (list string)
}.
End FlagDefinition.

Definition FLAG_DEFINITIONS : list FlagDefinition.t :=
  [ {| FlagDefinition.key := "ai_auto_enhance_v2";
       FlagDefinition.defaultEnabled := false;
       FlagDefinition.rolloutPercentage := 50;
       FlagDefinition.allowedTiers := Some ["premium"; "pro"; "enterprise"];
       FlagDefinition.allowedPlatforms := None |};
    {| FlagDefinition.key := "new_editor_ui";
       FlagDefinition.defaultEnabled := false;
       FlagDefinition.rolloutPercentage := 30;
       FlagDefinition.allowedTiers := None;
       FlagDefinition.allowedPlatforms := None |};
    {| FlagDefinition.key := "video_4k_export";
       FlagDefinition.defaultEnabled := true;
       FlagDefinition.rolloutPercentage := 100;
       FlagDefinition.allowedTiers := Some ["pro"; "enterprise"];
       FlagDefinition.allowedPlatforms := None |};
    {| FlagDefinition.key := "batch_processing";
       FlagDefinition.defaultEnabled := false;
       FlagDefinition.rolloutPercentage := 100;
       FlagDefinition.allowedTiers := Some ["pro"; "enterprise"];
       FlagDefinition.allowedPlatforms := None |};
    {| FlagDefinition.key := "cloud_backup_v2";
       FlagDefinition.defaultEnabled := false;
       FlagDefinition.rolloutPercentage := 20;
       FlagDefinition.allowedTiers := Some ["premium"; "pro"; "enterprise"];
       FlagDefinition.allowedPlatforms := None |} ].

(** [allowed && given && !allowed.includes(given)]: an array is truthy, a
    string is truthy unless empty. *)
Definition excluded (allowed : option (list string)) (given : option string)
  : bool :=
  match allowed, given with
  | Some l, Some s => negb (Js.is_empty s) && negb (existsb (String.eqb s) l)
  | _, _ => false
  end.

Section Evaluation.
Context `{Runtime}.

Definition evaluateFlag (flag : FlagDefinition.t) (input : EvaluateInput.t)
  : FlagValue.t :=
  let disabled :=
    {| FlagValue.key := FlagDefinition.key flag; FlagValue.enabled := false |} in
  (* Check tier restrictions *)
  if excluded (FlagDefinition.allowedTiers flag)
       (EvaluateInput.subscriptionTier input)
  then disabled
  (* Check platform restrictions *)
  else if excluded (FlagDefinition.allowedPlatforms flag)
            (EvaluateInput.platform input)
  then disabled
  (* Percentage-based rollout using consistent hashing *)
  else if (FlagDefinition.rolloutPercentage flag <? 100)
          && (Z.rem (murmurhash3 (FlagDefinition.key flag +:+ ":" +:+
                                  EvaluateInput.userId input)) 100
              >=? FlagDefinition.rolloutPercentage flag)
  then disabled
  else
    {| FlagValue.key := FlagDefinition.key flag;
       FlagValue.enabled :=
         FlagDefinition.defaultEnabled flag
         || (FlagDefinition.rolloutPercentage flag >? 0) |}.

(** [{ ...input, userId }] *)
Definition with_userId (userId : string) (input : EvaluateInput.t)
  : EvaluateInput.t :=
  {| EvaluateInput.userId := userId;
     EvaluateInput.subscriptionTier := EvaluateInput.subscriptionTier input;
     EvaluateInput.platform := EvaluateInput.platform input;
     EvaluateInput.appVersion := EvaluateInput.appVersion input;
     EvaluateInput.locale := EvaluateInput.locale input;
     EvaluateInput.deviceModel := EvaluateInput.deviceModel input;
     EvaluateInput.country := EvaluateInput.country input;
     EvaluateInput.customAttributes := EvaluateInput.customAttributes input |}.

Definition evaluateAllFlags (userId : string) (input : EvaluateInput.t)
  : IO EvaluateResult.t :=
  let flags :=
    List.map (fun flag => evaluateFlag flag (with_userId userId input))
      FLAG_DEFINITIONS in
  evaluatedAt <- clock ;;
  ret {| EvaluateResult.flags := flags;
         EvaluateResult.evaluatedAt := evaluatedAt |}.

End Evaluation.

(** Vocabulary: a restriction lets a value through. *)
Definition allows (allowed : option (list string)) (given : option string)
  : bool :=
  match allowed, given with
  | Some l, Some s => Js.is_empty s || existsb (String.eqb s) l
  | _, _ => true
  end.

End FlagsService.

(** More data to run the model on. *)
Module Scenario.

Definition tier_is (tier : string) : list FlagCondition.t :=
  [ {| FlagCondition.field := "tier";
       FlagCondition.operator := "eq";
       FlagCondition.value := Js.VString tier |} ].

Definition beta_rule : StoredRule.t :=
  {| StoredRule.id := "rule-2";
     StoredRule.priority := 5;
     StoredRule.conditions := tier_is "pro";
     StoredRule.value := Js.VString "beta";
     StoredRule.rolloutPercentage := None |}.

Definition free_rule : StoredRule.t :=
  {| StoredRule.id := "rule-3";
     StoredRule.priority := 0;
     StoredRule.conditions := tier_is "free";
     StoredRule.value := Js.VBool false;
     StoredRule.rolloutPercentage := None |}.

(** A flag with three rules, stored out of priority order. *)
Definition flag : StoredFlag.t :=
  with_rules [beta_rule; Sample.tier_rule; free_rule]
    (Sample.flag_with (Some true)).

Definition nested_context : FlagEvaluationContext :=
  [("user", Js.VObject [("plan", Js.VString "pro")])].

(** The bulk response for [Sample.pro_context] over [Sample.world], and the
    world once it is cached. *)
Definition details : list FlagEvaluationResult.t :=
  [rule_result (Sample.flag_with (Some true)) Sample.tier_rule].

Definition response : BulkFlagEvaluationResponse.t :=
  {| BulkFlagEvaluationResponse.flags := flags_of_details details;
     BulkFlagEvaluationResponse.details := details;
     BulkFlagEvaluationResponse.evaluatedAt := now Sample.world |}.

Definition world_bulk : World :=
  set_cache
    (<[user_cache_key "anonymous" := bulk_entry response]>
       (cache Sample.world_loaded))
    Sample.world_loaded.

(** Later on: the same cache in front of a store that has lost its rows. *)
Definition world_later : World :=
  {| cache := cache world_bulk;
     flagRows := [];
     ruleRows := [];
     faults := [];
     now := "2024-01-01T00:00:30.000Z" |}.

Definition options : RateLimitOptions.t :=
  {| RateLimitOptions.max := 5;
     RateLimitOptions.window := 60;
     RateLimitOptions.keyPrefix := Some "auth:login" |}.

Definition request : Request.t :=
  {| Request.x_forwarded_for := Some "203.0.113.7";
     Request.x_real_ip := None;
     Request.auth_userId := None |}.

Definition other_request : Request.t :=
  {| Request.x_forwarded_for := Some "198.51.100.2";
     Request.x_real_ip := None;
     Request.auth_userId := None |}.

Definition empty_store : RateLimit.Store :=
  {| RateLimit.counters := ∅; RateLimit.faults := [] |}.

(** A store where the client has used up its five requests. *)
Definition full_store : RateLimit.Store :=
  {| RateLimit.counters :=
       {[ RateLimit.key options request := (5, Some 42%N) ]};
     RateLimit.faults := [] |}.

Definition input : FlagsService.EvaluateInput.t :=
  {| FlagsService.EvaluateInput.userId := "user-2";
     FlagsService.EvaluateInput.subscriptionTier := Some "pro";
     FlagsService.EvaluateInput.platform := Some "ios";
     FlagsService.EvaluateInput.appVersion := Some "1.10.0";
     FlagsService.EvaluateInput.locale := Some "en";
     FlagsService.EvaluateInput.deviceModel := None;
     FlagsService.EvaluateInput.country := None;
     FlagsService.EvaluateInput.customAttributes := None |}.

Definition ai_flag : FlagsService.FlagDefinition.t :=
  {| FlagsService.FlagDefinition.key := "ai_auto_enhance_v2";
     FlagsService.FlagDefinition.defaultEnabled := false;
     FlagsService.FlagDefinition.rolloutPercentage := 50;
     FlagsService.FlagDefinition.allowedTiers :=
       Some ["premium"; "pro"; "enterprise"];
     FlagsService.FlagDefinition.allowedPlatforms := None |}.

End Scenario.

(** The prototypes of a V8 host (Node.js), with the members of
    ECMAScript 2023. *)
Module V8.

(** [String(f)] of a built-in function. *)
Definition native (name : string) : string :=
  "function " +:+ name +:+ "() { [native code] }".

Definition methods (names : list string) : list (string * string) :=
  List.map (fun name => (name, native name)) names.

#[export] Instance prototypes : Prototypes :=
  {| Object_prototype :=
       ("constructor", native "Object")
       :: methods
            ["__defineGetter__"; "__defineSetter__"; "hasOwnProperty";
             "__lookupGetter__"; "__lookupSetter__"; "isPrototypeOf";
             "propertyIsEnumerable"; "toString"; "valueOf";
             "toLocaleString"];
     Array_prototype :=
       ("constructor", native "Array")
       :: methods
            ["at"; "concat"; "copyWithin"; "fill"; "find"; "findIndex";
             "findLast"; "findLastIndex"; "lastIndexOf"; "pop"; "push";
             "reverse"; "shift"; "unshift"; "slice"; "sort"; "splice";
             "includes"; "indexOf"; "join"; "keys"; "entries"; "values";
             "forEach"; "filter"; "flat"; "flatMap"; "map"; "every"; "some";
             "reduce"; "reduceRight"; "toLocaleString"; "toString";
             "toReversed"; "toSorted"; "toSpliced"; "with"] |}.

(** A context value whose coercion throws: [{ toString: null }]. *)
Definition no_string : Js.value := Js.VObject [("toString", Js.VNull)].

End V8.

(** * Properties *)

(** ** The stable sort *)

Section SortByKey.
Context {A : Type} (key : A -> Z).

Local Abbreviation cmp := (fun a b : A => key a - key b).

Lemma sort_insert_Permutation x l :
  Permutation (Js.sort_insert cmp x l) (x :: l).
Proof.
  induction l as [|y l IH]; simpl; [reflexivity|].
  destruct (key x - key y <=? 0); [reflexivity|].
  rewrite IH. apply perm_swap.
Qed.

Lemma sort_Permutation l : Permutation (Js.sort cmp l) l.
Proof.
  induction l as [|x l IH]; simpl; [reflexivity|].
  rewrite sort_insert_Permutation. now constructor.
Qed.

Lemma sort_insert_sorted x l :
  StronglySorted (fun a b => key a <= key b) l ->
  StronglySorted (fun a b => key a <= key b) (Js.sort_insert cmp x l).
Proof.
  induction 1 as [|y l Hl IH Hy]; simpl.
  - repeat constructor.
  - destruct (Z.leb_spec (key x - key y) 0) as [Hle|Hgt].
    + constructor; [now constructor|].
      constructor; [lia|].
      eapply List.Forall_impl; [|exact Hy]. simpl. intros; lia.
    + constructor; [exact IH|].
      rewrite sort_insert_Permutation. constructor; [lia|exact Hy].
Qed.

Lemma sort_sorted l :
  StronglySorted (fun a b => key a <= key b) (Js.sort cmp l).
Proof.
  induction l as [|x l IH]; simpl; [constructor|].
  now apply sort_insert_sorted.
Qed.



End SortByKey.

(** ** Single flag evaluation *)

Section EvaluationProperties.
Context `{Runtime}.

Lemma evaluateSingleFlag_loop_find flag context rules :
  evaluateSingleFlag_loop flag context rules
  = match List.find (survives flag context) rules with
    | Some rule => rule_result flag rule
    | None => default_result flag
    end.
Proof.
  induction rules as [|rule rest IH]; [reflexivity|].
  cbn [evaluateSingleFlag_loop List.find].
  unfold survives at 1, rollout_gate.
  destruct (matchesConditions context (StoredRule.conditions rule));
    cbn [negb andb]; [|exact IH].
  destruct (StoredRule.rolloutPercentage rule) as [percentage|];
    [|reflexivity].
  destruct (calculateRollout _ _ percentage); cbn [negb];
    [reflexivity|exact IH].
Qed.


(** C10. A flag whose enabled field is null evaluates exactly like the same
    flag with enabled false: the default value with source disabled,
    whatever the rules are. *)
Theorem null_enabled_is_disabled flag context :
  StoredFlag.enabled flag = None ->
  evaluateSingleFlag flag context = disabled_result flag
  /\ evaluateSingleFlag flag context
     = evaluateSingleFlag (with_enabled (Some false) flag) context
  /\ forall rules,
       evaluateSingleFlag (with_rules rules flag) context
       = disabled_result flag.
Proof.
  intros Hnull. unfold evaluateSingleFlag. cbn. rewrite Hnull. cbn.
  repeat split; reflexivity.
Qed.

(** ** Rollout *)

(** C2. The rollout gate is open for every percentage of at least 100 and
    closed for every percentage of at most 0, whatever the key and the user.
    Strictly in between it is open exactly when the remainder modulo 100 of
    the hash of '<flagKey>:<userId>' is below the percentage; for a hash that
    is not negative this remainder is a bucket between 0 and 99. *)
Theorem calculateRollout_spec flagKey userId percentage :
  let hash := murmurhash3 (flagKey +:+ ":" +:+ userId) in
  (100 <= percentage -> calculateRollout flagKey userId percentage = true)
  /\ (percentage <= 0 -> calculateRollout flagKey userId percentage = false)
  /\ (0 < percentage < 100 ->
      calculateRollout flagKey userId percentage
      = (Z.rem hash 100 <? percentage))
  /\ (0 < percentage < 100 ->
      0 <= hash ->
      0 <= hash mod 100 <= 99
      /\ (calculateRollout flagKey userId percentage = true
          <-> hash mod 100 < percentage)).
Proof.
  intros hash. unfold calculateRollout. fold hash.
  split; [|split; [|split]].
  - intros Hp. destruct (Z.geb_spec percentage 100); [reflexivity|lia].
  - intros Hp. destruct (Z.geb_spec percentage 100); [lia|].
    destruct (Z.leb_spec percentage 0); [reflexivity|lia].
  - intros Hp.
    destruct (Z.geb_spec percentage 100); [lia|].
    destruct (Z.leb_spec percentage 0); [lia|reflexivity].
  - intros Hp Hhash.
    destruct (Z.geb_spec percentage 100); [lia|].
    destruct (Z.leb_spec percentage 0); [lia|].
    rewrite Z.rem_mod_nonneg by lia.
    split; [pose proof (Z.mod_pos_bound hash 100); lia|].
    apply Z.ltb_lt.
Qed.

End EvaluationProperties.

(** ** Condition matching *)

Lemma eqb_known_operator op :
  ~ In op known_operators ->
  String.eqb op "eq" = false /\ String.eqb op "neq" = false
  /\ String.eqb op "gt" = false /\ String.eqb op "gte" = false
  /\ String.eqb op "lt" = false /\ String.eqb op "lte" = false
  /\ String.eqb op "in" = false /\ String.eqb op "not_in" = false
  /\ String.eqb op "contains" = false /\ String.eqb op "regex" = false.
Proof.
  intros Hnot. repeat split; apply String.eqb_neq; intros ->;
    apply Hnot; cbn; tauto.
Qed.

(** ** Numbers that come out of rounding are never NaN *)

Lemma iter_pos_invariant {A} (P : A -> Prop) (f : A -> A) :
  (forall x, P x -> P (f x)) ->
  forall n x, P x -> P (SpecFloat.iter_pos f n x).
Proof.
  intros Hf. induction n as [n IH|n IH|]; intros x Hx; cbn; auto.
Qed.

Lemma shr_1_nonneg mrs : 0 <= shr_m mrs -> 0 <= shr_m (shr_1 mrs).
Proof.
  destruct mrs as [m r s]. cbn. destruct m as [|p|p]; cbn.
  - lia.
  - destruct p; cbn; lia.
  - lia.
Qed.

Lemma shr_nonneg mrs e n : 0 <= shr_m mrs -> 0 <= shr_m (fst (shr mrs e n)).
Proof.
  intros Hm. unfold shr. destruct n; cbn; try exact Hm.
  apply (iter_pos_invariant (fun r => 0 <= shr_m r)); [|exact Hm].
  apply shr_1_nonneg.
Qed.

Lemma shr_fexp_nonneg m e l :
  0 <= m -> 0 <= shr_m (fst (shr_fexp Js.prec Js.emax m e l)).
Proof.
  intros Hm. unfold shr_fexp. apply shr_nonneg.
  destruct l as [|[]]; exact Hm.
Qed.

Lemma round_nearest_even_nonneg m l : 0 <= m -> 0 <= round_nearest_even m l.
Proof.
  intros Hm. destruct l as [|[]]; cbn; try destruct (Z.even m); lia.
Qed.

Lemma binary_round_aux_not_nan sx mx ex lx :
  0 <= mx -> binary_round_aux Js.prec Js.emax sx mx ex lx <> S754_nan.
Proof.
  intros Hm. unfold binary_round_aux.
  pose proof (shr_fexp_nonneg mx ex lx Hm) as H1.
  destruct (shr_fexp Js.prec Js.emax mx ex lx) as [mrs' e'].
  cbn [fst] in H1.
  pose proof (shr_fexp_nonneg _ e' loc_Exact
                (round_nearest_even_nonneg _ (loc_of_shr_record mrs') H1)) as H2.
  destruct (shr_fexp Js.prec Js.emax _ e' loc_Exact) as [mrs'' e''].
  cbn [fst] in H2.
  destruct (shr_m mrs'') as [|p|p]; [discriminate| |lia].
  destruct (e'' <=? Js.emax - Js.prec); discriminate.
Qed.

Lemma of_Z_not_nan z : Js.of_Z z <> S754_nan.
Proof.
  unfold Js.of_Z, binary_normalize. destruct z as [|p|p]; [discriminate|..];
    unfold binary_round; destruct (shl_align _ _ _);
    apply binary_round_aux_not_nan; lia.
Qed.

Lemma SFcompare_ordered x y :
  x <> S754_nan -> y <> S754_nan -> exists c, SFcompare x y = Some c.
Proof. destruct x, y; cbn; intros; eauto; congruence. Qed.

Lemma parseInt_digits_ordered d1 d2 :
  exists c, SFcompare (Js.parseInt_digits d1) (Js.parseInt_digits d2) = Some c.
Proof. apply SFcompare_ordered; apply of_Z_not_nan. Qed.

(** ** Integers below [2^53] are held exactly *)












(** ** Semver *)

Lemma num_tests_of_compare x y c :
  SFcompare x y = Some c ->
  Js.num_neq x y = match c with Eq => false | _ => true end
  /\ Js.num_lt x y = match c with Lt => true | _ => false end.
Proof.
  intros Hc. unfold Js.num_neq, Js.num_lt, SFeqb, SFltb. rewrite Hc.
  destruct c; split; reflexivity.
Qed.

Lemma compareSemver_parsed a b aParts bParts :
  parseSemver a = Some aParts -> parseSemver b = Some bParts ->
  exists c, semver_order aParts bParts = Some c
            /\ compareSemver a b = sign_of c.
Proof.
  intros Ha Hb. unfold compareSemver. rewrite Ha, Hb.
  unfold parseSemver in Ha, Hb.
  destruct (semver_match a) as [[[a1 a2] a3]|]; [|discriminate].
  destruct (semver_match b) as [[[b1 b2] b3]|]; [|discriminate].
  injection Ha as <-. injection Hb as <-.
  unfold semver_order. cbn [SemverParts.major SemverParts.minor SemverParts.patch].
  destruct (parseInt_digits_ordered a1 b1) as [c1 H1].
  destruct (parseInt_digits_ordered a2 b2) as [c2 H2].
  destruct (parseInt_digits_ordered a3 b3) as [c3 H3].
  destruct (num_tests_of_compare _ _ _ H1) as [-> ->].
  destruct (num_tests_of_compare _ _ _ H2) as [-> ->].
  destruct (num_tests_of_compare _ _ _ H3) as [-> ->].
  rewrite H1, H2, H3.
  destruct c1; [destruct c2; [destruct c3|..]|..]; eexists; split; reflexivity.
Qed.



Lemma compareSemver_unparsed a b :
  parseSemver a = None \/ parseSemver b = None ->
  compareSemver a b
  = if Js.str_lt a b then -1 else if Js.str_gt a b then 1 else 0.
Proof.
  intros [Hn|Hn]; unfold compareSemver; rewrite Hn;
    [|destruct (parseSemver a)]; reflexivity.
Qed.


Section OrderingProperties.
Context `{Runtime}.

Lemma matchesSingleCondition_ordering contextValue condition :
  In (FlagCondition.operator condition) ordering_operators ->
  is_absent contextValue = false ->
  matchesSingleCondition contextValue condition
  = if both_semver contextValue (FlagCondition.value condition)
    then semResult_test (FlagCondition.operator condition)
           (compareSemver (Js.ToString contextValue)
                          (Js.ToString (FlagCondition.value condition)))
    else numeric_holds (FlagCondition.operator condition)
           (Js.ToNumber contextValue)
           (Js.ToNumber (FlagCondition.value condition)).
Proof.
  destruct condition as [field op cv]. cbn [FlagCondition.operator FlagCondition.value].
  intros Hop Hpresent.
  assert (Hcases : op = "gt" \/ op = "gte" \/ op = "lt" \/ op = "lte")
    by (cbn in Hop; intuition auto).
  clear Hop.
  destruct contextValue; try discriminate Hpresent;
    destruct Hcases as [-> | [-> | [-> | ->]]];
    destruct cv; try reflexivity;
    cbn; destruct (is_some (parseSemver _) && is_some (parseSemver _));
    reflexivity.
Qed.


(** C5, amended. The comparator has a result, -1, 0 or 1, for every pair of
    strings. When either string does not parse as a major.minor.patch
    triplet the result is the order of the two raw strings, one of the same
    three numbers; that a string is not a semver is told by [parseSemver]
    alone, and the ordering operators ask [parseSemver] about both sides and
    leave the comparator's result aside when either answer is null. *)
Theorem compareSemver_total_with_string_fallback a b :
  (compareSemver a b = -1 \/ compareSemver a b = 0 \/ compareSemver a b = 1)
  /\ (parseSemver a = None \/ parseSemver b = None ->
      compareSemver a b
      = if Js.str_lt a b then -1 else if Js.str_gt a b then 1 else 0)
  /\ (parseSemver a = None \/ parseSemver b = None ->
      forall field op,
        In op ordering_operators ->
        matchesSingleCondition (Js.VString a)
          {| FlagCondition.field := field;
             FlagCondition.operator := op;
             FlagCondition.value := Js.VString b |}
        = numeric_holds op (Js.StringToNumber a) (Js.StringToNumber b)).
Proof.
  split; [|split].
  - destruct (parseSemver a) as [aParts|] eqn:Ha;
      [destruct (parseSemver b) as [bParts|] eqn:Hb|].
    + destruct (compareSemver_parsed a b aParts bParts Ha Hb) as (c & _ & Hsign).
      rewrite Hsign.
      destruct c; cbn; auto.
    + rewrite compareSemver_unparsed by auto.
      destruct (Js.str_lt a b), (Js.str_gt a b); auto.
    + rewrite compareSemver_unparsed by auto.
      destruct (Js.str_lt a b), (Js.str_gt a b); auto.
  - apply compareSemver_unparsed.
  - intros Hnone field op Hop.
    rewrite matchesSingleCondition_ordering by (exact Hop || reflexivity).
    cbn [both_semver FlagCondition.value FlagCondition.operator].
    destruct Hnone as [-> | ->]; [|destruct (parseSemver a)]; reflexivity.
Qed.

End OrderingProperties.

(** ** The cache *)

Lemma cache_set_faults fs w : cache (set_faults fs w) = cache w.
Proof. reflexivity. Qed.

(** A call that resolves ran its operation on a world with the same cache
    and the same rows. *)
Lemma call_resolved {A} e (op : World -> A * World) w a w' :
  call e op w = (inr a, w') ->
  exists w0, cache w0 = cache w /\ flagRows w0 = flagRows w
             /\ ruleRows w0 = ruleRows w /\ op w0 = (a, w').
Proof.
  unfold call. destruct (faults w) as [|[] rest].
  - destruct (op w) as [a0 w0] eqn:Hop. intros [= <- <-]. now exists w.
  - discriminate.
  - destruct (op (set_faults rest w)) as [a0 w0] eqn:Hop. intros [= <- <-].
    now exists (set_faults rest w).
Qed.

(** A call that rejects leaves the cache as it was. *)
Lemma call_rejected {A} e (op : World -> A * World) w e' w' :
  call e op w = (inl e', w') -> e' = e /\ cache w' = cache w.
Proof.
  unfold call. destruct (faults w) as [|[] rest].
  - destruct (op w). discriminate.
  - intros [= <- <-]. now split.
  - destruct (op (set_faults rest w)). discriminate.
Qed.

Lemma call_no_faults {A} e (op : World -> A * World) w :
  faults w = [] -> call e op w = (inr (fst (op w)), snd (op w)).
Proof. unfold call. intros ->. now destruct (op w). Qed.

Lemma lookup_fold_delete {V} (m : gmap string V) keys k :
  List.fold_right delete m keys !! k
  = if decide (k ∈ keys) then None else m !! k.
Proof.
  induction keys as [|k0 keys IH]; cbn [List.fold_right].
  - case_decide as Hin; [inversion Hin|reflexivity].
  - rewrite lookup_delete, IH.
    destruct (decide (k0 = k)) as [->|Hne].
    + destruct (decide (k ∈ k :: keys)) as [_|Hnin]; [reflexivity|].
      exfalso. apply Hnin. apply elem_of_cons. now left.
    + destruct (decide (k ∈ keys)) as [Hin|Hnin];
        destruct (decide (k ∈ k0 :: keys)) as [Hin'|Hnin']; try reflexivity.
      * exfalso. apply Hnin'. apply elem_of_cons. now right.
      * exfalso. apply elem_of_cons in Hin' as [->|Hin']; contradiction.
Qed.

Lemma chunks_fuel_concat {A} fuel n (l : list A) :
  concat (chunks_fuel fuel n l) = l.
Proof.
  revert l. induction fuel as [|fuel IH]; intros [|x l]; try reflexivity.
  - cbn. now rewrite app_nil_r.
  - cbn [chunks_fuel concat]. rewrite IH. apply take_drop.
Qed.

Lemma scan_batches_concat {A} (l : list A) :
  concat (match chunks 100 l with [] => [[]] | bs => bs end) = l.
Proof.
  pose proof (chunks_fuel_concat (List.length l) 100 l) as Hc.
  unfold chunks. destruct (chunks_fuel _ _ _); [|exact Hc].
  cbn in *. exact Hc.
Qed.

Lemma deleteCachePattern_loop_resolved pattern batches n w r w' :
  deleteCachePattern_loop pattern batches n w = (inr r, w') ->
  forall k, cache w' !! k
            = if decide (k ∈ List.filter (glob pattern) (concat batches))
              then None else cache w !! k.
Proof.
  revert n w. induction batches as [|batch rest IH]; intros n w Hrun k.
  - cbn in Hrun. injection Hrun as _ <-. cbn.
    case_decide as Hin; [inversion Hin|reflexivity].
  - cbn [deleteCachePattern_loop] in Hrun. unfold bind at 1 in Hrun.
    destruct (redis_scan pattern batch w) as [[e|keys] w1] eqn:Hscan;
      [discriminate|].
    apply call_resolved in Hscan as (w0 & Hc0 & _ & _ & Hop).
    injection Hop as <- <-.
    unfold bind at 1 in Hrun.
    destruct (0 <? Z.of_nat (List.length (List.filter (glob pattern) batch)))
      eqn:Hlen.
    + unfold bind at 1 in Hrun.
      destruct (redis_del (List.filter (glob pattern) batch) w0)
        as [[e|[]] w2] eqn:Hdel; [discriminate|].
      apply call_resolved in Hdel as (w3 & Hc3 & _ & _ & Hop).
      injection Hop as <-. cbn [ret] in Hrun.
      rewrite (IH _ _ Hrun k). cbn [cache set_cache concat].
      rewrite List.filter_app, lookup_fold_delete, Hc3, Hc0.
      destruct (decide (k ∈ List.filter (glob pattern) batch)) as [Hin|Hnin];
        destruct (decide (k ∈ List.filter (glob pattern) (concat rest)))
          as [Hin'|Hnin'];
        destruct (decide (k ∈ List.filter (glob pattern) batch
                              ++ List.filter (glob pattern) (concat rest)))
          as [Hin''|Hnin'']; try reflexivity; exfalso.
      * apply Hnin''. apply elem_of_app. now right.
      * apply Hnin''. apply elem_of_app. now left.
      * apply Hnin''. apply elem_of_app. now right.
      * apply elem_of_app in Hin'' as [?|?]; contradiction.
    + cbn [ret] in Hrun. rewrite (IH _ _ Hrun k). cbn [concat].
      rewrite List.filter_app, Hc0.
      assert (List.filter (glob pattern) batch = []) as ->
        by (apply Z.ltb_ge in Hlen;
            destruct (List.filter (glob pattern) batch); [reflexivity|];
            cbn [List.length] in Hlen; lia).
      reflexivity.
Qed.

Lemma deleteCachePattern_loop_no_faults pattern batches n w :
  faults w = [] ->
  exists r w', deleteCachePattern_loop pattern batches n w = (inr r, w')
               /\ faults w' = [].
Proof.
  revert n w. induction batches as [|batch rest IH]; intros n w Hf.
  - now exists n, w.
  - cbn [deleteCachePattern_loop]. unfold bind at 1.
    unfold redis_scan. rewrite call_no_faults by exact Hf. cbn [fst snd].
    unfold bind at 1.
    destruct (0 <? Z.of_nat (List.length (List.filter (glob pattern) batch))).
    + unfold bind at 1. unfold redis_del.
      rewrite call_no_faults by exact Hf. cbn [fst snd ret].
      apply IH. exact Hf.
    + cbn [ret]. apply IH. exact Hf.
Qed.

Lemma deleteCachePattern_resolved pattern w r w' :
  deleteCachePattern pattern w = (inr r, w') ->
  forall k, cache w' !! k = if glob pattern k then None else cache w !! k.
Proof.
  unfold deleteCachePattern. intros Hrun k.
  rewrite (deleteCachePattern_loop_resolved _ _ _ _ _ _ Hrun k).
  rewrite scan_batches_concat.
  destruct (glob pattern k) eqn:Hglob.
  - case_decide as Hin; [reflexivity|].
    destruct (cache w !! k) as [v|] eqn:Hk; [|reflexivity].
    exfalso. apply Hin. apply list_elem_of_In, List.filter_In.
    split; [|exact Hglob]. apply list_elem_of_In.
    apply (list_elem_of_fmap_2 fst _ (k, v)).
    now apply elem_of_map_to_list.
  - case_decide as Hin; [|reflexivity].
    apply list_elem_of_In, List.filter_In in Hin. destruct Hin. congruence.
Qed.

Lemma glob_star_all s :
  (fix star (s : string) : bool :=
     Js.is_empty s ||
     match s with
     | String _ s' => star s'
     | EmptyString => false
     end) s = true.
Proof. induction s as [|c s IH]; [reflexivity|exact IH]. Qed.

Lemma glob_user_pattern k : glob "flags:user:*" k = is_user_key k.
Proof.
  unfold is_user_key.
  do 11 (destruct k as [|c k]; [reflexivity|];
         cbn [glob String.prefix];
         match goal with
         | |- context [Ascii.eqb ?a c] =>
             destruct (Ascii.eqb_spec a c) as [<-|Hne];
             [cbn [andb]; destruct (ascii_dec a a); [|congruence]
             |cbn [andb]; destruct (ascii_dec a c); [congruence|reflexivity]]
         end).
  cbn [glob]. rewrite glob_star_all. destruct k; reflexivity.
Qed.

Lemma user_cache_key_is_user_key userId :
  is_user_key (user_cache_key userId) = true.
Proof. destruct userId; reflexivity. Qed.

Lemma user_cache_key_inj u u' : user_cache_key u = user_cache_key u' -> u = u'.
Proof. unfold user_cache_key. intros Heq. injection Heq as Heq. exact Heq. Qed.

Lemma bind_resolved {A B} (m : IO A) (k : A -> IO B) w b w' :
  bind m k w = (inr b, w') ->
  exists a w1, m w = (inr a, w1) /\ k a w1 = (inr b, w').
Proof.
  unfold bind. destruct (m w) as [[e|a] w1]; [discriminate|].
  intros Hk. now exists a, w1.
Qed.

Lemma bind_rejected {A B} (m : IO A) (k : A -> IO B) w e w' :
  bind m k w = (inl e, w') ->
  m w = (inl e, w')
  \/ exists a w1, m w = (inr a, w1) /\ k a w1 = (inl e, w').
Proof.
  unfold bind. destruct (m w) as [[e0|a] w1].
  - intros [= <- <-]. now left.
  - intros Hk. right. now exists a, w1.
Qed.

(** C8. On a run that resolves, [invalidateUserFlagCache] removes the entry
    under 'flags:user:<userId>' and nothing else: the global snapshot and
    the entries of the other users stay as they were. [invalidateFlagCaches]
    removes the entry under 'flags:all' and every entry whose key matches
    'flags:user:*', and keeps the rest. When no call rejects, both runs
    resolve. *)
Theorem invalidation_frame w :
  (ALL_FLAGS_CACHE_KEY = "flags:all"
   /\ forall userId, user_cache_key userId = "flags:user:" +:+ userId)
  /\ (forall userId w',
        invalidateUserFlagCache userId w = (inr tt, w') ->
        cache w' = delete (user_cache_key userId) (cache w)
        /\ cache w' !! user_cache_key userId = None
        /\ cache w' !! ALL_FLAGS_CACHE_KEY = cache w !! ALL_FLAGS_CACHE_KEY
        /\ (forall other, other <> userId ->
              cache w' !! user_cache_key other
              = cache w !! user_cache_key other)
        /\ (forall k, k <> user_cache_key userId ->
              cache w' !! k = cache w !! k))
  /\ (forall w',
        invalidateFlagCaches w = (inr tt, w') ->
        forall k,
          cache w' !! k
          = if String.eqb k ALL_FLAGS_CACHE_KEY || is_user_key k
            then None else cache w !! k)
  /\ (faults w = [] ->
      (forall userId, exists w', invalidateUserFlagCache userId w = (inr tt, w'))
      /\ exists w', invalidateFlagCaches w = (inr tt, w')).
Proof.
  split; [split; reflexivity|]. split; [|split].
  - intros userId w' Hrun.
    unfold invalidateUserFlagCache, deleteCache, redis_del in Hrun.
    apply call_resolved in Hrun as (w0 & Hc & _ & _ & Hop).
    injection Hop as <-. cbn [cache set_cache List.fold_right].
    rewrite Hc. split; [reflexivity|]. split; [apply lookup_delete_eq|].
    split; [now apply lookup_delete_ne|]. split.
    + intros other Hother. apply lookup_delete_ne.
      intros Heq. apply Hother. symmetry. now apply user_cache_key_inj.
    + intros k Hk. apply lookup_delete_ne. congruence.
  - intros w' Hrun k. unfold invalidateFlagCaches in Hrun.
    apply bind_resolved in Hrun as ([] & w1 & Hdel & Hrun).
    apply bind_resolved in Hrun as (n & w2 & Hpat & Hret).
    injection Hret as <-.
    unfold deleteCache, redis_del in Hdel.
    apply call_resolved in Hdel as (w0 & Hc & _ & _ & Hop).
    injection Hop as <-.
    rewrite (deleteCachePattern_resolved _ _ _ _ Hpat k), glob_user_pattern.
    cbn [cache set_cache List.fold_right]. rewrite Hc.
    destruct (is_user_key k); [now rewrite orb_true_r|].
    rewrite orb_false_r.
    destruct (String.eqb_spec k ALL_FLAGS_CACHE_KEY) as [->|Hne].
    + apply lookup_delete_eq.
    + apply lookup_delete_ne. congruence.
  - intros Hf. split.
    + intros userId. unfold invalidateUserFlagCache, deleteCache, redis_del.
      rewrite call_no_faults by exact Hf. cbn [fst snd]. eauto.
    + unfold invalidateFlagCaches, deleteCache, redis_del.
      unfold bind at 1. rewrite call_no_faults by exact Hf. cbn [fst snd].
      unfold bind at 1. unfold deleteCachePattern.
      edestruct deleteCachePattern_loop_no_faults as (r & w' & -> & _);
        [|eexists; reflexivity].
      exact Hf.
Qed.

(** ** Flag loading *)

Lemma getCache_cache {T} (as_T : CachePayload -> option T) key w r w' :
  getCache as_T key w = (r, w') -> cache w' = cache w.
Proof.
  unfold getCache, bind, redis_get. intros Hrun.
  destruct (call RedisError _ w) as [[e|raw] w1] eqn:Hcall.
  - injection Hrun as _ <-. now apply call_rejected in Hcall.
  - apply call_resolved in Hcall as (w0 & Hc & _ & _ & Hop).
    injection Hop as _ <-.
    destruct raw as [[payload ttl]|]; [destruct (as_T payload)|];
      injection Hrun as _ <-; exact Hc.
Qed.

Lemma select_featureFlags_cache w r w' :
  select_featureFlags w = (r, w') -> cache w' = cache w.
Proof.
  unfold select_featureFlags. destruct r as [e|rows]; intros Hcall.
  - now apply call_rejected in Hcall.
  - apply call_resolved in Hcall as (w0 & Hc & _ & _ & Hop).
    now injection Hop as _ <-.
Qed.

Lemma select_featureFlagRules_cache w r w' :
  select_featureFlagRules w = (r, w') -> cache w' = cache w.
Proof.
  unfold select_featureFlagRules. destruct r as [e|rows]; intros Hcall.
  - now apply call_rejected in Hcall.
  - apply call_resolved in Hcall as (w0 & Hc & _ & _ & Hop).
    now injection Hop as _ <-.
Qed.

Lemma loadAllFlags_rejected_cache w e w' :
  loadAllFlags w = (inl e, w') -> cache w' = cache w.
Proof.
  unfold loadAllFlags. intros Hrun.
  apply bind_rejected in Hrun as [Hget|(cached & w1 & Hget & Hrun)];
    [now apply getCache_cache in Hget|].
  apply getCache_cache in Hget.
  destruct cached as [flags|]; [discriminate|].
  apply bind_rejected in Hrun as [Hsel|(flagRows & w2 & Hsel & Hrun)];
    [apply select_featureFlags_cache in Hsel; congruence|].
  apply select_featureFlags_cache in Hsel.
  apply bind_rejected in Hrun as [Hsel2|(ruleRows & w3 & Hsel2 & Hrun)];
    [apply select_featureFlagRules_cache in Hsel2; congruence|].
  apply select_featureFlagRules_cache in Hsel2.
  apply bind_rejected in Hrun as [Hset|(u & w4 & Hset & Hrun)];
    [|discriminate].
  unfold setCache, redis_set in Hset. cbn in Hset.
  apply call_rejected in Hset as [_ Hc]. congruence.
Qed.

(** C9. On a cache miss, a flag fetch that rejects and a rule fetch that
    rejects both make [loadAllFlags] reject with the database error and
    leave the cache as it was; and no run of [loadAllFlags] that rejects,
    for whatever reason, has written to the cache. *)
Theorem loadAllFlags_atomic_on_failure w :
  cache w !! ALL_FLAGS_CACHE_KEY = None ->
  (forall rest, faults w = false :: true :: rest ->
     exists w', loadAllFlags w = (inl DatabaseError, w')
                /\ cache w' = cache w)
  /\ (forall rest, faults w = false :: false :: true :: rest ->
        exists w', loadAllFlags w = (inl DatabaseError, w')
                   /\ cache w' = cache w)
  /\ (forall e w', loadAllFlags w = (inl e, w') -> cache w' = cache w).
Proof.
  intros Hmiss. split; [|split].
  - intros rest Hf. eexists.
    unfold loadAllFlags, getCache, redis_get, select_featureFlags, bind, call.
    rewrite Hf. cbn. rewrite Hmiss. cbn. split; reflexivity.
  - intros rest Hf. eexists.
    unfold loadAllFlags, getCache, redis_get, select_featureFlags,
      select_featureFlagRules, bind, call.
    rewrite Hf. cbn. rewrite Hmiss. cbn. split; reflexivity.
  - apply loadAllFlags_rejected_cache.
Qed.

(** ** Unknown flags *)

Lemma find_unknown_key flagKey flags :
  (forall f, In f flags -> StoredFlag.key f <> flagKey) ->
  List.find (fun f => String.eqb (StoredFlag.key f) flagKey) flags = None.
Proof.
  induction flags as [|f flags IH]; intros Hnone; [reflexivity|].
  cbn [List.find].
  destruct (String.eqb_spec (StoredFlag.key f) flagKey) as [Heq|_].
  - exfalso. apply (Hnone f); [now left|exact Heq].
  - apply IH. intros f' Hin. apply Hnone. now right.
Qed.

(** C6. When the flag set loads and none of its flags has the requested
    key, [evaluateFlag] resolves with the requested key, the value null and
    the source default. *)
Theorem evaluateFlag_unknown_key `{Runtime} flagKey context w flags w' :
  loadAllFlags w = (inr flags, w') ->
  (forall f, In f flags -> StoredFlag.key f <> flagKey) ->
  evaluateFlag flagKey context w = (inr (unknown_result flagKey), w').
Proof.
  intros Hload Hunknown. unfold evaluateFlag, bind. rewrite Hload.
  rewrite find_unknown_key by exact Hunknown. reflexivity.
Qed.

(** * Further properties of the engine *)

(** ** More on the stable sort *)

Section SortFacts.
Context {A : Type} (key : A -> Z).

Local Abbreviation cmp := (fun a b : A => key a - key b).




Lemma sorted_Permutation_unique l1 l2 :
  StronglySorted (fun a b => key a <= key b) l1 ->
  StronglySorted (fun a b => key a <= key b) l2 ->
  Permutation l1 l2 ->
  List.NoDup (List.map key l1) ->
  l1 = l2.
Proof.
  intros S1. revert l2.
  induction S1 as [|x l1 S1 IH Hx]; intros l2 S2 Hperm Hnodup.
  - now apply Permutation_nil in Hperm.
  - destruct S2 as [|y l2 S2 Hy];
      [apply Permutation_sym, Permutation_nil in Hperm; discriminate|].
    assert (x = y) as <-.
    { assert (Hxin : In x (y :: l2))
        by (eapply Permutation_in; [exact Hperm|now left]).
      assert (Hyin : In y (x :: l1))
        by (eapply Permutation_in; [symmetry; exact Hperm|now left]).
      destruct Hxin as [->|Hxin]; [reflexivity|].
      destruct Hyin as [->|Hyin]; [reflexivity|].
      rewrite List.Forall_forall in Hx, Hy.
      specialize (Hx y Hyin). specialize (Hy x Hxin). cbn in Hx, Hy.
      assert (Hkey : key x = key y) by lia.
      exfalso. cbn in Hnodup. apply List.NoDup_cons_iff in Hnodup as [Hnot _].
      apply Hnot. rewrite Hkey. now apply List.in_map. }
    f_equal. apply IH.
    + exact S2.
    + now apply Permutation_cons_inv in Hperm.
    + cbn in Hnodup. now apply List.NoDup_cons_iff in Hnodup as [_ ?].
Qed.

Lemma sort_Permutation_invariant l1 l2 :
  Permutation l1 l2 ->
  List.NoDup (List.map key l1) ->
  Js.sort cmp l1 = Js.sort cmp l2.
Proof.
  intros Hperm Hnodup. apply sorted_Permutation_unique.
  - apply sort_sorted.
  - apply sort_sorted.
  - rewrite !sort_Permutation. exact Hperm.
  - eapply Permutation_NoDup; [|exact Hnodup].
    apply Permutation_map. symmetry. apply sort_Permutation.
Qed.

End SortFacts.





Lemma filter_none {A} (p : A -> bool) l :
  (forall y, In y l -> p y = false) -> List.filter p l = [].
Proof.
  induction l as [|y l IH]; [reflexivity|]. intros Hnone. cbn.
  rewrite (Hnone y (or_introl eq_refl)). apply IH. intros z Hz.
  apply Hnone. now right.
Qed.

Section WinnerProperties.
Context `{Runtime}.




(** With pairwise distinct priorities the stored order of the rules does
    not matter. *)
Theorem rule_order_is_irrelevant flag context rules rules' :
  Permutation rules rules' ->
  List.NoDup (List.map StoredRule.priority rules) ->
  evaluateSingleFlag (with_rules rules' flag) context
  = evaluateSingleFlag (with_rules rules flag) context.
Proof.
  intros Hperm Hnodup. unfold evaluateSingleFlag.
  cbn [with_rules StoredFlag.enabled StoredFlag.rules].
  destruct (truthy (StoredFlag.enabled flag)); cbn [negb]; [|reflexivity].
  rewrite !evaluateSingleFlag_loop_find.
  rewrite (sort_Permutation_invariant StoredRule.priority rules rules' Hperm Hnodup).
  reflexivity.
Qed.

(** Raising the percentage never takes a user out of a rollout. *)
Theorem calculateRollout_monotone flagKey userId percentage percentage' :
  percentage <= percentage' ->
  calculateRollout flagKey userId percentage = true ->
  calculateRollout flagKey userId percentage' = true.
Proof.
  unfold calculateRollout. intros Hle.
  destruct (Z.geb_spec percentage' 100); [reflexivity|].
  destruct (Z.geb_spec percentage 100); [lia|].
  destruct (Z.leb_spec percentage 0); [discriminate|].
  destruct (Z.leb_spec percentage' 0); [lia|].
  rewrite !Z.ltb_lt. lia.
Qed.

End WinnerProperties.

(** ** More on conditions *)

Lemma split_no_dot s : has_dot s = false -> Js.split "." s = [s].
Proof.
  induction s as [|c s IH]; [reflexivity|]. cbn.
  destruct (Ascii.eqb c "."); [discriminate|]. cbn. intros Hs.
  now rewrite IH.
Qed.

Lemma split_nonempty s : Js.split "." s <> [].
Proof.
  destruct s as [|c s]; [discriminate|]. cbn.
  destruct (Ascii.eqb c "."); [discriminate|].
  destruct (Js.split "." s); discriminate.
Qed.

Lemma split_prefix a b :
  has_dot a = false ->
  Js.split "." (a +:+ "." +:+ b) = a :: Js.split "." b.
Proof.
  change (a +:+ "." +:+ b) with (a +:+ String "." b).
  induction a as [|c a IH]; [reflexivity|].
  change (String c a +:+ String "." b) with (String c (a +:+ String "." b)).
  cbn [has_dot Js.split].
  destruct (Ascii.eqb c "."); [discriminate|]. cbn [orb]. intros Ha.
  now rewrite IH.
Qed.

Lemma split_segments_no_dot s seg :
  In seg (Js.split "." s) -> has_dot seg = false.
Proof.
  revert seg. induction s as [|c s IH]; intros seg.
  - intros [<-|[]]. reflexivity.
  - cbn. destruct (Ascii.eqb c ".") eqn:Hc.
    + intros [<-|Hin]; [reflexivity|now apply IH].
    + pose proof (split_nonempty s) as Hne.
      destruct (Js.split "." s) as [|seg0 segs]; [contradiction|].
      intros [<-|Hin].
      * cbn. rewrite Hc. apply IH. now left.
      * apply IH. now right.
Qed.

(** An attribute of the context whose name contains a dot is invisible: no
    field ever resolves to it. *)
Theorem dotted_attribute_is_never_read context key v field :
  has_dot key = true ->
  getContextValue ((key, v) :: context) field = getContextValue context field.
Proof.
  intros Hkey. unfold getContextValue.
  pose proof (split_nonempty field) as Hne.
  pose proof (split_segments_no_dot field) as Hseg.
  destruct (Js.split "." field) as [|part parts]; [contradiction|].
  specialize (Hseg part (or_introl eq_refl)).
  cbn [getContextValue_loop Js.typeof].
  cbn [Js.get Js.assoc].
  destruct (String.eqb_spec key part) as [->|_]; [congruence|reflexivity].
Qed.


Section ConditionAlgebra.
Context `{Runtime}.

Lemma matchesConditions_forallb context conditions :
  matchesConditions context conditions
  = List.forallb
      (fun c => matchesSingleCondition
                  (getContextValue context (FlagCondition.field c)) c)
      conditions.
Proof. destruct conditions; reflexivity. Qed.

(** The conditions of a rule are a conjunction: a list of conditions matches
    exactly when each of them matches the value its field resolves to, so a
    rule without conditions matches every context and conditions joined
    end to end match when both parts do. *)
Theorem matchesConditions_is_conjunction context conditions :
  (matchesConditions context conditions = true
   <-> forall c, In c conditions ->
         matchesSingleCondition
           (getContextValue context (FlagCondition.field c)) c = true)
  /\ matchesConditions context [] = true
  /\ forall more,
       matchesConditions context (conditions ++ more)
       = matchesConditions context conditions
         && matchesConditions context more.
Proof.
  split; [|split].
  - rewrite matchesConditions_forallb. apply List.forallb_forall.
  - reflexivity.
  - intros more. rewrite !matchesConditions_forallb. apply List.forallb_app.
Qed.


End ConditionAlgebra.

(** ** More on ordering and versions *)

Lemma compare_cont_Eq_antisym p q :
  Pos.compare_cont Eq q p = CompOpp (Pos.compare_cont Eq p q).
Proof. now rewrite Pos.compare_cont_antisym. Qed.

Lemma SFcompare_antisym x y :
  SFcompare y x = option_map CompOpp (SFcompare x y).
Proof.
  destruct x as [sx|sx| |sx mx ex], y as [sy|sy| |sy my ey];
    try destruct sx; try destruct sy; try reflexivity; cbn;
    rewrite (Z.compare_antisym ex ey);
    destruct (ex ?= ey); cbn; try reflexivity;
    now rewrite (compare_cont_Eq_antisym mx my).
Qed.


Lemma semver_order_antisym a b :
  semver_order b a = option_map CompOpp (semver_order a b).
Proof.
  unfold semver_order.
  rewrite (SFcompare_antisym (SemverParts.major a)).
  rewrite (SFcompare_antisym (SemverParts.minor a)).
  rewrite (SFcompare_antisym (SemverParts.patch a)).
  destruct (SFcompare (SemverParts.major a) (SemverParts.major b)) as [[]|];
    try reflexivity; cbn.
  destruct (SFcompare (SemverParts.minor a) (SemverParts.minor b)) as [[]|];
    reflexivity.
Qed.

Lemma sign_of_CompOpp c : sign_of (CompOpp c) = - sign_of c.
Proof. destruct c; reflexivity. Qed.

Lemma self_opposite_is_Eq c : c = CompOpp c -> c = Eq.
Proof. destruct c; [reflexivity|discriminate..]. Qed.

Lemma str_gt_lt a b : Js.str_gt a b = Js.str_lt b a.
Proof.
  unfold Js.str_gt, Js.str_lt. rewrite (String.compare_antisym a b).
  destruct (String.compare b a); reflexivity.
Qed.

Lemma str_lt_irrefl a : Js.str_lt a a = false.
Proof.
  unfold Js.str_lt.
  pose proof (String.compare_antisym a a) as Hself.
  apply self_opposite_is_Eq in Hself. now rewrite Hself.
Qed.

(** The comparator is antisymmetric and reflexive on all strings, versions
    or not: swapping the arguments negates the result, and a string compared
    with itself gives 0. *)
Theorem compareSemver_antisymmetric a b :
  compareSemver b a = - compareSemver a b /\ compareSemver a a = 0.
Proof.
  split.
  - destruct (parseSemver a) as [aParts|] eqn:Ha;
      [destruct (parseSemver b) as [bParts|] eqn:Hb|].
    + destruct (compareSemver_parsed a b _ _ Ha Hb) as (c & Hc & Hs).
      destruct (compareSemver_parsed b a _ _ Hb Ha) as (c' & Hc' & Hs').
      rewrite semver_order_antisym, Hc in Hc'. injection Hc' as <-.
      rewrite Hs, Hs'. apply sign_of_CompOpp.
    + rewrite !compareSemver_unparsed by auto.
      rewrite !str_gt_lt.
      destruct (Js.str_lt a b) eqn:Hab, (Js.str_lt b a) eqn:Hba;
        try reflexivity.
      unfold Js.str_lt in Hab, Hba.
      rewrite (String.compare_antisym a b) in Hab.
      destruct (String.compare b a); discriminate.
    + rewrite !compareSemver_unparsed by auto.
      rewrite !str_gt_lt.
      destruct (Js.str_lt a b) eqn:Hab, (Js.str_lt b a) eqn:Hba;
        try reflexivity.
      unfold Js.str_lt in Hab, Hba.
      rewrite (String.compare_antisym a b) in Hab.
      destruct (String.compare b a); discriminate.
  - destruct (parseSemver a) as [aParts|] eqn:Ha.
    + destruct (compareSemver_parsed a a _ _ Ha Ha) as (c & Hc & Hs).
      pose proof (semver_order_antisym aParts aParts) as Hself.
      rewrite Hc in Hself. injection Hself as Hself.
      apply self_opposite_is_Eq in Hself. now rewrite Hs, Hself.
    + rewrite compareSemver_unparsed by auto.
      now rewrite str_gt_lt, str_lt_irrefl.
Qed.

Lemma span_digits_app d r :
  all_digits d = true -> starts_with_digit r = false ->
  Js.span_digits (d +:+ r) = (d, r).
Proof.
  intros Hd Hr. induction d as [|c d IH].
  - change (EmptyString +:+ r) with r.
    destruct r as [|c r]; [reflexivity|]. cbn in *. now rewrite Hr.
  - change (String c d +:+ r) with (String c (d +:+ r)).
    cbn in Hd. apply andb_prop in Hd as [Hc Hd].
    cbn [Js.span_digits]. rewrite Hc, (IH Hd). reflexivity.
Qed.

Lemma semver_match_text d1 d2 d3 rest :
  all_digits d1 = true -> all_digits d2 = true -> all_digits d3 = true ->
  Js.is_empty d1 = false -> Js.is_empty d2 = false -> Js.is_empty d3 = false ->
  starts_with_digit rest = false ->
  semver_match (version_text d1 d2 d3 rest) = Some (d1, d2, d3).
Proof.
  intros A1 A2 A3 N1 N2 N3 Hrest. unfold semver_match, version_text.
  change ("." +:+ d2 +:+ "." +:+ d3 +:+ rest)
    with (String "." (d2 +:+ String "." (d3 +:+ rest))).
  rewrite (span_digits_app d1) by (exact A1 || reflexivity). rewrite N1.
  rewrite (span_digits_app d2) by (exact A2 || reflexivity). rewrite N2.
  rewrite (span_digits_app d3) by assumption. rewrite N3. reflexivity.
Qed.

(** What parses as a version. A string that does not start with a digit
    (a leading v, for one) does not parse. Three non-empty runs of digits
    joined by dots parse to the Numbers they spell, whatever follows them
    as long as it does not start with a digit; what follows is ignored, so
    two such strings that differ in it compare equal. *)
Theorem parseSemver_shape :
  (forall version, starts_with_digit version = false ->
                   parseSemver version = None)
  /\ forall d1 d2 d3 rest,
       all_digits d1 = true -> all_digits d2 = true -> all_digits d3 = true ->
       Js.is_empty d1 = false -> Js.is_empty d2 = false ->
       Js.is_empty d3 = false ->
       starts_with_digit rest = false ->
       parseSemver (version_text d1 d2 d3 rest)
       = Some {| SemverParts.major := Js.parseInt_digits d1;
                 SemverParts.minor := Js.parseInt_digits d2;
                 SemverParts.patch := Js.parseInt_digits d3 |}
       /\ forall rest',
            starts_with_digit rest' = false ->
            compareSemver (version_text d1 d2 d3 rest)
                          (version_text d1 d2 d3 rest') = 0.
Proof.
  split.
  - intros version Hv. unfold parseSemver, semver_match.
    destruct version as [|c version]; [reflexivity|].
    cbn in Hv. cbn [Js.span_digits]. rewrite Hv. reflexivity.
  - intros d1 d2 d3 rest A1 A2 A3 N1 N2 N3 Hrest.
    assert (Hparse : forall r, starts_with_digit r = false ->
              parseSemver (version_text d1 d2 d3 r)
              = Some {| SemverParts.major := Js.parseInt_digits d1;
                        SemverParts.minor := Js.parseInt_digits d2;
                        SemverParts.patch := Js.parseInt_digits d3 |})
      by (intros r Hr; unfold parseSemver;
          now rewrite semver_match_text).
    split; [now apply Hparse|]. intros rest' Hrest'.
    destruct (compareSemver_parsed _ _ _ _ (Hparse rest Hrest)
                (Hparse rest' Hrest')) as (c & Hc & Hs).
    pose proof (semver_order_antisym
                  {| SemverParts.major := Js.parseInt_digits d1;
                     SemverParts.minor := Js.parseInt_digits d2;
                     SemverParts.patch := Js.parseInt_digits d3 |}
                  {| SemverParts.major := Js.parseInt_digits d1;
                     SemverParts.minor := Js.parseInt_digits d2;
                     SemverParts.patch := Js.parseInt_digits d3 |}) as Hself.
    rewrite Hc in Hself. injection Hself as Hself.
    apply self_opposite_is_Eq in Hself. now rewrite Hs, Hself.
Qed.

Section OrderingAlgebra.
Context `{Runtime}.


End OrderingAlgebra.

(** ** More on loading *)

Lemma rules_at_step m rule flagId :
  rules_at (rulesByFlagId_step m rule) flagId
  = rules_at m flagId
    ++ (if String.eqb (RuleRow.flagId rule) flagId
        then [stored_rule_of_row rule] else []).
Proof.
  unfold rules_at, rulesByFlagId_step. rewrite lookup_alter.
  destruct (String.eqb_spec (RuleRow.flagId rule) flagId) as [->|Hne].
  - rewrite decide_True by reflexivity.
    destruct (m !! flagId) as [rules|] eqn:Hm.
    + rewrite Hm. reflexivity.
    + rewrite lookup_insert_eq. reflexivity.
  - rewrite decide_False by exact Hne.
    destruct (m !! RuleRow.flagId rule);
      [|rewrite lookup_insert_ne by exact Hne];
      now rewrite app_nil_r.
Qed.

Lemma rules_at_fold ruleRows m flagId :
  rules_at (List.fold_left rulesByFlagId_step ruleRows m) flagId
  = rules_at m flagId
    ++ List.map stored_rule_of_row
         (List.filter (fun rule => String.eqb (RuleRow.flagId rule) flagId)
                      ruleRows).
Proof.
  revert m. induction ruleRows as [|rule ruleRows IH]; intros m.
  - cbn. now rewrite app_nil_r.
  - cbn [List.fold_left List.filter]. rewrite IH, rules_at_step.
    rewrite <- app_assoc.
    destruct (String.eqb (RuleRow.flagId rule) flagId); reflexivity.
Qed.

Lemma rulesByFlagId_lookup ruleRows flagId :
  match build_rulesByFlagId ruleRows !! flagId with
  | Some rules => rules
  | None => []
  end
  = List.map stored_rule_of_row
      (List.filter (fun rule => String.eqb (RuleRow.flagId rule) flagId)
                   ruleRows).
Proof.
  unfold build_rulesByFlagId.
  change (rules_at (List.fold_left rulesByFlagId_step ruleRows ∅) flagId
          = List.map stored_rule_of_row
              (List.filter
                 (fun rule => String.eqb (RuleRow.flagId rule) flagId)
                 ruleRows)).
  rewrite rules_at_fold. reflexivity.
Qed.

(** Grouping. The loader gives one flag per flag row, in row order, and
    each flag the rules of exactly the rule rows that carry its id, in row
    order, a null list of conditions read as an empty one. A flag no rule
    row names has no rules; a rule row that names no flag is dropped. *)
Theorem loader_groups_rules_by_flag flagRows ruleRows :
  build_flags flagRows (build_rulesByFlagId ruleRows)
  = assemble flagRows ruleRows.
Proof.
  unfold build_flags, assemble.
  apply List.map_ext. intros flag.
  unfold stored_flag_of_row. f_equal.
  apply rulesByFlagId_lookup.
Qed.

Lemma set_cache_same w : set_cache (cache w) w = w.
Proof. now destruct w. Qed.

Lemma getCache_no_faults {T} (as_T : CachePayload -> option T) key w :
  faults w = [] ->
  getCache as_T key w
  = match cache w !! key with
    | None => (inr None, w)
    | Some (payload, _) =>
        match as_T payload with
        | Some x => (inr (Some x), w)
        | None => (inl TypeError, w)
        end
    end.
Proof.
  intros Hf. unfold getCache, bind, redis_get.
  rewrite call_no_faults by exact Hf. cbn [fst snd].
  destruct (cache w !! key) as [[payload ttl]|]; [|reflexivity].
  destruct (as_T payload); reflexivity.
Qed.

Lemma setCache_no_faults key payload ttl w :
  faults w = [] -> 0 < ttl ->
  setCache key payload ttl w
  = (inr tt, set_cache (<[key := (payload, Some ttl)]> (cache w)) w).
Proof.
  intros Hf Httl. unfold setCache.
  destruct (Z.ltb_spec 0 ttl); [|lia].
  unfold redis_set. now rewrite call_no_faults by exact Hf.
Qed.

Lemma loadAllFlags_run w :
  faults w = [] ->
  loadAllFlags w
  = match cache w !! ALL_FLAGS_CACHE_KEY with
    | Some (CachedFlags flags, _) => (inr flags, w)
    | Some (CachedBulk _, _) => (inl TypeError, w)
    | None =>
        let flags := assemble (flagRows w) (ruleRows w) in
        (inr flags,
         set_cache (<[ALL_FLAGS_CACHE_KEY := snapshot_entry flags]> (cache w))
           w)
    end.
Proof.
  intros Hf. unfold loadAllFlags, bind.
  rewrite getCache_no_faults by exact Hf.
  destruct (cache w !! ALL_FLAGS_CACHE_KEY) as [[[flags|bulk] ttl]|];
    [reflexivity|reflexivity|].
  unfold select_featureFlags, select_featureFlagRules.
  rewrite !call_no_faults by exact Hf. cbn [fst snd].
  assert (Hgroup : build_flags (flagRows w) (build_rulesByFlagId (ruleRows w))
                   = assemble (flagRows w) (ruleRows w)).
  { unfold build_flags, assemble. apply List.map_ext. intros flag.
    unfold stored_flag_of_row. f_equal. apply rulesByFlagId_lookup. }
  rewrite Hgroup.
  rewrite setCache_no_faults by (exact Hf || reflexivity).
  reflexivity.
Qed.

(** A cache hit. When the snapshot is in the cache and no call rejects,
    the loader returns it as it is and leaves the world as it was: the rows
    of the store have no part in the result. *)
Theorem loadAllFlags_hit w flags ttl :
  faults w = [] ->
  cache w !! ALL_FLAGS_CACHE_KEY = Some (CachedFlags flags, ttl) ->
  loadAllFlags w = (inr flags, w).
Proof.
  intros Hf Hhit. unfold loadAllFlags, bind, getCache, bind, redis_get.
  rewrite call_no_faults by exact Hf. cbn [fst snd].
  rewrite Hhit. reflexivity.
Qed.

(** A cache miss. When the snapshot is not in the cache and no call
    rejects, the loader returns the flags assembled from the rows of the
    store and puts them in the cache under 'flags:all' with an expiry of 300
    seconds, leaving every other entry alone. *)
Theorem loadAllFlags_miss w :
  faults w = [] ->
  cache w !! ALL_FLAGS_CACHE_KEY = None ->
  let flags := assemble (flagRows w) (ruleRows w) in
  loadAllFlags w
  = (inr flags,
     set_cache (<[ALL_FLAGS_CACHE_KEY := snapshot_entry flags]> (cache w)) w).
Proof.
  intros Hf Hmiss flags. unfold loadAllFlags, bind.
  rewrite getCache_no_faults by exact Hf. rewrite Hmiss.
  unfold select_featureFlags, select_featureFlagRules.
  rewrite !call_no_faults by exact Hf. cbn [fst snd].
  replace (build_flags (flagRows w) (build_rulesByFlagId (ruleRows w)))
    with flags.
  - rewrite setCache_no_faults by (exact Hf || reflexivity). reflexivity.
  - unfold flags, build_flags, assemble. apply List.map_ext. intros flag.
    unfold stored_flag_of_row. f_equal. symmetry. apply rulesByFlagId_lookup.
Qed.

Lemma getCache_resolved {T} (as_T : CachePayload -> option T) key w r w' :
  getCache as_T key w = (inr r, w') ->
  cache w' = cache w
  /\ match r with
     | Some x => exists payload ttl,
         cache w !! key = Some (payload, ttl) /\ as_T payload = Some x
     | None => cache w !! key = None
     end.
Proof.
  intros Hrun. split; [now apply getCache_cache in Hrun|].
  unfold getCache in Hrun.
  apply bind_resolved in Hrun as (raw & w1 & Hget & Hrun).
  unfold redis_get in Hget.
  apply call_resolved in Hget as (w0 & Hc & _ & _ & Hop).
  injection Hop as <- <-. rewrite Hc in Hrun.
  destruct (cache w !! key) as [[payload ttl]|]; [|now injection Hrun as <- _].
  destruct (as_T payload) as [x|] eqn:Hx; [|discriminate].
  injection Hrun as <- _. eauto.
Qed.

Lemma as_flags_inv payload flags :
  as_flags payload = Some flags -> payload = CachedFlags flags.
Proof. destruct payload; [now intros [= ->]|discriminate]. Qed.

Lemma as_bulk_inv payload response :
  as_bulk payload = Some response -> payload = CachedBulk response.
Proof. destruct payload; [discriminate|now intros [= ->]]. Qed.

Lemma setCache_resolved key payload ttl w w' :
  0 < ttl ->
  setCache key payload ttl w = (inr tt, w') ->
  cache w' = <[key := (payload, Some ttl)]> (cache w).
Proof.
  intros Httl. unfold setCache. destruct (Z.ltb_spec 0 ttl); [|lia].
  unfold redis_set. intros Hcall.
  apply call_resolved in Hcall as (w0 & Hc & _ & _ & Hop).
  injection Hop as <-. cbn. now rewrite Hc.
Qed.

(** Whatever led to it, a load that resolves leaves the snapshot it
    returned in the cache under 'flags:all', and changes no other entry. *)
Theorem loadAllFlags_leaves_snapshot w flags w' :
  loadAllFlags w = (inr flags, w') ->
  (exists ttl, cache w' !! ALL_FLAGS_CACHE_KEY = Some (CachedFlags flags, ttl))
  /\ forall key, key <> ALL_FLAGS_CACHE_KEY -> cache w' !! key = cache w !! key.
Proof.
  unfold loadAllFlags. intros Hrun.
  apply bind_resolved in Hrun as (cached & w1 & Hget & Hrun).
  apply getCache_resolved in Hget as [Hc1 Hcached].
  destruct cached as [cachedFlags|].
  - injection Hrun as <- <-.
    destruct Hcached as (payload & ttl & Hlook & Has).
    apply as_flags_inv in Has as ->. rewrite Hc1.
    split; [now exists ttl|reflexivity].
  - apply bind_resolved in Hrun as (fr & w2 & Hsel & Hrun).
    apply select_featureFlags_cache in Hsel.
    apply bind_resolved in Hrun as (rr & w3 & Hsel2 & Hrun).
    apply select_featureFlagRules_cache in Hsel2.
    apply bind_resolved in Hrun as ([] & w4 & Hset & Hret).
    injection Hret as <- <-.
    apply setCache_resolved in Hset; [|reflexivity].
    rewrite Hset, Hsel2, Hsel, Hc1. split.
    + eexists. apply lookup_insert_eq.
    + intros key Hkey. apply lookup_insert_ne. congruence.
Qed.

(** ** More on the public functions *)






Section PublicProperties.
Context `{Runtime}.


(** A result always carries the key that was asked for, and the preview is
    the evaluation: whenever the preview resolves, [evaluateFlag] resolves
    in the same world with the same result; the flag the preview hands back
    is the first loaded flag with the requested key, the one the result was
    computed from, and none is handed back exactly when the result is the
    one for an unknown key. *)
Theorem preview_agrees_with_evaluateFlag flagKey context w result used w' :
  previewFlagEvaluation flagKey context w = (inr (result, used), w') ->
  evaluateFlag flagKey context w = (inr result, w')
  /\ FlagEvaluationResult.key result = flagKey
  /\ match used with
     | Some flag =>
         StoredFlag.key flag = flagKey
         /\ result = evaluateSingleFlag flag context
         /\ exists flags w0,
              loadAllFlags w = (inr flags, w0)
              /\ List.find (fun f => String.eqb (StoredFlag.key f) flagKey)
                           flags = Some flag
     | None => result = unknown_result flagKey
     end.
Proof.
  unfold previewFlagEvaluation, evaluateFlag. intros Hrun.
  apply bind_resolved in Hrun as (flags & w1 & Hload & Hrun).
  unfold bind. rewrite Hload.
  destruct (List.find (fun f => String.eqb (StoredFlag.key f) flagKey) flags)
    as [flag|] eqn:Hfind;
    injection Hrun as <- <- <-.
  - pose proof (List.find_some _ _ Hfind) as [_ Hkey].
    apply String.eqb_eq in Hkey.
    split; [reflexivity|]. split.
    + unfold evaluateSingleFlag.
      destruct (negb (truthy (StoredFlag.enabled flag))); [exact Hkey|].
      rewrite evaluateSingleFlag_loop_find.
      destruct (List.find (survives flag context) _); exact Hkey.
    + split; [exact Hkey|]. split; [reflexivity|]. eauto.
  - repeat split; reflexivity.
Qed.



(** Whatever led to it, a bulk evaluation that resolves leaves the response
    it returned in the cache under the user's key. A per-user cache hit
    returns the cached response as it is and touches nothing; so a bulk
    evaluation repeated while the user's entry stands returns the first
    response again, whatever happened to the store, to the global snapshot
    or to the clock in between. *)
Theorem evaluateAllFlags_repeats_cached_response context w response w' :
  evaluateAllFlags context w = (inr response, w') ->
  (exists ttl,
     cache w' !! user_cache_key (context_userId context)
     = Some (CachedBulk response, ttl))
  /\ forall w2,
       faults w2 = [] ->
       cache w2 !! user_cache_key (context_userId context)
       = cache w' !! user_cache_key (context_userId context) ->
       evaluateAllFlags context w2 = (inr response, w2).
Proof.
  intros Hfirst.
  assert (Hentry : exists ttl,
            cache w' !! user_cache_key (context_userId context)
            = Some (CachedBulk response, ttl)).
  { unfold evaluateAllFlags in Hfirst.
    apply bind_resolved in Hfirst as (cached & w1 & Hget & Hrun).
    apply getCache_resolved in Hget as [Hc1 Hcached].
    destruct cached as [cachedResponse|].
    - injection Hrun as <- <-.
      destruct Hcached as (payload & ttl & Hlook & Has).
      apply as_bulk_inv in Has as ->. rewrite Hc1. now exists ttl.
    - apply bind_resolved in Hrun as (allFlags & w2 & Hload & Hrun).
      destruct (evaluateAllFlags_loop context allFlags [] Obj.empty)
        as [details flags].
      apply bind_resolved in Hrun as (evaluatedAt & w3 & Hclock & Hrun).
      apply bind_resolved in Hrun as ([] & w4 & Hset & Hret).
      injection Hret as <- <-.
      apply setCache_resolved in Hset; [|reflexivity].
      rewrite Hset. eexists. apply lookup_insert_eq. }
  split; [exact Hentry|].
  intros w2 Hf Hsame. destruct Hentry as [ttl Hentry].
  rewrite Hentry in Hsame.
  unfold evaluateAllFlags, bind.
  rewrite getCache_no_faults by exact Hf. rewrite Hsame. reflexivity.
Qed.

End PublicProperties.

(** ** Invalidation, then the next read *)

Lemma deleteCache_resolved key w w' :
  deleteCache key w = (inr tt, w') ->
  cache w' = delete key (cache w)
  /\ flagRows w' = flagRows w /\ ruleRows w' = ruleRows w.
Proof.
  unfold deleteCache, redis_del. intros Hcall.
  apply call_resolved in Hcall as (w0 & Hc & Hfr & Hrr & Hop).
  injection Hop as <-. cbn. now rewrite Hc.
Qed.

Lemma invalidateFlagCaches_lookup w w' :
  invalidateFlagCaches w = (inr tt, w') ->
  forall k,
    cache w' !! k
    = if String.eqb k ALL_FLAGS_CACHE_KEY || is_user_key k
      then None else cache w !! k.
Proof.
  intros Hrun k. unfold invalidateFlagCaches in Hrun.
  apply bind_resolved in Hrun as ([] & w1 & Hdel & Hrun).
  apply bind_resolved in Hrun as (n & w2 & Hpat & Hret).
  injection Hret as <-.
  apply deleteCache_resolved in Hdel as (Hc & _ & _).
  rewrite (deleteCachePattern_resolved _ _ _ _ Hpat k), glob_user_pattern, Hc.
  destruct (is_user_key k); [now rewrite orb_true_r|].
  rewrite orb_false_r.
  destruct (String.eqb_spec k ALL_FLAGS_CACHE_KEY) as [->|Hne].
  - apply lookup_delete_eq.
  - apply lookup_delete_ne. congruence.
Qed.

(** After [invalidateFlagCaches] the next load reads the store again: when
    no call rejects it returns the flags assembled from the rows of the
    store and caches them anew. *)
Theorem invalidation_refreshes_snapshot w w1 :
  invalidateFlagCaches w = (inr tt, w1) ->
  faults w1 = [] ->
  let flags := assemble (flagRows w1) (ruleRows w1) in
  loadAllFlags w1
  = (inr flags,
     set_cache (<[ALL_FLAGS_CACHE_KEY := snapshot_entry flags]> (cache w1)) w1).
Proof.
  intros Hinv Hf flags. rewrite loadAllFlags_run by exact Hf.
  rewrite (invalidateFlagCaches_lookup _ _ Hinv). reflexivity.
Qed.

Section RecomputeProperties.
Context `{Runtime}.


End RecomputeProperties.

(** ** Counting what a pattern deletes *)

Lemma deleteCachePattern_loop_count pattern batches n w r w' :
  deleteCachePattern_loop pattern batches n w = (inr r, w') ->
  r = n + Z.of_nat (List.length (List.filter (glob pattern) (concat batches))).
Proof.
  revert n w. induction batches as [|batch rest IH]; intros n w Hrun.
  - cbn in Hrun. injection Hrun as <- _. cbn. lia.
  - cbn [deleteCachePattern_loop] in Hrun.
    apply bind_resolved in Hrun as (keys & w1 & Hscan & Hrun).
    unfold redis_scan in Hscan.
    apply call_resolved in Hscan as (w0 & _ & _ & _ & Hop).
    injection Hop as <- <-.
    apply bind_resolved in Hrun as (n' & w2 & Hstep & Hrun).
    apply IH in Hrun. cbn [concat].
    rewrite List.filter_app, List.length_app, Nat2Z.inj_add.
    destruct (0 <? Z.of_nat (List.length (List.filter (glob pattern) batch)))
      eqn:Hlen.
    + apply bind_resolved in Hstep as ([] & w3 & _ & Hret).
      injection Hret as <- _. lia.
    + injection Hstep as <- _. apply Z.ltb_ge in Hlen. lia.
Qed.

(** [deleteCachePattern], when it resolves, returns the number of keys of
    the cache that match the pattern, has removed exactly those keys, and
    has kept every other entry; with no matching key it returns 0 and the
    cache is as it was. *)
Theorem deleteCachePattern_counts_matches pattern w n w' :
  deleteCachePattern pattern w = (inr n, w') ->
  let keys := List.map fst (map_to_list (cache w)) in
  n = Z.of_nat (List.length (List.filter (glob pattern) keys))
  /\ (forall k, cache w' !! k = if glob pattern k then None else cache w !! k)
  /\ ((forall k, In k keys -> glob pattern k = false) ->
      n = 0 /\ cache w' = cache w).
Proof.
  intros Hrun keys.
  assert (Hn : n = Z.of_nat (List.length (List.filter (glob pattern) keys))).
  { unfold deleteCachePattern in Hrun.
    apply deleteCachePattern_loop_count in Hrun.
    rewrite scan_batches_concat in Hrun. exact Hrun. }
  pose proof (deleteCachePattern_resolved _ _ _ _ Hrun) as Hlook.
  split; [exact Hn|]. split; [exact Hlook|].
  intros Hnone. split.
  - rewrite Hn, filter_none by exact Hnone. reflexivity.
  - apply map_eq. intros k. rewrite Hlook.
    destruct (glob pattern k) eqn:Hg; [|reflexivity].
    destruct (cache w !! k) as [v|] eqn:Hk; [|reflexivity].
    assert (Hin : In k keys).
    { apply list_elem_of_In.
      apply (list_elem_of_fmap_2 fst _ (k, v)).
      now apply elem_of_map_to_list. }
    rewrite (Hnone k Hin) in Hg. discriminate.
Qed.

(** * Properties of the rate limiter *)

Lemma store_call_resolved {A} (op : RateLimit.Store -> A * RateLimit.Store) s a s' :
  RateLimit.call op s = (inr a, s') ->
  exists s0, RateLimit.counters s0 = RateLimit.counters s /\ op s0 = (a, s').
Proof.
  unfold RateLimit.call. destruct (RateLimit.faults s) as [|[] rest].
  - destruct (op s) as [a0 s0] eqn:Hop. intros [= <- <-]. now exists s.
  - discriminate.
  - destruct (op (RateLimit.set_faults rest s)) as [a0 s0] eqn:Hop. intros [= <- <-].
    now exists (RateLimit.set_faults rest s).
Qed.

Lemma store_call_rejected {A} (op : RateLimit.Store -> A * RateLimit.Store) s e s' :
  RateLimit.call op s = (inl e, s') -> RateLimit.counters s' = RateLimit.counters s.
Proof.
  unfold RateLimit.call. destruct (RateLimit.faults s) as [|[] rest].
  - destruct (op s). discriminate.
  - now intros [= _ <-].
  - destruct (op (RateLimit.set_faults rest s)). discriminate.
Qed.

Lemma store_call_no_faults {A} (op : RateLimit.Store -> A * RateLimit.Store) s :
  RateLimit.faults s = [] -> RateLimit.call op s = (inr (fst (op s)), snd (op s)).
Proof. unfold RateLimit.call. intros ->. now destruct (op s). Qed.

Lemma incrementWithExpiry_resolved k ttlSeconds s count s' :
  0 < ttlSeconds ->
  RateLimit.incrementWithExpiry k ttlSeconds s = (inr count, s') ->
  count = RateLimit.count_of k s + 1
  /\ RateLimit.counters s'
     = <[k := (count, Some (RateLimit.expiry_after k ttlSeconds s))]> (RateLimit.counters s).
Proof.
  intros Httl. unfold RateLimit.incrementWithExpiry.
  destruct (RateLimit.pipeline_incr_ttl k s) as [[e|[c t]] s1] eqn:Hpipe; [discriminate|].
  unfold RateLimit.pipeline_incr_ttl in Hpipe.
  apply store_call_resolved in Hpipe as (s0 & Hc0 & Hop).
  unfold RateLimit.count_of, RateLimit.expiry_after. rewrite <- Hc0.
  destruct (RateLimit.counters s0 !! k) as [[n ttl]|] eqn:Hk.
  - injection Hop as <- <- <-.
    destruct ((n + 1 =? 1) || _) eqn:Htest.
    + destruct (RateLimit.redis_expire k ttlSeconds _) as [[e|[]] s2] eqn:Hexp;
        [discriminate|].
      intros [= <- <-]. split; [reflexivity|].
      unfold RateLimit.redis_expire in Hexp.
      apply store_call_resolved in Hexp as (s3 & Hc3 & Hop).
      rewrite Hc3 in Hop. cbn in Hop. rewrite lookup_insert_eq in Hop.
      apply Z.ltb_lt in Httl. rewrite Httl in Hop.
      injection Hop as <-. cbn. rewrite insert_insert_eq.
      destruct ttl as [t|]; [|reflexivity].
      destruct (n + 1 =? 1) eqn:Hone; [reflexivity|].
      cbn in Htest. apply Z.eqb_eq in Htest. lia.
    + intros [= <- <-]. split; [reflexivity|]. cbn.
      apply orb_false_iff in Htest as [Hone Hneg]. rewrite Hone.
      destruct ttl as [t|]; [reflexivity|]. discriminate.
  - injection Hop as <- <- <-. cbn.
    destruct (RateLimit.redis_expire k ttlSeconds _) as [[e|[]] s2] eqn:Hexp;
      [discriminate|].
    intros [= <- <-]. split; [reflexivity|].
    unfold RateLimit.redis_expire in Hexp.
    apply store_call_resolved in Hexp as (s3 & Hc3 & Hop).
    rewrite Hc3 in Hop. cbn in Hop. rewrite lookup_insert_eq in Hop.
    apply Z.ltb_lt in Httl. rewrite Httl in Hop.
    injection Hop as <-. cbn. now rewrite insert_insert_eq.
Qed.

Lemma incrementWithExpiry_rejected k ttlSeconds s e s' :
  RateLimit.incrementWithExpiry k ttlSeconds s = (inl e, s') ->
  forall k', k' <> k -> RateLimit.counters s' !! k' = RateLimit.counters s !! k'.
Proof.
  unfold RateLimit.incrementWithExpiry.
  destruct (RateLimit.pipeline_incr_ttl k s) as [[e0|[c t]] s1] eqn:Hpipe.
  - intros [= <- <-] k' _. unfold RateLimit.pipeline_incr_ttl in Hpipe.
    now rewrite (store_call_rejected _ _ _ _ Hpipe).
  - unfold RateLimit.pipeline_incr_ttl in Hpipe.
    apply store_call_resolved in Hpipe as (s0 & Hc0 & Hop).
    assert (Hs1 : forall k', k' <> k -> RateLimit.counters s1 !! k' = RateLimit.counters s !! k').
    { intros k' Hne. rewrite <- Hc0.
      destruct (RateLimit.counters s0 !! k) as [[n ttl]|]; injection Hop as <- <- <-;
        cbn; apply lookup_insert_ne; congruence. }
    destruct ((c =? 1) || (t =? -1)); [|discriminate].
    destruct (RateLimit.redis_expire k ttlSeconds s1) as [[e0|[]] s2] eqn:Hexp;
      [|discriminate].
    intros [= <- <-] k' Hne. unfold RateLimit.redis_expire in Hexp.
    rewrite (store_call_rejected _ _ _ _ Hexp). now apply Hs1.
Qed.

Lemma incrementWithExpiry_frame k ttlSeconds s k' :
  k' <> k ->
  RateLimit.counters (snd (RateLimit.incrementWithExpiry k ttlSeconds s)) !! k' = RateLimit.counters s !! k'.
Proof.
  intros Hne.
  destruct (RateLimit.incrementWithExpiry k ttlSeconds s) as [[e|count] s'] eqn:Hrun.
  - cbn. exact (incrementWithExpiry_rejected _ _ _ _ _ Hrun k' Hne).
  - cbn. revert Hrun. unfold RateLimit.incrementWithExpiry.
    destruct (RateLimit.pipeline_incr_ttl k s) as [[e0|[c t]] s1] eqn:Hpipe;
      [discriminate|].
    unfold RateLimit.pipeline_incr_ttl in Hpipe.
    apply store_call_resolved in Hpipe as (s0 & Hc0 & Hop).
    assert (Hs1 : RateLimit.counters s1 !! k' = RateLimit.counters s !! k').
    { rewrite <- Hc0.
      destruct (RateLimit.counters s0 !! k) as [[n ttl]|]; injection Hop as <- <- <-;
        cbn; apply lookup_insert_ne; congruence. }
    destruct ((c =? 1) || (t =? -1)); [|now intros [= <- <-]].
    destruct (RateLimit.redis_expire k ttlSeconds s1) as [[e0|[]] s2] eqn:Hexp;
      [discriminate|].
    intros [= <- <-]. unfold RateLimit.redis_expire in Hexp.
    apply store_call_resolved in Hexp as (s3 & Hc3 & Hop').
    rewrite <- Hs1, <- Hc3.
    destruct (RateLimit.counters s3 !! k) as [[n ttl]|]; [|now injection Hop' as <-].
    destruct (0 <? ttlSeconds); injection Hop' as <-; cbn.
    + apply lookup_insert_ne. congruence.
    + apply lookup_delete_ne. congruence.
Qed.

Lemma incrementWithExpiry_no_faults k ttlSeconds s :
  RateLimit.faults s = [] -> 0 < ttlSeconds ->
  RateLimit.incrementWithExpiry k ttlSeconds s
  = (inr (RateLimit.count_of k s + 1),
     RateLimit.set_counters
       (<[k := (RateLimit.count_of k s + 1, Some (RateLimit.expiry_after k ttlSeconds s))]>
          (RateLimit.counters s)) s).
Proof.
  intros Hf Httl.
  destruct (RateLimit.incrementWithExpiry k ttlSeconds s) as [[e|count] s'] eqn:Hrun.
  - exfalso. revert Hrun. unfold RateLimit.incrementWithExpiry, RateLimit.pipeline_incr_ttl.
    rewrite store_call_no_faults by exact Hf.
    destruct (RateLimit.counters s !! k) as [[n ttl]|]; cbn.
    + destruct ((n + 1 =? 1) || _); [|discriminate].
      unfold RateLimit.redis_expire. rewrite store_call_no_faults by exact Hf. discriminate.
    + unfold RateLimit.redis_expire. rewrite store_call_no_faults by exact Hf. discriminate.
  - destruct (incrementWithExpiry_resolved _ _ _ _ _ Httl Hrun) as [-> Hc].
    f_equal. destruct s' as [c' f']. cbn in Hc. subst c'.
    unfold RateLimit.set_counters. f_equal.
    revert Hrun. unfold RateLimit.incrementWithExpiry, RateLimit.pipeline_incr_ttl.
    rewrite store_call_no_faults by exact Hf.
    destruct (RateLimit.counters s !! k) as [[n ttl]|]; cbn.
    + destruct ((n + 1 =? 1) || _).
      * unfold RateLimit.redis_expire. rewrite store_call_no_faults by exact Hf. cbn.
        rewrite lookup_insert_eq.
        destruct (0 <? ttlSeconds); cbn; intros [= _ _ <-]; reflexivity.
      * intros [= _ _ <-]. reflexivity.
    + unfold RateLimit.redis_expire. rewrite store_call_no_faults by exact Hf. cbn.
      rewrite lookup_insert_eq.
      destruct (0 <? ttlSeconds); cbn; intros [= _ _ <-]; reflexivity.
Qed.

Lemma append_inj_l (p a b : string) : p +:+ a = p +:+ b -> a = b.
Proof.
  induction p as [|c p IH]; cbn; [easy|]. intros [= Heq]. now apply IH.
Qed.

Lemma key_inj options request request' :
  RateLimit.key options request = RateLimit.key options request' ->
  RateLimit.identifier request = RateLimit.identifier request'.
Proof.
  unfold RateLimit.key. intros Heq.
  apply append_inj_l in Heq. apply append_inj_l in Heq.
  now apply append_inj_l in Heq.
Qed.

Lemma requests_state options request s n :
  RateLimit.faults s = [] -> 0 < RateLimitOptions.window options ->
  RateLimit.counters s !! RateLimit.key options request = None ->
  RateLimit.faults (RateLimit.requests n options request s) = []
  /\ RateLimit.count_of (RateLimit.key options request) (RateLimit.requests n options request s)
     = Z.of_nat n
  /\ (n <> O ->
      RateLimit.counters (RateLimit.requests n options request s) !! RateLimit.key options request
      = Some (Z.of_nat n, Some (Z.to_N (RateLimitOptions.window options)))).
Proof.
  intros Hf Hw Hk.
  assert (Hstep : forall s0,
    RateLimit.faults s0 = [] ->
    snd (RateLimit.rateLimit options request ∅ s0)
    = RateLimit.set_counters
        (<[RateLimit.key options request :=
             (RateLimit.count_of (RateLimit.key options request) s0 + 1,
              Some (RateLimit.expiry_after (RateLimit.key options request)
                      (RateLimitOptions.window options) s0))]>
           (RateLimit.counters s0)) s0).
  { intros s0 Hf0. unfold RateLimit.rateLimit.
    rewrite incrementWithExpiry_no_faults by assumption.
    now destruct (_ >? _). }
  assert (Hgen : forall n s0,
    RateLimit.faults s0 = [] ->
    (RateLimit.counters s0 !! RateLimit.key options request = None
     \/ exists m, 0 < m /\
          RateLimit.counters s0 !! RateLimit.key options request
          = Some (m, Some (Z.to_N (RateLimitOptions.window options)))) ->
    RateLimit.faults (RateLimit.requests n options request s0) = []
    /\ RateLimit.count_of (RateLimit.key options request) (RateLimit.requests n options request s0)
       = RateLimit.count_of (RateLimit.key options request) s0 + Z.of_nat n
    /\ (n <> O ->
        RateLimit.counters (RateLimit.requests n options request s0) !! RateLimit.key options request
        = Some (RateLimit.count_of (RateLimit.key options request) s0 + Z.of_nat n,
                Some (Z.to_N (RateLimitOptions.window options))))).
  { clear s Hf Hk n. intros n. induction n as [|n IH]; intros s0 Hf0 Hinv.
    - cbn. repeat split; [exact Hf0|lia|congruence].
    - cbn [RateLimit.requests]. rewrite Hstep by exact Hf0.
      set (s1 := RateLimit.set_counters _ s0).
      assert (Hexp : RateLimit.expiry_after (RateLimit.key options request)
                       (RateLimitOptions.window options) s0
                     = Z.to_N (RateLimitOptions.window options)).
      { unfold RateLimit.expiry_after. destruct Hinv as [->|(m & Hm & ->)];
          [reflexivity|].
        destruct (m + 1 =? 1) eqn:Hone; [|reflexivity].
        apply Z.eqb_eq in Hone. lia. }
      assert (Hpos : 0 <= RateLimit.count_of (RateLimit.key options request) s0).
      { unfold RateLimit.count_of. destruct Hinv as [->|(m & Hm & ->)]; lia. }
      assert (Hk1 : RateLimit.counters s1 !! RateLimit.key options request
                    = Some (RateLimit.count_of (RateLimit.key options request) s0 + 1,
                            Some (Z.to_N (RateLimitOptions.window options)))).
      { subst s1. cbn. rewrite lookup_insert_eq, Hexp. reflexivity. }
      assert (Hc1 : RateLimit.count_of (RateLimit.key options request) s1
                    = RateLimit.count_of (RateLimit.key options request) s0 + 1).
      { unfold RateLimit.count_of at 1. now rewrite Hk1. }
      destruct (IH s1) as (Hf' & Hcount & Hlook).
      { exact Hf0. }
      { right. eexists. split; [|exact Hk1]. lia. }
      split; [exact Hf'|]. rewrite Hcount, Hc1. split; [lia|].
      intros _. destruct n as [|n'].
      + cbn [RateLimit.requests]. rewrite Hk1. do 2 f_equal; lia.
      + rewrite Hlook by congruence. rewrite Hc1. do 2 f_equal; lia. }
  destruct (Hgen n s Hf (or_introl Hk)) as (Hf' & Hcount & Hlook).
  assert (Hzero : RateLimit.count_of (RateLimit.key options request) s = 0)
    by (unfold RateLimit.count_of; now rewrite Hk).
  rewrite Hzero in Hcount, Hlook. cbn in Hcount, Hlook.
  split; [exact Hf'|]. split; [exact Hcount|exact Hlook].
Qed.

Lemma String_of_0 : RateLimit.String_of 0 = "0".
Proof. reflexivity. Qed.

(** [incrementWithExpiry] counts in a fixed window: a call that resolves
    returns the old count plus one (1 for a new key) and leaves the key with
    an expiry; an expiry already running is not extended, a key found
    without one gets the full time to live. No other key changes. *)
Theorem incrementWithExpiry_fixed_window k ttlSeconds s count s' :
  0 < ttlSeconds ->
  RateLimit.incrementWithExpiry k ttlSeconds s = (inr count, s') ->
  count = RateLimit.count_of k s + 1
  /\ RateLimit.counters s' !! k = Some (count, Some (RateLimit.expiry_after k ttlSeconds s))
  /\ (forall n t, RateLimit.counters s !! k = Some (n, Some t) -> n <> 0 ->
      RateLimit.expiry_after k ttlSeconds s = t)
  /\ (forall n, RateLimit.counters s !! k = Some (n, None) ->
      RateLimit.expiry_after k ttlSeconds s = Z.to_N ttlSeconds)
  /\ (forall k', k' <> k -> RateLimit.counters s' !! k' = RateLimit.counters s !! k').
Proof.
  intros Httl Hrun.
  destruct (incrementWithExpiry_resolved _ _ _ _ _ Httl Hrun) as [Hcount Hc].
  split; [exact Hcount|]. rewrite Hc.
  split; [apply lookup_insert_eq|].
  split.
  { intros n t Hk Hn. unfold RateLimit.expiry_after. rewrite Hk.
    destruct (n + 1 =? 1) eqn:Hone; [|reflexivity].
    apply Z.eqb_eq in Hone. lia. }
  split.
  { intros n Hk. unfold RateLimit.expiry_after. now rewrite Hk. }
  intros k' Hne. apply lookup_insert_ne. congruence.
Qed.

(** The middleware turns a request away only for being over the limit: what
    it throws is the 429 error, the count has passed [max], and the response
    tells 0 remaining and the window to wait. A request goes on when its
    count is within the limit, or when the cache server failed, and then the
    response headers are as they were. *)
Theorem rateLimit_rejects_only_over_limit options request headers s
    outcome headers' s' :
  0 < RateLimitOptions.window options ->
  RateLimit.rateLimit options request headers s = (outcome, headers', s') ->
  match outcome with
  | RateLimit.Throw e =>
      e = RATE_LIMITED
      /\ AppError.statusCode e = 429
      /\ RateLimitOptions.max options < RateLimit.count_of (RateLimit.key options request) s + 1
      /\ headers' !! "X-RateLimit-Remaining" = Some "0"
      /\ headers' !! "Retry-After"
         = Some (RateLimit.String_of (RateLimitOptions.window options))
  | RateLimit.Next =>
      RateLimit.count_of (RateLimit.key options request) s + 1 <= RateLimitOptions.max options
      \/ (headers' = headers
          /\ exists e, RateLimit.incrementWithExpiry (RateLimit.key options request)
                         (RateLimitOptions.window options) s = (inl e, s'))
  end.
Proof.
  intros Hw. unfold RateLimit.rateLimit.
  destruct (RateLimit.incrementWithExpiry _ _ s) as [[e|count] s1] eqn:Hrun.
  - intros [= <- <- <-]. right. split; [reflexivity|]. now exists e.
  - destruct (incrementWithExpiry_resolved _ _ _ _ _ Hw Hrun) as [Hcount _].
    destruct (count >? RateLimitOptions.max options) eqn:Hover;
      intros [= <- <- <-].
    + apply Z.gtb_lt in Hover.
      split; [reflexivity|]. split; [reflexivity|]. split; [lia|].
      split.
      * rewrite lookup_insert_ne by discriminate.
        rewrite lookup_insert_eq. rewrite Z.max_l by lia. reflexivity.
      * apply lookup_insert_eq.
    + left. rewrite Z.gtb_ltb in Hover. apply Z.ltb_ge in Hover. lia.
Qed.

(** A client that starts a window and keeps sending the same request gets
    exactly the first [max] requests through: with the cache server up,
    its request number [n + 1] goes on when [n + 1 <= max] and is thrown out
    otherwise, and the response tells how many are left. Requests that were
    turned away count too. *)
Theorem first_max_requests_pass options request headers s n :
  RateLimit.faults s = [] ->
  0 < RateLimitOptions.window options ->
  RateLimit.counters s !! RateLimit.key options request = None ->
  let s_n := RateLimit.requests n options request s in
  let count := Z.of_nat n + 1 in
  fst (fst (RateLimit.rateLimit options request headers s_n))
  = (if count >? RateLimitOptions.max options
     then RateLimit.Throw RATE_LIMITED else RateLimit.Next)
  /\ snd (fst (RateLimit.rateLimit options request headers s_n))
       !! "X-RateLimit-Remaining"
     = Some (RateLimit.String_of (Z.max 0 (RateLimitOptions.max options - count)))
  /\ RateLimit.counters (snd (RateLimit.rateLimit options request headers s_n))
       !! RateLimit.key options request
     = Some (count, Some (Z.to_N (RateLimitOptions.window options))).
Proof.
  intros Hf Hw Hk s_n count.
  destruct (requests_state options request s n Hf Hw Hk)
    as (Hf' & Hcount & Hlook).
  fold s_n in Hf', Hcount, Hlook.
  unfold RateLimit.rateLimit.
  rewrite incrementWithExpiry_no_faults by assumption.
  rewrite Hcount. fold count.
  assert (Hexp : RateLimit.expiry_after (RateLimit.key options request)
                   (RateLimitOptions.window options) s_n
                 = Z.to_N (RateLimitOptions.window options)).
  { unfold RateLimit.expiry_after. destruct n as [|n'].
    - cbn in s_n. subst s_n. now rewrite Hk.
    - rewrite Hlook by congruence.
      destruct (Z.of_nat (S n') + 1 =? 1) eqn:Hone; [|reflexivity].
      apply Z.eqb_eq in Hone. lia. }
  rewrite Hexp.
  destruct (count >? RateLimitOptions.max options); cbn.
  - split; [reflexivity|]. split.
    + rewrite lookup_insert_ne by discriminate. apply lookup_insert_eq.
    + apply lookup_insert_eq.
  - split; [reflexivity|]. split; apply lookup_insert_eq.
Qed.

(** One client's requests never touch the counter of another: under the
    same options, a request leaves the counter of every request with another
    identifier as it was, whether the cache server answers or not. *)
Theorem rateLimit_counters_are_separate options request request' headers s :
  RateLimit.identifier request <> RateLimit.identifier request' ->
  RateLimit.counters (snd (RateLimit.rateLimit options request headers s)) !! RateLimit.key options request'
  = RateLimit.counters s !! RateLimit.key options request'.
Proof.
  intros Hne.
  assert (Hkey : RateLimit.key options request' <> RateLimit.key options request).
  { intros Heq. apply Hne. symmetry. exact (key_inj _ _ _ Heq). }
  pose proof (incrementWithExpiry_frame (RateLimit.key options request)
                (RateLimitOptions.window options) s _ Hkey) as Hframe.
  unfold RateLimit.rateLimit.
  destruct (RateLimit.incrementWithExpiry _ _ s) as [[e|count] s1]; cbn in *.
  - exact Hframe.
  - destruct (count >? _); exact Hframe.
Qed.


(** * Properties of the static flag table *)

Section StaticFlags.
Context `{Runtime}.

Lemma excluded_allows allowed given :
  FlagsService.excluded allowed given = negb (FlagsService.allows allowed given).
Proof.
  unfold FlagsService.excluded, FlagsService.allows.
  destruct allowed as [l|], given as [s|]; try reflexivity.
  now rewrite negb_orb.
Qed.

(** The evaluation of flags.service.ts is the gated rollout of
    flag.service.ts: for a hash that is not negative, a flag is on exactly
    when the tier and the platform are let through and [calculateRollout]
    puts the user into the percentage. [defaultEnabled] has no say. *)
Theorem static_flag_is_gated_rollout flag input :
  0 <= murmurhash3 (FlagsService.FlagDefinition.key flag +:+ ":" +:+
                    FlagsService.EvaluateInput.userId input) ->
  FlagsService.evaluateFlag flag input
  = {| FlagsService.FlagValue.key := FlagsService.FlagDefinition.key flag;
       FlagsService.FlagValue.enabled :=
         FlagsService.allows (FlagsService.FlagDefinition.allowedTiers flag)
           (FlagsService.EvaluateInput.subscriptionTier input)
         && FlagsService.allows
              (FlagsService.FlagDefinition.allowedPlatforms flag)
              (FlagsService.EvaluateInput.platform input)
         && calculateRollout (FlagsService.FlagDefinition.key flag)
              (FlagsService.EvaluateInput.userId input)
              (FlagsService.FlagDefinition.rolloutPercentage flag) |}.
Proof.
  intros Hhash. unfold FlagsService.evaluateFlag, calculateRollout.
  rewrite !excluded_allows.
  destruct (FlagsService.allows (FlagsService.FlagDefinition.allowedTiers flag) _);
    [|reflexivity].
  destruct (FlagsService.allows
              (FlagsService.FlagDefinition.allowedPlatforms flag) _);
    [|reflexivity].
  cbn [negb andb].
  set (pct := FlagsService.FlagDefinition.rolloutPercentage flag).
  set (hash := murmurhash3 _) in *.
  assert (Hbucket : 0 <= Z.rem hash 100) by (apply Z.rem_nonneg; lia).
  destruct (pct >=? 100) eqn:Hfull.
  - rewrite Z.geb_leb in Hfull. apply Z.leb_le in Hfull.
    replace (pct <? 100) with false by (symmetry; apply Z.ltb_ge; lia).
    cbn [andb]. f_equal.
    replace (pct >? 0) with true
      by (symmetry; rewrite Z.gtb_ltb; apply Z.ltb_lt; lia).
    apply orb_true_r.
  - rewrite Z.geb_leb in Hfull. apply Z.leb_gt in Hfull.
    replace (pct <? 100) with true by (symmetry; apply Z.ltb_lt; lia).
    cbn [andb]. rewrite Z.geb_leb.
    destruct (pct <=? 0) eqn:Hnone.
    + apply Z.leb_le in Hnone.
      replace (pct <=? Z.rem hash 100) with true
        by (symmetry; apply Z.leb_le; lia).
      reflexivity.
    + apply Z.leb_gt in Hnone.
      destruct (pct <=? Z.rem hash 100) eqn:Hin.
      * apply Z.leb_le in Hin.
        replace (Z.rem hash 100 <? pct) with false
          by (symmetry; apply Z.ltb_ge; lia).
        reflexivity.
      * apply Z.leb_gt in Hin.
        replace (Z.rem hash 100 <? pct) with true
          by (symmetry; apply Z.ltb_lt; lia).
        f_equal.
        replace (pct >? 0) with true
          by (symmetry; rewrite Z.gtb_ltb; apply Z.ltb_lt; lia).
        apply orb_true_r.
Qed.

(** What [evaluateAllFlags] of flags.service.ts answers, whatever the hash:
    five flags in the order of the table, the time of the call, and nothing
    that depends on the platform, on the user id of the input or on
    [defaultEnabled]. The two flags at 100 percent hang on the tier alone,
    [new_editor_ui] on the bucket alone. *)
Theorem static_flag_table userId input w :
  let tier := FlagsService.EvaluateInput.subscriptionTier input in
  let bucket key := Z.rem (murmurhash3 (key +:+ ":" +:+ userId)) 100 in
  let paid := FlagsService.allows (Some ["premium"; "pro"; "enterprise"]) tier in
  let pro := FlagsService.allows (Some ["pro"; "enterprise"]) tier in
  FlagsService.evaluateAllFlags userId input w
  = (inr {| FlagsService.EvaluateResult.flags :=
              [ FlagsService.FlagValue.mk "ai_auto_enhance_v2"
                  (paid && (bucket "ai_auto_enhance_v2" <? 50));
                FlagsService.FlagValue.mk "new_editor_ui"
                  (bucket "new_editor_ui" <? 30);
                FlagsService.FlagValue.mk "video_4k_export" pro;
                FlagsService.FlagValue.mk "batch_processing" pro;
                FlagsService.FlagValue.mk "cloud_backup_v2"
                  (paid && (bucket "cloud_backup_v2" <? 20)) ];
            FlagsService.EvaluateResult.evaluatedAt := now w |},
     w).
Proof.
  intros tier bucket paid pro.
  unfold FlagsService.evaluateAllFlags, bind, clock, ret.
  do 2 f_equal. f_equal.
  cbn [List.map FlagsService.FLAG_DEFINITIONS].
  unfold FlagsService.evaluateFlag.
  cbn [FlagsService.FlagDefinition.key FlagsService.FlagDefinition.allowedTiers
       FlagsService.FlagDefinition.allowedPlatforms
       FlagsService.FlagDefinition.rolloutPercentage
       FlagsService.FlagDefinition.defaultEnabled
       FlagsService.with_userId FlagsService.EvaluateInput.userId
       FlagsService.EvaluateInput.subscriptionTier
       FlagsService.EvaluateInput.platform].
  rewrite !excluded_allows.
  fold tier. fold paid. fold pro.
  change (FlagsService.allows None (FlagsService.EvaluateInput.platform input))
    with true.
  change (FlagsService.allows None tier) with true.
  cbn [negb].
  change (50 <? 100) with true. change (30 <? 100) with true.
  change (20 <? 100) with true. change (100 <? 100) with false.
  change (100 >? 0) with true. change (50 >? 0) with true.
  change (30 >? 0) with true. change (20 >? 0) with true.
  cbn [andb orb].
  fold (bucket "ai_auto_enhance_v2"). fold (bucket "new_editor_ui").
  fold (bucket "cloud_backup_v2").
  rewrite !Z.geb_leb, !Z.ltb_antisym.
  destruct paid, pro;
    destruct (50 <=? bucket "ai_auto_enhance_v2"),
             (30 <=? bucket "new_editor_ui"),
             (20 <=? bucket "cloud_backup_v2"); reflexivity.
Qed.

End StaticFlags.

(** * Properties of the engine beyond JSON data *)

Lemma exact_loop_undefined `{Prototypes} parts :
  Exact.getContextValue_loop parts (Exact.Data Js.VUndefined)
  = Exact.Data Js.VUndefined.
Proof. destruct parts; reflexivity. Qed.

Lemma exact_loop_stuck `{Prototypes} part parts current :
  Exact.is_absent current = true
  \/ String.eqb (Exact.typeof current) "object" = false ->
  Exact.getContextValue_loop (part :: parts) current
  = Exact.Data Js.VUndefined.
Proof.
  intros [Habsent|Htype]; cbn [Exact.getContextValue_loop].
  - destruct current as [[]| | |]; try discriminate; reflexivity.
  - rewrite Htype. destruct current as [[]| | |]; reflexivity.
Qed.

Lemma exact_loop_step `{Prototypes} part parts current :
  Exact.is_absent current = false ->
  String.eqb (Exact.typeof current) "object" = true ->
  Exact.getContextValue_loop (part :: parts) current
  = Exact.getContextValue_loop parts (Exact.get current part).
Proof.
  intros Hpresent Htype. cbn [Exact.getContextValue_loop]. rewrite Htype.
  destruct current as [[]| | |]; try discriminate; reflexivity.
Qed.

Lemma exact_loop_app `{Prototypes} before after current :
  Exact.getContextValue_loop (before ++ after) current
  = Exact.getContextValue_loop after
      (Exact.getContextValue_loop before current).
Proof.
  revert current. induction before as [|part before IH]; intros current;
    [reflexivity|].
  cbn [app].
  destruct (Exact.is_absent current) eqn:Habsent.
  { rewrite !exact_loop_stuck by (left; exact Habsent).
    now rewrite exact_loop_undefined. }
  destruct (String.eqb (Exact.typeof current) "object") eqn:Htype.
  - rewrite !exact_loop_step by assumption. apply IH.
  - rewrite !exact_loop_stuck by (right; exact Htype).
    now rewrite exact_loop_undefined.
Qed.

Lemma exact_get_data `{Prototypes} v key :
  Exact.inherited key = false ->
  String.eqb (Js.typeof v) "object" = true ->
  Exact.get (Exact.Data v) key = Exact.Data (Js.get v key).
Proof.
  unfold Exact.inherited. intros Hkey Htype.
  apply orb_false_iff in Hkey as [Hkey Hobject].
  apply orb_false_iff in Hkey as [Hproto Harray].
  assert (Hom : Exact.object_member key = Exact.Data Js.VUndefined).
  { unfold Exact.object_member.
    now destruct (Exact.source_of key Object_prototype). }
  assert (Ham : Exact.array_member key = Exact.Data Js.VUndefined).
  { unfold Exact.array_member.
    now destruct (Exact.source_of key Array_prototype). }
  destruct v as [| |b|x|str|xs|props]; try discriminate;
    cbn [Exact.get Js.get]; [reflexivity| |].
  - unfold Exact.array_own, Js.element.
    destruct (Js.array_index key) as [i|].
    + destruct (i <? Z.of_nat (List.length xs)); [reflexivity|].
      now rewrite Hproto, Ham.
    + destruct (String.eqb key "length"); [reflexivity|].
      now rewrite Hproto, Ham.
  - destruct (Js.assoc key props); [reflexivity|].
    now rewrite Hproto, Hom.
Qed.

Lemma exact_loop_data `{Prototypes} parts v :
  List.forallb (fun part => negb (Exact.inherited part)) parts = true ->
  Exact.getContextValue_loop parts (Exact.Data v)
  = Exact.Data (getContextValue_loop parts v).
Proof.
  revert v. induction parts as [|part parts IH]; intros v Hparts;
    [reflexivity|].
  cbn [List.forallb] in Hparts. apply andb_true_iff in Hparts as [Hpart Hparts].
  apply negb_true_iff in Hpart.
  destruct (Exact.is_absent (Exact.Data v)) eqn:Habsent.
  { rewrite exact_loop_stuck by (left; exact Habsent).
    destruct v; try discriminate; reflexivity. }
  destruct (String.eqb (Js.typeof v) "object") eqn:Htype.
  - rewrite exact_loop_step by assumption.
    rewrite exact_get_data by assumption. rewrite IH by exact Hparts.
    destruct v; try discriminate; reflexivity.
  - rewrite exact_loop_stuck by (right; exact Htype).
    destruct v; try discriminate; reflexivity.
Qed.

Lemma ToString_elements_sound xs :
  List.Forall
    (fun x => forall s, Exact.ToString_data x = Some s -> Js.ToString x = s)
    xs ->
  forall l,
    List.fold_right
      (fun x rest =>
         match
           match x with
           | Js.VUndefined | Js.VNull => Some EmptyString
           | _ => Exact.ToString_data x
           end, rest
         with
         | Some s, Some l => Some (s :: l)
         | _, _ => None
         end)
      (Some []) xs = Some l ->
    List.map
      (fun x => match x with
                | Js.VUndefined | Js.VNull => EmptyString
                | _ => Js.ToString x
                end) xs = l.
Proof.
  induction 1 as [|y ys Hy _ IH]; intros l Hfold.
  - cbn in Hfold. now injection Hfold as <-.
  - cbn [List.fold_right] in Hfold. cbn [List.map].
    destruct (List.fold_right _ (Some []) ys) as [l'|] eqn:Hrest.
    + rewrite (IH l' eq_refl).
      destruct y as [| |b|x|str|zs|props];
        try (now injection Hfold as <-);
        match type of Hfold with
        | context [Exact.ToString_data ?v] =>
            destruct (Exact.ToString_data v) as [t|] eqn:Ht; [|discriminate];
            injection Hfold as <-; now rewrite (Hy t eq_refl)
        end.
    + destruct y as [| |b|x|str|zs|props]; try discriminate;
        destruct (Exact.ToString_data _); discriminate.
Qed.

(** Where [String] returns, it returns what the definition on JSON data
    says. *)
Lemma ToString_data_sound v s :
  Exact.ToString_data v = Some s -> Js.ToString v = s.
Proof.
  revert v s. fix IH 1. intros [| |b|x|str|xs|props] s;
    cbn [Exact.ToString_data Js.ToString];
    try (now intros [= <-]).
  - (* arrays *)
    intros Hs.
    destruct (List.fold_right _ (Some []) xs) as [l|] eqn:Hfold;
      [|discriminate].
    injection Hs as <-. f_equal.
    apply ToString_elements_sound; [|exact Hfold].
    exact ((fix elements (ys : list Js.value)
              : List.Forall
                  (fun x => forall s, Exact.ToString_data x = Some s ->
                                      Js.ToString x = s) ys :=
              match ys with
              | [] => @List.Forall_nil _ _
              | y :: ys' => @List.Forall_cons _ _ y ys' (IH y) (elements ys')
              end) xs).
  - (* objects *)
    destruct (Js.assoc "toString" props); [discriminate|]. now intros [= <-].
Qed.

Lemma map_String_sound xs l :
  Exact.map_String xs = Some l -> List.map Js.ToString xs = l.
Proof.
  revert l. induction xs as [|x xs IH]; intros l; cbn.
  - now intros [= <-].
  - destruct (Exact.ToString_data x) as [s|] eqn:Hs; [|discriminate].
    destruct (Exact.map_String xs) as [l'|]; [|discriminate].
    intros [= <-]. now rewrite (ToString_data_sound _ _ Hs), (IH l' eq_refl).
Qed.

(** An array [String] returns on has elements [String] returns on. *)
Lemma map_String_coerces xs :
  Exact.coerces (Exact.Data (Js.VArray xs)) = true ->
  exists l, Exact.map_String xs = Some l.
Proof.
  unfold Exact.coerces. cbn [Exact.ToString Exact.ToString_data].
  destruct (List.fold_right _ (Some []) xs) as [l|] eqn:Hfold;
    [intros _|discriminate].
  revert l Hfold. induction xs as [|x xs IH]; intros l Hfold.
  - now exists [].
  - cbn [List.fold_right] in Hfold. cbn [Exact.map_String].
    destruct (List.fold_right _ (Some []) xs) as [l'|] eqn:Hrest.
    + destruct (IH l' eq_refl) as [m ->].
      destruct (Exact.ToString_data x) as [t|] eqn:Ht; [eauto|].
      destruct x; try discriminate Ht; discriminate Hfold.
    + destruct x; try discriminate;
        destruct (Exact.ToString_data _); discriminate.
Qed.

Lemma map_String_throws xs :
  Exact.map_String xs = None ->
  Exact.coerces (Exact.Data (Js.VArray xs)) = false.
Proof.
  intros Hnone.
  destruct (Exact.coerces (Exact.Data (Js.VArray xs))) eqn:Hc;
    [|reflexivity].
  destruct (map_String_coerces xs Hc) as [l Hl]. congruence.
Qed.

Lemma ToNumber_coerces v :
  is_some (Exact.ToNumber v) = Exact.coerces v.
Proof.
  unfold Exact.coerces. destruct v as [[]| | |]; try reflexivity;
    cbn [Exact.ToNumber]; now destruct (Exact.ToString _).
Qed.

Lemma ToNumber_sound v x :
  Exact.ToNumber (Exact.Data v) = Some x -> Js.ToNumber v = x.
Proof.
  destruct v as [| |b|y|str|xs|props]; cbn [Exact.ToNumber Js.ToNumber];
    try (now intros [= <-]).
  - cbn [Exact.ToString].
    destruct (Exact.ToString_data (Js.VArray xs)) as [s|] eqn:Hs;
      [|discriminate].
    intros [= <-]. now rewrite (ToString_data_sound _ _ Hs).
  - cbn [Exact.ToString].
    destruct (Exact.ToString_data (Js.VObject props)) as [s|] eqn:Hs;
      [|discriminate].
    intros [= <-]. now rewrite (ToString_data_sound _ _ Hs).
Qed.

Lemma coerces_data v :
  Exact.coerces (Exact.Data v) = true ->
  Exact.ToString_data v = Some (Js.ToString v)
  /\ Exact.ToNumber (Exact.Data v) = Some (Js.ToNumber v).
Proof.
  intros Hc. pose proof (ToNumber_coerces (Exact.Data v)) as Hn.
  rewrite Hc in Hn. unfold Exact.coerces in Hc. cbn [Exact.ToString] in Hc.
  destruct (Exact.ToString_data v) as [s|] eqn:Hs; [|discriminate].
  destruct (Exact.ToNumber (Exact.Data v)) as [x|] eqn:Hx; [|discriminate].
  now rewrite (ToString_data_sound _ _ Hs), (ToNumber_sound _ _ Hx).
Qed.

Section ExactProperties.
Context `{Runtime} `{Prototypes}.

Lemma exact_matching_absent contextValue condition :
  Exact.is_absent contextValue = true ->
  Exact.matchesSingleCondition contextValue condition
  = Some (if String.eqb (FlagCondition.operator condition) "neq"
             || String.eqb (FlagCondition.operator condition) "not_in"
          then true else false).
Proof. destruct contextValue as [[]| | |]; try discriminate; reflexivity. Qed.

Lemma exact_matching_present contextValue condition :
  Exact.is_absent contextValue = false ->
  Exact.matchesSingleCondition contextValue condition
  = let operator := FlagCondition.operator condition in
    let conditionValue := FlagCondition.value condition in
    if String.eqb operator "eq" then
      match Exact.ToString contextValue, Exact.ToString_data conditionValue with
      | Some a, Some b => Some (String.eqb a b)
      | _, _ => None
      end
    else if String.eqb operator "neq" then
      match Exact.ToString contextValue, Exact.ToString_data conditionValue with
      | Some a, Some b => Some (negb (String.eqb a b))
      | _, _ => None
      end
    else if String.eqb operator "gt" then
      Exact.compareValues contextValue (Exact.Data conditionValue)
        (fun semResult => semResult >? 0) Js.num_gt
    else if String.eqb operator "gte" then
      Exact.compareValues contextValue (Exact.Data conditionValue)
        (fun semResult => semResult >=? 0) Js.num_ge
    else if String.eqb operator "lt" then
      Exact.compareValues contextValue (Exact.Data conditionValue)
        (fun semResult => semResult <? 0) Js.num_lt
    else if String.eqb operator "lte" then
      Exact.compareValues contextValue (Exact.Data conditionValue)
        (fun semResult => semResult <=? 0) Js.num_le
    else if String.eqb operator "in" then
      match conditionValue with
      | Js.VArray xs =>
          match Exact.map_String xs, Exact.ToString contextValue with
          | Some strings, Some s => Some (Js.array_includes strings s)
          | _, _ => None
          end
      | _ => Some false
      end
    else if String.eqb operator "not_in" then
      match conditionValue with
      | Js.VArray xs =>
          match Exact.map_String xs, Exact.ToString contextValue with
          | Some strings, Some s => Some (negb (Js.array_includes strings s))
          | _, _ => None
          end
      | _ => Some true
      end
    else if String.eqb operator "contains" then
      match Exact.ToString contextValue, Exact.ToString_data conditionValue with
      | Some a, Some b => Some (Js.includes a b)
      | _, _ => None
      end
    else if String.eqb operator "regex" then
      match Exact.ToString_data conditionValue with
      | None => Some false
      | Some pattern =>
          match RegExp_new pattern with
          | None => Some false
          | Some regex =>
              match Exact.ToString contextValue with
              | None => Some false
              | Some s => Some (RegExp_test regex s)
              end
          end
      end
    else Some false.
Proof. destruct contextValue as [[]| | |]; try discriminate; reflexivity. Qed.

Lemma compareValues_returns contextValue conditionValue sem num :
  Exact.coerces contextValue = true ->
  Exact.coerces conditionValue = true ->
  exists b, Exact.compareValues contextValue conditionValue sem num = Some b.
Proof.
  intros Hc Hv. unfold Exact.compareValues.
  pose proof (ToNumber_coerces contextValue) as Hn.
  pose proof (ToNumber_coerces conditionValue) as Hm.
  rewrite Hc in Hn. rewrite Hv in Hm. unfold Exact.coerces in Hc, Hv.
  destruct (Exact.ToNumber contextValue); [|discriminate].
  destruct (Exact.ToNumber conditionValue); [|discriminate].
  destruct (Exact.ToString contextValue); [|discriminate].
  destruct (Exact.ToString conditionValue); [|discriminate].
  destruct (_ && _); [|eauto]. destruct (_ && _); eauto.
Qed.

Lemma compareValues_throws contextValue conditionValue sem num :
  Exact.compareValues contextValue conditionValue sem num = None ->
  Exact.coerces contextValue = false \/ Exact.coerces conditionValue = false.
Proof.
  intros Hnone.
  destruct (Exact.coerces contextValue) eqn:Hc; [|now left].
  destruct (Exact.coerces conditionValue) eqn:Hv; [|now right].
  destruct (compareValues_returns _ _ sem num Hc Hv) as [b Hb]. congruence.
Qed.

Lemma coerces_false v :
  Exact.coerces v = false ->
  String.eqb (Exact.typeof v) "string" = false /\ Exact.ToNumber v = None.
Proof.
  intros Hc. pose proof (ToNumber_coerces v) as Hn. rewrite Hc in Hn. split.
  - destruct v as [[]| | |]; try discriminate Hc; reflexivity.
  - destruct (Exact.ToNumber v); [discriminate|reflexivity].
Qed.

Lemma compareValues_raises contextValue conditionValue sem num :
  Exact.coerces contextValue = false \/ Exact.coerces conditionValue = false ->
  Exact.compareValues contextValue conditionValue sem num = None.
Proof.
  unfold Exact.compareValues. intros [Hc|Hv].
  - destruct (coerces_false _ Hc) as [-> ->]. reflexivity.
  - destruct (coerces_false _ Hv) as [-> ->]. rewrite andb_false_r.
    now destruct (Exact.ToNumber contextValue).
Qed.

Lemma compareValues_data v cv sem num :
  Exact.coerces (Exact.Data v) = true ->
  Exact.coerces (Exact.Data cv) = true ->
  Exact.compareValues (Exact.Data v) (Exact.Data cv) sem num
  = Some
      (if String.eqb (Js.typeof v) "string"
          && String.eqb (Js.typeof cv) "string"
       then
         if is_some (parseSemver (Js.ToString v))
            && is_some (parseSemver (Js.ToString cv))
         then sem (compareSemver (Js.ToString v) (Js.ToString cv))
         else num (Js.ToNumber v) (Js.ToNumber cv)
       else num (Js.ToNumber v) (Js.ToNumber cv)).
Proof.
  intros Hc Hv.
  destruct (coerces_data v Hc) as [Hs Hn].
  destruct (coerces_data cv Hv) as [Ht Hm].
  unfold Exact.compareValues. cbn [Exact.ToString Exact.typeof].
  rewrite Hs, Ht, Hn, Hm.
  destruct (_ && _); [|reflexivity]. now destruct (_ && _).
Qed.

(** C3, amended. Resolution walks the dotted path through the properties
    an object has or inherits. With [before ++ part :: after] the segments
    of the field and [current] the value reached after [before]: the result
    is undefined when [current] is null or undefined or when its [typeof] is
    not ['object'] (a boolean, a number, a string, a function); otherwise the
    walk goes on from [current[part]]. On a mapping that is an own property
    if there is one, the prototype object for ['__proto__'], a built-in
    function for an inherited member such as ['constructor'] (the result if
    it is the last segment, undefined if more follow), and undefined for
    every other name. On an array it is the element for an index within the
    array and the length for ['length']. When the resolved value is
    undefined or null, neq and not_in match and every other operator
    fails. *)
Theorem getContextValue_resolution context field before part after :
  Js.split "." field = before ++ part :: after ->
  let current :=
    Exact.getContextValue_loop before (Exact.Data (Js.VObject context)) in
  (Exact.is_absent current = true
   \/ String.eqb (Exact.typeof current) "object" = false ->
   Exact.getContextValue context field = Exact.Data Js.VUndefined)
  /\ (Exact.is_absent current = false ->
      String.eqb (Exact.typeof current) "object" = true ->
      Exact.getContextValue context field
      = Exact.getContextValue_loop after (Exact.get current part))
  /\ (forall props,
        current = Exact.Data (Js.VObject props) ->
        (forall x, Js.assoc part props = Some x ->
                   Exact.get current part = Exact.Data x)
        /\ (Js.assoc part props = None ->
            (part = "__proto__" ->
             Exact.get current part = Exact.ObjectPrototype)
            /\ (forall source,
                  part <> "__proto__" ->
                  Exact.source_of part Object_prototype = Some source ->
                  Exact.get current part = Exact.Function source
                  /\ Exact.getContextValue context field
                     = match after with
                       | [] => Exact.Function source
                       | _ :: _ => Exact.Data Js.VUndefined
                       end)
            /\ (part <> "__proto__" ->
                Exact.source_of part Object_prototype = None ->
                Exact.getContextValue context field
                = Exact.Data Js.VUndefined)))
  /\ (forall xs,
        current = Exact.Data (Js.VArray xs) ->
        (forall i, Js.array_index part = Some i ->
                   i < Z.of_nat (List.length xs) ->
                   Exact.get current part = Exact.Data (Js.element xs i))
        /\ (part = "length" ->
            Exact.get current part
            = Exact.Data (Js.VNumber (Js.of_Z (Z.of_nat (List.length xs)))))
        /\ (Exact.inherited part = false ->
            Exact.get current part
            = Exact.Data (Js.get (Js.VArray xs) part)))
  /\ (forall contextValue condition,
        Exact.is_absent contextValue = true ->
        Exact.matchesSingleCondition contextValue condition
        = Some (if String.eqb (FlagCondition.operator condition) "neq"
                   || String.eqb (FlagCondition.operator condition) "not_in"
                then true else false)).
Proof.
  intros Hsplit current.
  assert (Hwalk : Exact.getContextValue context field
                  = Exact.getContextValue_loop (part :: after) current).
  { unfold Exact.getContextValue. rewrite Hsplit. apply exact_loop_app. }
  split; [|split; [|split; [|split]]].
  - intros Hstuck. rewrite Hwalk. now apply exact_loop_stuck.
  - intros Hpresent Htype. rewrite Hwalk. now apply exact_loop_step.
  - intros props Hcurrent. rewrite Hwalk, Hcurrent.
    rewrite exact_loop_step by reflexivity.
    cbn [Exact.get]. split.
    + intros x Hx. now rewrite Hx.
    + intros Hmissing. rewrite Hmissing. split; [|split].
      * intros ->. reflexivity.
      * intros source Hproto Hsource.
        apply String.eqb_neq in Hproto. rewrite Hproto.
        unfold Exact.object_member. rewrite Hsource.
        split; [reflexivity|]. now destruct after.
      * intros Hproto Hnone.
        apply String.eqb_neq in Hproto. rewrite Hproto.
        unfold Exact.object_member. rewrite Hnone.
        apply exact_loop_undefined.
  - intros xs Hcurrent. rewrite Hcurrent. split; [|split].
    + intros i Hi Hin. cbn [Exact.get]. unfold Exact.array_own, Js.element.
      rewrite Hi. apply Z.ltb_lt in Hin. now rewrite Hin.
    + intros ->. reflexivity.
    + intros Hplain. now apply exact_get_data.
  - apply exact_matching_absent.
Qed.

(** C7, amended. With a present context value, the malformed input the
    engine names is turned into a boolean: a regex operand that does not
    compile gives false, and so does any coercion that throws inside the
    try, so regex always returns; an operand that is not an array gives
    false for in and true for not_in, whatever the context value; an
    operator outside the known ones gives false. Matching is not total for
    all that: eq, neq, contains and the four ordering operators throw as
    soon as the context value or the operand is one [String] throws on, and
    nothing else makes matching throw. When [String] returns on both,
    matching returns, and on data it returns the boolean of the definition
    on JSON data. *)
Theorem malformed_condition_absorbed contextValue condition :
  Exact.is_absent contextValue = false ->
  let operator := FlagCondition.operator condition in
  let conditionValue := FlagCondition.value condition in
  let result := Exact.matchesSingleCondition contextValue condition in
  (operator = "regex" ->
   (forall pattern,
      Exact.ToString_data conditionValue = Some pattern ->
      RegExp_new pattern = None -> result = Some false)
   /\ (Exact.coerces contextValue = false
       \/ Exact.coerces (Exact.Data conditionValue) = false ->
       result = Some false)
   /\ exists b, result = Some b)
  /\ (operator = "in" -> Js.isArray conditionValue = false ->
      result = Some false)
  /\ (operator = "not_in" -> Js.isArray conditionValue = false ->
      result = Some true)
  /\ (~ In operator known_operators -> result = Some false)
  /\ (In operator ["eq"; "neq"; "gt"; "gte"; "lt"; "lte"; "contains"] ->
      Exact.coerces contextValue = false
      \/ Exact.coerces (Exact.Data conditionValue) = false ->
      result = None)
  /\ (result = None ->
      Exact.coerces contextValue = false
      \/ Exact.coerces (Exact.Data conditionValue) = false)
  /\ (Exact.coerces contextValue = true ->
      Exact.coerces (Exact.Data conditionValue) = true ->
      (exists b, result = Some b)
      /\ forall v, contextValue = Exact.Data v ->
                   result = Some (matchesSingleCondition v condition)).
Proof.
  intros Hpresent operator conditionValue result.
  assert (Hresult := exact_matching_present contextValue condition Hpresent).
  fold result in Hresult. cbn zeta in Hresult.
  fold operator conditionValue in Hresult.
  unfold Exact.coerces. cbn [Exact.ToString].
  split; [|split; [|split; [|split; [|split; [|split]]]]].
  - intros Hop. rewrite Hresult, Hop. cbn [String.eqb Ascii.eqb Bool.eqb].
    split; [|split].
    + intros pattern -> ->. reflexivity.
    + intros [Hc|Hv].
      * destruct (Exact.ToString_data conditionValue); [|reflexivity].
        destruct (RegExp_new _); [|reflexivity].
        now destruct (Exact.ToString contextValue).
      * now destruct (Exact.ToString_data conditionValue).
    + destruct (Exact.ToString_data conditionValue); [|eauto].
      destruct (RegExp_new _); [|eauto].
      destruct (Exact.ToString contextValue); eauto.
  - intros Hop Harr. rewrite Hresult, Hop. cbn [String.eqb Ascii.eqb Bool.eqb].
    destruct conditionValue; try discriminate Harr; reflexivity.
  - intros Hop Harr. rewrite Hresult, Hop. cbn [String.eqb Ascii.eqb Bool.eqb].
    destruct conditionValue; try discriminate Harr; reflexivity.
  - intros Hunknown.
    destruct (eqb_known_operator operator Hunknown)
      as (E1 & E2 & E3 & E4 & E5 & E6 & E7 & E8 & E9 & E10).
    rewrite Hresult, E1, E2, E3, E4, E5, E6, E7, E8, E9, E10. reflexivity.
  - intros Hop Hthrows. rewrite Hresult.
    assert (Hnone : forall f : string -> string -> bool,
              match Exact.ToString contextValue,
                    Exact.ToString_data conditionValue with
              | Some a, Some b => Some (f a b)
              | _, _ => None
              end = None).
    { intros f. destruct Hthrows as [Hc|Hv].
      - now destruct (Exact.ToString contextValue).
      - destruct (Exact.ToString contextValue); [|reflexivity].
        now destruct (Exact.ToString_data conditionValue). }
    destruct Hop as [<-|[<-|[<-|[<-|[<-|[<-|[<-|[]]]]]]]];
      cbn [String.eqb Ascii.eqb Bool.eqb].
    + apply Hnone.
    + apply (Hnone (fun a b => negb (String.eqb a b))).
    + now apply compareValues_raises.
    + now apply compareValues_raises.
    + now apply compareValues_raises.
    + now apply compareValues_raises.
    + apply Hnone.
  - rewrite Hresult. clear Hresult.
    assert (Hpair : forall f : string -> string -> bool,
              match Exact.ToString contextValue,
                    Exact.ToString_data conditionValue with
              | Some a, Some b => Some (f a b)
              | _, _ => None
              end = None ->
              is_some (Exact.ToString contextValue) = false
              \/ is_some (Exact.ToString_data conditionValue) = false).
    { intros f. destruct (Exact.ToString contextValue); [|now left].
      destruct (Exact.ToString_data conditionValue); [discriminate|now right]. }
    assert (Hlist : forall (f : list string -> string -> bool) xs,
              conditionValue = Js.VArray xs ->
              match Exact.map_String xs, Exact.ToString contextValue with
              | Some strings, Some s => Some (f strings s)
              | _, _ => None
              end = None ->
              is_some (Exact.ToString contextValue) = false
              \/ is_some (Exact.ToString_data conditionValue) = false).
    { intros f xs -> Hnone.
      destruct (Exact.map_String xs) eqn:Hxs.
      - destruct (Exact.ToString contextValue); [discriminate|now left].
      - right. exact (map_String_throws xs Hxs). }
    destruct (String.eqb operator "eq"); [apply Hpair|].
    destruct (String.eqb operator "neq");
      [apply (Hpair (fun a b => negb (String.eqb a b)))|].
    destruct (String.eqb operator "gt"); [apply compareValues_throws|].
    destruct (String.eqb operator "gte"); [apply compareValues_throws|].
    destruct (String.eqb operator "lt"); [apply compareValues_throws|].
    destruct (String.eqb operator "lte"); [apply compareValues_throws|].
    destruct (String.eqb operator "in").
    { destruct conditionValue eqn:Hcv; try discriminate.
      apply (Hlist Js.array_includes xs eq_refl). }
    destruct (String.eqb operator "not_in").
    { destruct conditionValue eqn:Hcv; try discriminate.
      apply (Hlist (fun l s => negb (Js.array_includes l s)) xs eq_refl). }
    destruct (String.eqb operator "contains"); [apply Hpair|].
    destruct (String.eqb operator "regex"); [|discriminate].
    destruct (Exact.ToString_data conditionValue); [|discriminate].
    destruct (RegExp_new _); [|discriminate].
    destruct (Exact.ToString contextValue); discriminate.
  - intros Hc Hv.
    assert (Hdata : forall v, contextValue = Exact.Data v ->
                              result = Some (matchesSingleCondition v condition)).
    { intros v ->. rewrite Hresult. clear Hresult.
      destruct (coerces_data v Hc) as [Hs Hn].
      destruct (coerces_data conditionValue Hv) as [Ht Hm].
      cbn [Exact.ToString]. rewrite Hs, Ht.
      rewrite !compareValues_data by assumption.
      assert (Hin : forall xs, conditionValue = Js.VArray xs ->
                Exact.map_String xs = Some (List.map Js.ToString xs)).
      { intros xs Hxs. rewrite Hxs in Hv.
        destruct (map_String_coerces xs Hv) as [l Hl].
        now rewrite Hl, (map_String_sound _ _ Hl). }
      unfold matchesSingleCondition.
      fold operator conditionValue.
      destruct v; try discriminate Hpresent;
        (destruct (String.eqb operator "eq"); [reflexivity|]);
        (destruct (String.eqb operator "neq"); [reflexivity|]);
        (destruct (String.eqb operator "gt"); [reflexivity|]);
        (destruct (String.eqb operator "gte"); [reflexivity|]);
        (destruct (String.eqb operator "lt"); [reflexivity|]);
        (destruct (String.eqb operator "lte"); [reflexivity|]);
        (destruct (String.eqb operator "in");
         [destruct conditionValue; try reflexivity;
          now rewrite (Hin _ eq_refl)|]);
        (destruct (String.eqb operator "not_in");
         [destruct conditionValue; try reflexivity;
          now rewrite (Hin _ eq_refl)|]);
        (destruct (String.eqb operator "contains"); [reflexivity|]);
        (destruct (String.eqb operator "regex"); [|reflexivity]);
        now destruct (RegExp_new _). }
    split.
    + rewrite Hresult.
      assert (Hs : exists a, Exact.ToString contextValue = Some a)
        by (destruct (Exact.ToString contextValue); [eauto|discriminate]).
      assert (Ht : exists b, Exact.ToString_data conditionValue = Some b)
        by (destruct (Exact.ToString_data conditionValue);
            [eauto|discriminate]).
      destruct Hs as [a Hs], Ht as [b Ht]. rewrite Hs, Ht.
      destruct (String.eqb operator "eq"); [eauto|].
      destruct (String.eqb operator "neq"); [eauto|].
      destruct (String.eqb operator "gt");
        [apply compareValues_returns; unfold Exact.coerces;
         cbn [Exact.ToString]; now rewrite ?Hs, ?Ht|].
      destruct (String.eqb operator "gte");
        [apply compareValues_returns; unfold Exact.coerces;
         cbn [Exact.ToString]; now rewrite ?Hs, ?Ht|].
      destruct (String.eqb operator "lt");
        [apply compareValues_returns; unfold Exact.coerces;
         cbn [Exact.ToString]; now rewrite ?Hs, ?Ht|].
      destruct (String.eqb operator "lte");
        [apply compareValues_returns; unfold Exact.coerces;
         cbn [Exact.ToString]; now rewrite ?Hs, ?Ht|].
      destruct (String.eqb operator "in").
      { destruct conditionValue eqn:Hcv; eauto.
        destruct (map_String_coerces xs) as [l ->]; [|eauto].
        unfold Exact.coerces. cbn [Exact.ToString]. now rewrite Ht. }
      destruct (String.eqb operator "not_in").
      { destruct conditionValue eqn:Hcv; eauto.
        destruct (map_String_coerces xs) as [l ->]; [|eauto].
        unfold Exact.coerces. cbn [Exact.ToString]. now rewrite Ht. }
      destruct (String.eqb operator "contains"); [eauto|].
      destruct (String.eqb operator "regex"); [|eauto].
      destruct (RegExp_new b); eauto.
    + exact Hdata.
Qed.

(** Resolution composes along the path, and on paths that name no inherited
    member it is the resolution on JSON data. A field without a dot is what
    the context has or inherits under that name; a field [a.f] goes on with
    [f] from there: inside the object found under [a], and to undefined when
    [a] names nothing the context has or inherits. *)
Theorem getContextValue_composes context a :
  has_dot a = false ->
  Exact.getContextValue context a
  = Exact.get (Exact.Data (Js.VObject context)) a
  /\ (forall f,
        Exact.getContextValue context (a +:+ "." +:+ f)
        = Exact.getContextValue_loop (Js.split "." f)
            (Exact.get (Exact.Data (Js.VObject context)) a))
  /\ (forall f inner,
        Js.assoc a context = Some (Js.VObject inner) ->
        Exact.getContextValue context (a +:+ "." +:+ f)
        = Exact.getContextValue inner f)
  /\ (forall f,
        Js.assoc a context = None -> Exact.inherited a = false ->
        Exact.getContextValue context (a +:+ "." +:+ f)
        = Exact.Data Js.VUndefined)
  /\ (forall field,
        List.forallb (fun part => negb (Exact.inherited part))
          (Js.split "." field) = true ->
        Exact.getContextValue context field
        = Exact.Data (getContextValue context field)).
Proof.
  intros Ha.
  assert (Hstep : forall f,
            Exact.getContextValue context (a +:+ "." +:+ f)
            = Exact.getContextValue_loop (Js.split "." f)
                (Exact.get (Exact.Data (Js.VObject context)) a)).
  { intros f. unfold Exact.getContextValue.
    rewrite split_prefix by exact Ha. now apply exact_loop_step. }
  split; [|split; [|split; [|split]]].
  - unfold Exact.getContextValue. now rewrite split_no_dot.
  - exact Hstep.
  - intros f inner Hinner. rewrite Hstep. cbn [Exact.get].
    now rewrite Hinner.
  - intros f Hmissing Hplain. rewrite Hstep.
    rewrite exact_get_data by (exact Hplain || reflexivity).
    cbn [Js.get]. rewrite Hmissing. apply exact_loop_undefined.
  - intros field Hplain. unfold Exact.getContextValue, getContextValue.
    now apply exact_loop_data.
Qed.

End ExactProperties.

(** * The statements at work on concrete inputs *)

#[local] Existing Instance Sample.runtime.
#[local] Existing Instance V8.prototypes.

Example scenario_pro_tier :
  evaluateSingleFlag (Sample.flag_with (Some true)) Sample.pro_context
  = rule_result (Sample.flag_with (Some true)) Sample.tier_rule.
Proof. reflexivity. Qed.

Example scenario_free_tier :
  evaluateSingleFlag (Sample.flag_with (Some true)) [("tier", Js.VString "free")]
  = default_result (Sample.flag_with (Some true)).
Proof. reflexivity. Qed.

Example priorities_10_5_20 :
  List.map StoredRule.priority
    (Js.sort by_priority
       (List.map (fun p => {| StoredRule.id := "r";
                              StoredRule.priority := p;
                              StoredRule.conditions := [];
                              StoredRule.value := Js.VNull;
                              StoredRule.rolloutPercentage := None |})
                 [10; 5; 20]))
  = [5; 10; 20].
Proof. reflexivity. Qed.

Lemma null_enabled_is_disabled_witness :
  StoredFlag.enabled (Sample.flag_with None) = None
  /\ evaluateSingleFlag (Sample.flag_with None) Sample.pro_context
     = disabled_result (Sample.flag_with None).
Proof.
  split; [reflexivity|].
  apply (@null_enabled_is_disabled Sample.runtime (Sample.flag_with None)
           Sample.pro_context eq_refl).
Defined.

Lemma calculateRollout_spec_witness :
  let hash := Sample.murmur3_x86_32 "new_editor_ui:user-42" in
  (0 < 30 < 100 /\ 0 <= hash)
  /\ 0 <= hash mod 100 <= 99
  /\ (@calculateRollout Sample.runtime "new_editor_ui" "user-42" 30 = true
      <-> hash mod 100 < 30).
Proof.
  intros hash.
  assert (Hp : 0 < 30 < 100) by lia.
  assert (Hh : 0 <= hash) by (vm_compute; discriminate).
  split; [split; assumption|].
  exact (proj2 (proj2 (proj2
           (@calculateRollout_spec Sample.runtime "new_editor_ui" "user-42" 30)))
           Hp Hh).
Defined.

Example absent_field_neq_matches :
  let context : FlagEvaluationContext := [] in
  @matchesSingleCondition Sample.runtime (getContextValue context "x.y")
    {| FlagCondition.field := "x.y"; FlagCondition.operator := "neq";
       FlagCondition.value := Js.VString "a" |} = true
  /\ @matchesSingleCondition Sample.runtime (getContextValue context "x.y")
       {| FlagCondition.field := "x.y"; FlagCondition.operator := "eq";
          FlagCondition.value := Js.VString "a" |} = false.
Proof. split; reflexivity. Qed.


Example gt_semver_1_10_0_over_1_9_0 :
  @matchesSingleCondition Sample.runtime (Js.VString "1.10.0")
    (Sample.condition "gt" (Js.VString "1.9.0")) = true
  /\ @matchesSingleCondition Sample.runtime (Js.VString "1.9.0")
       (Sample.condition "gt" (Js.VString "1.10.0")) = false.
Proof. split; vm_compute; reflexivity. Qed.

Example gt_numeric_10_over_9 :
  both_semver (Js.VString "10") (Js.VString "9") = false
  /\ @matchesSingleCondition Sample.runtime (Js.VString "10")
       (Sample.condition "gt" (Js.VString "9")) = true
  /\ Js.str_lt "10" "9" = true.
Proof. repeat split; vm_compute; reflexivity. Qed.

(** C5, as stated, fails: for two strings that are not versions the
    comparator answers -1, the very answer it gives for two versions in
    ascending order, so its result does not tell the two cases apart. *)
Lemma compareSemver_result_is_not_distinguishable :
  parseSemver "abc" = None
  /\ compareSemver "abc" "abd" = -1
  /\ (exists aParts bParts,
        parseSemver "1.0.0" = Some aParts /\ parseSemver "2.0.0" = Some bParts)
  /\ compareSemver "1.0.0" "2.0.0" = -1
  /\ ~ (exists not_a_semver : Z -> bool,
          forall a b,
            not_a_semver (compareSemver a b) = true
            <-> (parseSemver a = None \/ parseSemver b = None)).
Proof.
  split; [reflexivity|]. split; [reflexivity|].
  split; [eexists _, _; split; reflexivity|].
  split; [vm_compute; reflexivity|].
  intros [f Hf].
  assert (H1 : f (-1) = true)
    by (apply (Hf "abc" "abd"); left; reflexivity).
  assert (H2 : parseSemver "1.0.0" = None \/ parseSemver "2.0.0" = None)
    by (apply (Hf "1.0.0" "2.0.0"); exact H1).
  destruct H2 as [H2|H2]; vm_compute in H2; discriminate.
Qed.

Lemma compareSemver_total_with_string_fallback_witness :
  parseSemver "abc" = None
  /\ compareSemver "abc" "abd"
     = if Js.str_lt "abc" "abd" then -1
       else if Js.str_gt "abc" "abd" then 1 else 0.
Proof.
  split; [reflexivity|].
  exact (proj1 (proj2
           (@compareSemver_total_with_string_fallback Sample.runtime "abc" "abd"))
           (or_introl eq_refl)).
Defined.

Lemma evaluateFlag_unknown_key_witness :
  loadAllFlags Sample.world = (inr Sample.loaded_flags, Sample.world_loaded)
  /\ (forall f, In f Sample.loaded_flags -> StoredFlag.key f <> "missing_flag")
  /\ @evaluateFlag Sample.runtime "missing_flag" [] Sample.world
     = (inr (unknown_result "missing_flag"), Sample.world_loaded).
Proof.
  assert (Hload : loadAllFlags Sample.world
                  = (inr Sample.loaded_flags, Sample.world_loaded))
    by reflexivity.
  assert (Hunknown : forall f, In f Sample.loaded_flags ->
                               StoredFlag.key f <> "missing_flag")
    by (intros f [<-|[]]; discriminate).
  split; [exact Hload|]. split; [exact Hunknown|].
  exact (@evaluateFlag_unknown_key Sample.runtime "missing_flag" []
           Sample.world Sample.loaded_flags Sample.world_loaded Hload Hunknown).
Defined.

Lemma invalidation_frame_witness :
  faults Sample.world_loaded = []
  /\ (forall userId,
        exists w', invalidateUserFlagCache userId Sample.world_loaded
                   = (inr tt, w'))
  /\ exists w', invalidateFlagCaches Sample.world_loaded = (inr tt, w').
Proof.
  split; [reflexivity|].
  exact (proj2 (proj2 (proj2 (invalidation_frame Sample.world_loaded))) eq_refl).
Defined.

Lemma loadAllFlags_atomic_on_failure_witness :
  let w := set_faults [false; true] Sample.world in
  (cache w !! ALL_FLAGS_CACHE_KEY = None /\ faults w = false :: true :: [])
  /\ exists w', loadAllFlags w = (inl DatabaseError, w') /\ cache w' = cache w.
Proof.
  intros w.
  assert (Hmiss : cache w !! ALL_FLAGS_CACHE_KEY = None) by reflexivity.
  split; [split; [exact Hmiss|reflexivity]|].
  exact (proj1 (loadAllFlags_atomic_on_failure w Hmiss) [] eq_refl).
Defined.

(** ** The further properties at work *)



Lemma rule_order_is_irrelevant_witness :
  let flag := Sample.flag_with (Some true) in
  let context := Sample.pro_context in
  let rules := [Scenario.beta_rule; Sample.tier_rule] in
  let rules' := [Sample.tier_rule; Scenario.beta_rule] in
  (Permutation rules rules')
  /\ (List.NoDup (List.map StoredRule.priority rules))
  /\ (evaluateSingleFlag (with_rules rules' flag) context
     = evaluateSingleFlag (with_rules rules flag) context).
Proof.
  intros flag context rules rules'.
  assert (H1 : Permutation rules rules')
    by (apply perm_swap).
  assert (H2 : List.NoDup (List.map StoredRule.priority rules))
    by (vm_compute; apply List.NoDup_cons; [intros [Heq|[]]; discriminate | apply List.NoDup_cons; [intros [] | apply List.NoDup_nil]]).
  split; [exact H1|].
  split; [exact H2|].
  exact (rule_order_is_irrelevant flag context rules rules' H1 H2).
Defined.

Lemma calculateRollout_monotone_witness :
  let flagKey := "new_editor_ui" in
  let userId := "user-3" in
  let percentage := 30 in
  let percentage' := 50 in
  (percentage <= percentage')
  /\ (calculateRollout flagKey userId percentage = true)
  /\ (calculateRollout flagKey userId percentage' = true).
Proof.
  intros flagKey userId percentage percentage'.
  assert (H1 : percentage <= percentage')
    by (lia).
  assert (H2 : calculateRollout flagKey userId percentage = true)
    by (vm_compute; reflexivity).
  split; [exact H1|].
  split; [exact H2|].
  exact (calculateRollout_monotone flagKey userId percentage percentage' H1 H2).
Defined.

Lemma dotted_attribute_is_never_read_witness :
  let context := Scenario.nested_context in
  let key := "user.plan" in
  let v := Js.VString "free" in
  let field := "user.plan" in
  (has_dot key = true)
  /\ (getContextValue ((key, v) :: context) field = getContextValue context field).
Proof.
  intros context key v field.
  assert (H1 : has_dot key = true)
    by (reflexivity).
  split; [exact H1|].
  exact (dotted_attribute_is_never_read context key v field H1).
Defined.


Lemma loadAllFlags_hit_witness :
  let w := Sample.world_loaded in
  let flags := Sample.loaded_flags in
  let ttl := Some ALL_FLAGS_CACHE_TTL in
  (faults w = [])
  /\ (cache w !! ALL_FLAGS_CACHE_KEY = Some (CachedFlags flags, ttl))
  /\ (loadAllFlags w = (inr flags, w)).
Proof.
  intros w flags ttl.
  assert (H1 : faults w = [])
    by (reflexivity).
  assert (H2 : cache w !! ALL_FLAGS_CACHE_KEY = Some (CachedFlags flags, ttl))
    by (vm_compute; reflexivity).
  split; [exact H1|].
  split; [exact H2|].
  exact (loadAllFlags_hit w flags ttl H1 H2).
Defined.

Lemma loadAllFlags_miss_witness :
  let w := Sample.world in
  (faults w = [])
  /\ (cache w !! ALL_FLAGS_CACHE_KEY = None)
  /\ (let flags := assemble (flagRows w) (ruleRows w) in
     loadAllFlags w
     = (inr flags,
        set_cache (<[ALL_FLAGS_CACHE_KEY := snapshot_entry flags]> (cache w)) w)).
Proof.
  intros w.
  assert (H1 : faults w = [])
    by (reflexivity).
  assert (H2 : cache w !! ALL_FLAGS_CACHE_KEY = None)
    by (vm_compute; reflexivity).
  split; [exact H1|].
  split; [exact H2|].
  exact (loadAllFlags_miss w H1 H2).
Defined.

Lemma loadAllFlags_leaves_snapshot_witness :
  let w := Sample.world in
  let flags := Sample.loaded_flags in
  let w' := Sample.world_loaded in
  (loadAllFlags w = (inr flags, w'))
  /\ ((exists ttl, cache w' !! ALL_FLAGS_CACHE_KEY = Some (CachedFlags flags, ttl))
     /\ forall key, key <> ALL_FLAGS_CACHE_KEY -> cache w' !! key = cache w !! key).
Proof.
  intros w flags w'.
  assert (H1 : loadAllFlags w = (inr flags, w'))
    by (vm_compute; reflexivity).
  split; [exact H1|].
  exact (loadAllFlags_leaves_snapshot w flags w' H1).
Defined.

Lemma preview_agrees_with_evaluateFlag_witness :
  let flagKey := "video_4k_export" in
  let context := Sample.pro_context in
  let w := Sample.world in
  let result := rule_result (Sample.flag_with (Some true)) Sample.tier_rule in
  let used := Some (Sample.flag_with (Some true)) in
  let w' := Sample.world_loaded in
  (previewFlagEvaluation flagKey context w = (inr (result, used), w'))
  /\ (evaluateFlag flagKey context w = (inr result, w')
     /\ FlagEvaluationResult.key result = flagKey
     /\ match used with
        | Some flag =>
            StoredFlag.key flag = flagKey
            /\ result = evaluateSingleFlag flag context
            /\ exists flags w0,
                 loadAllFlags w = (inr flags, w0)
                 /\ List.find (fun f => String.eqb (StoredFlag.key f) flagKey)
                              flags = Some flag
        | None => result = unknown_result flagKey
        end).
Proof.
  intros flagKey context w result used w'.
  assert (H1 : previewFlagEvaluation flagKey context w = (inr (result, used), w'))
    by (vm_compute; reflexivity).
  split; [exact H1|].
  exact (preview_agrees_with_evaluateFlag flagKey context w result used w' H1).
Defined.

Lemma evaluateAllFlags_repeats_cached_response_witness :
  evaluateAllFlags Sample.pro_context Sample.world
  = (inr Scenario.response, Scenario.world_bulk)
  /\ evaluateAllFlags Sample.pro_context Scenario.world_later
     = (inr Scenario.response, Scenario.world_later).
Proof.
  assert (H1 : evaluateAllFlags Sample.pro_context Sample.world
               = (inr Scenario.response, Scenario.world_bulk))
    by (vm_compute; reflexivity).
  split; [exact H1|].
  exact (proj2 (evaluateAllFlags_repeats_cached_response Sample.pro_context
                  Sample.world Scenario.response Scenario.world_bulk H1)
           Scenario.world_later eq_refl eq_refl).
Defined.

Lemma invalidation_refreshes_snapshot_witness :
  let w := Scenario.world_bulk in
  let w1 := Sample.world in
  (invalidateFlagCaches w = (inr tt, w1))
  /\ (faults w1 = [])
  /\ (let flags := assemble (flagRows w1) (ruleRows w1) in
     loadAllFlags w1
     = (inr flags,
        set_cache (<[ALL_FLAGS_CACHE_KEY := snapshot_entry flags]> (cache w1)) w1)).
Proof.
  intros w w1.
  assert (H1 : invalidateFlagCaches w = (inr tt, w1))
    by (vm_compute; reflexivity).
  assert (H2 : faults w1 = [])
    by (reflexivity).
  split; [exact H1|].
  split; [exact H2|].
  exact (invalidation_refreshes_snapshot w w1 H1 H2).
Defined.


Lemma deleteCachePattern_counts_matches_witness :
  let pattern := "flags:user:*" in
  let w := Scenario.world_bulk in
  let n := 1 in
  let w' := Sample.world_loaded in
  (deleteCachePattern pattern w = (inr n, w'))
  /\ (let keys := List.map fst (map_to_list (cache w)) in
     n = Z.of_nat (List.length (List.filter (glob pattern) keys))
     /\ (forall k, cache w' !! k = if glob pattern k then None else cache w !! k)
     /\ ((forall k, In k keys -> glob pattern k = false) ->
         n = 0 /\ cache w' = cache w)).
Proof.
  intros pattern w n w'.
  assert (H1 : deleteCachePattern pattern w = (inr n, w'))
    by (vm_compute; reflexivity).
  split; [exact H1|].
  exact (deleteCachePattern_counts_matches pattern w n w' H1).
Defined.

Lemma incrementWithExpiry_fixed_window_witness :
  let k := RateLimit.key Scenario.options Scenario.request in
  let ttlSeconds := 60 in
  let s := Scenario.full_store in
  let count := 6 in
  let s' := RateLimit.set_counters
      {[ RateLimit.key Scenario.options Scenario.request := (6, Some 42%N) ]}
      Scenario.full_store in
  (0 < ttlSeconds)
  /\ (RateLimit.incrementWithExpiry k ttlSeconds s = (inr count, s'))
  /\ (count = RateLimit.count_of k s + 1
     /\ RateLimit.counters s' !! k = Some (count, Some (RateLimit.expiry_after k ttlSeconds s))
     /\ (forall n t, RateLimit.counters s !! k = Some (n, Some t) -> n <> 0 ->
         RateLimit.expiry_after k ttlSeconds s = t)
     /\ (forall n, RateLimit.counters s !! k = Some (n, None) ->
         RateLimit.expiry_after k ttlSeconds s = Z.to_N ttlSeconds)
     /\ (forall k', k' <> k -> RateLimit.counters s' !! k' = RateLimit.counters s !! k')).
Proof.
  intros k ttlSeconds s count s'.
  assert (H1 : 0 < ttlSeconds)
    by (lia).
  assert (H2 : RateLimit.incrementWithExpiry k ttlSeconds s = (inr count, s'))
    by (vm_compute; reflexivity).
  split; [exact H1|].
  split; [exact H2|].
  exact (incrementWithExpiry_fixed_window k ttlSeconds s count s' H1 H2).
Defined.

Lemma rateLimit_rejects_only_over_limit_witness :
  let options := Scenario.options in
  let request := Scenario.request in
  let headers := ∅ in
  let s := Scenario.full_store in
  let outcome := RateLimit.Throw RATE_LIMITED in
  let headers' := <["Retry-After" := "60"]>
      (<["X-RateLimit-Remaining" := "0"]> (<["X-RateLimit-Limit" := "5"]> ∅)) in
  let s' := RateLimit.set_counters
      {[ RateLimit.key Scenario.options Scenario.request := (6, Some 42%N) ]}
      Scenario.full_store in
  (0 < RateLimitOptions.window options)
  /\ (RateLimit.rateLimit options request headers s = (outcome, headers', s'))
  /\ (match outcome with
     | RateLimit.Throw e =>
         e = RATE_LIMITED
         /\ AppError.statusCode e = 429
         /\ RateLimitOptions.max options < RateLimit.count_of (RateLimit.key options request) s + 1
         /\ headers' !! "X-RateLimit-Remaining" = Some "0"
         /\ headers' !! "Retry-After"
            = Some (RateLimit.String_of (RateLimitOptions.window options))
     | RateLimit.Next =>
         RateLimit.count_of (RateLimit.key options request) s + 1 <= RateLimitOptions.max options
         \/ (headers' = headers
             /\ exists e, RateLimit.incrementWithExpiry (RateLimit.key options request)
                            (RateLimitOptions.window options) s = (inl e, s'))
     end).
Proof.
  intros options request headers s outcome headers' s'.
  assert (H1 : 0 < RateLimitOptions.window options)
    by (reflexivity).
  assert (H2 : RateLimit.rateLimit options request headers s = (outcome, headers', s'))
    by (vm_compute; reflexivity).
  split; [exact H1|].
  split; [exact H2|].
  exact (rateLimit_rejects_only_over_limit options request headers s outcome headers' s' H1 H2).
Defined.

Lemma first_max_requests_pass_witness :
  let options := Scenario.options in
  let request := Scenario.request in
  let headers := ∅ in
  let s := Scenario.empty_store in
  let n := 5%nat in
  (RateLimit.faults s = [])
  /\ (0 < RateLimitOptions.window options)
  /\ (RateLimit.counters s !! RateLimit.key options request = None)
  /\ (let s_n := RateLimit.requests n options request s in
     let count := Z.of_nat n + 1 in
     fst (fst (RateLimit.rateLimit options request headers s_n))
     = (if count >? RateLimitOptions.max options
        then RateLimit.Throw RATE_LIMITED else RateLimit.Next)
     /\ snd (fst (RateLimit.rateLimit options request headers s_n))
          !! "X-RateLimit-Remaining"
        = Some (RateLimit.String_of (Z.max 0 (RateLimitOptions.max options - count)))
     /\ RateLimit.counters (snd (RateLimit.rateLimit options request headers s_n))
          !! RateLimit.key options request
        = Some (count, Some (Z.to_N (RateLimitOptions.window options)))).
Proof.
  intros options request headers s n.
  assert (H1 : RateLimit.faults s = [])
    by (reflexivity).
  assert (H2 : 0 < RateLimitOptions.window options)
    by (reflexivity).
  assert (H3 : RateLimit.counters s !! RateLimit.key options request = None)
    by (reflexivity).
  split; [exact H1|].
  split; [exact H2|].
  split; [exact H3|].
  exact (first_max_requests_pass options request headers s n H1 H2 H3).
Defined.

Lemma rateLimit_counters_are_separate_witness :
  let options := Scenario.options in
  let request := Scenario.request in
  let request' := Scenario.other_request in
  let headers := ∅ in
  let s := Scenario.full_store in
  (RateLimit.identifier request <> RateLimit.identifier request')
  /\ (RateLimit.counters (snd (RateLimit.rateLimit options request headers s)) !! RateLimit.key options request'
     = RateLimit.counters s !! RateLimit.key options request').
Proof.
  intros options request request' headers s.
  assert (H1 : RateLimit.identifier request <> RateLimit.identifier request')
    by (discriminate).
  split; [exact H1|].
  exact (rateLimit_counters_are_separate options request request' headers s H1).
Defined.

Lemma static_flag_is_gated_rollout_witness :
  let flag := Scenario.ai_flag in
  let input := Scenario.input in
  (0 <= murmurhash3 (FlagsService.FlagDefinition.key flag +:+ ":" +:+
                       FlagsService.EvaluateInput.userId input))
  /\ (FlagsService.evaluateFlag flag input
     = {| FlagsService.FlagValue.key := FlagsService.FlagDefinition.key flag;
          FlagsService.FlagValue.enabled :=
            FlagsService.allows (FlagsService.FlagDefinition.allowedTiers flag)
              (FlagsService.EvaluateInput.subscriptionTier input)
            && FlagsService.allows
                 (FlagsService.FlagDefinition.allowedPlatforms flag)
                 (FlagsService.EvaluateInput.platform input)
            && calculateRollout (FlagsService.FlagDefinition.key flag)
                 (FlagsService.EvaluateInput.userId input)
                 (FlagsService.FlagDefinition.rolloutPercentage flag) |}).
Proof.
  intros flag input.
  assert (H1 : 0 <= murmurhash3 (FlagsService.FlagDefinition.key flag +:+ ":" +:+
                        FlagsService.EvaluateInput.userId input))
    by (vm_compute; discriminate).
  split; [exact H1|].
  exact (static_flag_is_gated_rollout flag input H1).
Defined.

Lemma parseSemver_shape_witness :
  (starts_with_digit "v1.2.3" = false /\ parseSemver "v1.2.3" = None)
  /\ parseSemver (version_text "1" "10" "0" "-beta")
     = Some {| SemverParts.major := Js.parseInt_digits "1";
               SemverParts.minor := Js.parseInt_digits "10";
               SemverParts.patch := Js.parseInt_digits "0" |}
  /\ compareSemver (version_text "1" "10" "0" "-beta")
                   (version_text "1" "10" "0" "+build.7") = 0.
Proof.
  split; [split; [reflexivity|]|].
  - exact (proj1 parseSemver_shape "v1.2.3" eq_refl).
  - destruct (proj2 parseSemver_shape "1" "10" "0" "-beta"
                eq_refl eq_refl eq_refl eq_refl eq_refl eq_refl eq_refl)
      as [Hparse Hcompare].
    split; [exact Hparse|].
    exact (Hcompare "+build.7" eq_refl).
Defined.

(** ** The engine beyond JSON data at work *)

Lemma getContextValue_composes_witness :
  let context := Scenario.nested_context in
  let a := "user" in
  (has_dot a = false)
  /\ (Exact.getContextValue context a
     = Exact.get (Exact.Data (Js.VObject context)) a
     /\ (forall f,
           Exact.getContextValue context (a +:+ "." +:+ f)
           = Exact.getContextValue_loop (Js.split "." f)
               (Exact.get (Exact.Data (Js.VObject context)) a))
     /\ (forall f inner,
           Js.assoc a context = Some (Js.VObject inner) ->
           Exact.getContextValue context (a +:+ "." +:+ f)
           = Exact.getContextValue inner f)
     /\ (forall f,
           Js.assoc a context = None -> Exact.inherited a = false ->
           Exact.getContextValue context (a +:+ "." +:+ f)
           = Exact.Data Js.VUndefined)
     /\ (forall field,
           List.forallb (fun part => negb (Exact.inherited part))
             (Js.split "." field) = true ->
           Exact.getContextValue context field
           = Exact.Data (getContextValue context field))).
Proof.
  intros context a.
  assert (H1 : has_dot a = false)
    by (reflexivity).
  split; [exact H1|].
  exact (getContextValue_composes context a H1).
Defined.


(** C3, as stated, fails in two ways. An intermediate array is not a
    mapping, yet the walk goes through it and the field resolves; and a
    segment the mapping does not have resolves all the same when it names a
    member that every object inherits. *)
Lemma array_segment_is_resolved :
  let context := Sample.tags_context in
  let field := "tags.0" in
  ((exists before part after xs,
       Js.split "." field = before ++ part :: after
       /\ Exact.getContextValue_loop before (Exact.Data (Js.VObject context))
          = Exact.Data (Js.VArray xs))
   /\ Exact.getContextValue context field = Exact.Data (Js.VString "beta")
   /\ Exact.is_absent (Exact.getContextValue context field) = false)
  /\ (Js.assoc "constructor" [] = None
      /\ Exact.getContextValue [] "constructor"
         = Exact.Function (V8.native "Object")
      /\ Exact.is_absent (Exact.getContextValue [] "constructor") = false).
Proof.
  cbn zeta. split; [split; [|split; reflexivity]|repeat split].
  exists ["tags"], "0", [], [Js.VString "beta"]. split; reflexivity.
Qed.

Lemma getContextValue_resolution_witness :
  Js.split "." "tags.0" = ["tags"] ++ "0" :: []
  /\ Exact.getContextValue Sample.tags_context "tags.0"
     = Exact.getContextValue_loop []
         (Exact.get (Exact.Data (Js.VArray [Js.VString "beta"])) "0").
Proof.
  split; [reflexivity|].
  exact (proj1 (proj2
           (@getContextValue_resolution Sample.runtime V8.prototypes
              Sample.tags_context "tags.0" ["tags"] "0" [] eq_refl))
           eq_refl eq_refl).
Defined.

(** C7, as stated, fails on a context value [String] throws on: matching
    with eq returns no boolean, the TypeError leaves the function. *)
Lemma coercion_error_is_raised :
  let contextValue := Exact.Data V8.no_string in
  let condition := Sample.condition "eq" (Js.VString "x") in
  Exact.is_absent contextValue = false
  /\ @Exact.matchesSingleCondition Sample.runtime contextValue condition = None
  /\ forall b : bool,
       @Exact.matchesSingleCondition Sample.runtime contextValue condition
       <> Some b.
Proof.
  cbn zeta. split; [reflexivity|]. split; [reflexivity|].
  intros b. discriminate.
Qed.

Lemma malformed_condition_absorbed_witness :
  (Exact.is_absent (Exact.Data (Js.VString "abc")) = false
   /\ @RegExp_new Sample.runtime "(" = None)
  /\ @Exact.matchesSingleCondition Sample.runtime
       (Exact.Data (Js.VString "abc"))
       (Sample.condition "regex" (Js.VString "(")) = Some false.
Proof.
  split; [split; reflexivity|].
  exact (proj1 (proj1 (@malformed_condition_absorbed Sample.runtime
                         (Exact.Data (Js.VString "abc"))
                         (Sample.condition "regex" (Js.VString "("))
                         eq_refl) eq_refl)
           "(" eq_refl eq_refl).
Defined.
